(** * Resource-control primitives of the task-tracking backend

    A shallow embedding of the NestJS service in three parts:

    - [CacheService] (common/services/cache.service.ts): the bounded
      TTL cache with earliest-expiry eviction and deep-cloned values;
    - [RateLimitGuard] (common/guards/rate-limit.guard.ts): the per-IP
      sliding-window request counter;
    - [TaskProcessorService], the processor of the ['task-processing']
      queue, with the methods of [TasksService] and of
      [OverdueTasksService] that fill the queue and the cache.

    Conventions.  JavaScript numbers that the code uses as clocks and
    counters ([Date.now()], [ttlSeconds], [attemptsMade], [limit],
    [windowMs]) are integers and are modelled in [Z].  [Date.now()] and
    [Math.random()] are inputs of the functions that read them.  Logger
    calls are dropped: they change no state the properties observe.
    What is kept of them is the one message that can fail to be built,
    the log line of [set] that prints a key of any type.  An
    [async] method is modelled by the value its promise settles with:
    [Returned] for a fulfilled promise, [Thrown] for a rejected one.
    The object that [CacheService] keeps its entries in is modelled
    with its prototype chain: its own properties, the names it inherits
    from [Object.prototype], and the prototype that an assignment to
    ['__proto__'] gives it.  A method runs from call to return without
    other requests in between. *)

From Stdlib Require Import List String Ascii ZArith NArith Lia Bool.
From Stdlib Require DecimalString.
From stdpp Require Import gmap strings.
Import ListNotations.

Set Warnings "-register-all".

Local Open Scope string_scope.
Local Open Scope list_scope.
Local Open Scope Z_scope.

(** ** JavaScript values *)

Module Js.

(** A value is a primitive or a reference to an object of the heap. *)
Inductive Val : Type :=
| VUndefined
| VNull
| VBool (b : bool)
| VNum (n : Z)
| VStr (s : string)
| VRef (a : nat).

(** The objects the cache is used with: [Date]s, arrays and plain
    objects.  A plain object has the prototype [Object.prototype] and
    the own enumerable properties listed, in [for-in] order, none of
    them named [__proto__]. *)
Inductive Obj : Type :=
| ODate (time : Z)
| OArr (items : list Val)
| ORec (props : list (string * Val)).

(** The heap maps addresses (positions) to objects; [new], [{}] and
    [map] allocate at the end. *)
Definition Heap := list Obj.

Definition alloc (h : Heap) (o : Obj) : Val * Heap :=
  (VRef (List.length h), h ++ [o]).

Inductive Exn : Type :=
| JsError (message : string)
| RangeError
| TypeError
| NotFoundException (message : string)
| ExternalFailure (code : nat).

(** How a call ends: with a value or with an exception of type [E]. *)
Inductive Outcome (E A : Type) : Type :=
| Returned (a : A)
| Thrown (e : E).
Arguments Returned {E A} a.
Arguments Thrown {E A} e.

(** [!v] is [negb (truthy v)]. *)
Definition truthy (v : Val) : bool :=
  match v with
  | VUndefined | VNull => false
  | VBool b => b
  | VNum n => negb (n =? 0)
  | VStr s => negb (String.eqb s "")
  | VRef _ => true
  end.

Definition val_eqb (v w : Val) : bool :=
  match v, w with
  | VUndefined, VUndefined => true
  | VNull, VNull => true
  | VBool a, VBool b => Bool.eqb a b
  | VNum a, VNum b => a =? b
  | VStr a, VStr b => String.eqb a b
  | VRef a, VRef b => Nat.eqb a b
  | _, _ => false
  end.

(** [arr.includes(v)] *)
Definition includes (arr : list Val) (v : Val) : bool :=
  existsb (fun w => val_eqb w v) arr.

(** *** Objects used as dictionaries

    [Record<string, T>]: the own properties of the object, in the order
    of [Object.keys]: array-index names first, in increasing numeric
    order, then the other names in the order of their creation. *)

Definition digit (c : ascii) : option N :=
  let n := N_of_ascii c in
  if ((48 <=? n) && (n <=? 57))%N then Some (n - 48)%N else None.

Fixpoint digits (s : string) (acc : N) : option N :=
  match s with
  | EmptyString => Some acc
  | String c rest =>
      match digit c with
      | Some d => digits rest (acc * 10 + d)%N
      | None => None
      end
  end.

(** A canonical numeric string below [2^32 - 1]. *)
Definition arrayIndex (k : string) : option N :=
  match k with
  | EmptyString => None
  | String c rest =>
      if (Ascii.eqb c "0" && negb (String.eqb rest ""))%bool then None
      else match digits k 0 with
           | Some n => if (n <? 4294967295)%N then Some n else None
           | None => None
           end
  end.

(** Whether a new property [k] is enumerated before the existing [k']. *)
Definition keyBefore (k k' : string) : bool :=
  match arrayIndex k, arrayIndex k' with
  | Some n, Some n' => (n <? n')%N
  | Some _, None => true
  | None, _ => false
  end.

Section Dict.
Context {T : Type}.

Definition Dict := list (string * T).

(** [Object.keys(o)] *)
Definition ownKeys (o : Dict) : list string := map fst o.

(** [o[k]] for an own property; [None] when [o] has no own property
    [k]. *)
Fixpoint getOwn (k : string) (o : Dict) : option T :=
  match o with
  | [] => None
  | (k', x) :: rest => if String.eqb k' k then Some x else getOwn k rest
  end.

(** [Object.hasOwn(o, k)] *)
Definition hasOwn (k : string) (o : Dict) : bool :=
  match getOwn k o with Some _ => true | None => false end.

(** [delete o[k]] *)
Definition deleteOwn (k : string) (o : Dict) : Dict :=
  List.filter (fun p => negb (String.eqb (fst p) k)) o.

Fixpoint replaceOwn (k : string) (x : T) (o : Dict) : Dict :=
  match o with
  | [] => []
  | (k', y) :: rest =>
      if String.eqb k' k then (k, x) :: rest else (k', y) :: replaceOwn k x rest
  end.

Fixpoint createOwn (k : string) (x : T) (o : Dict) : Dict :=
  match o with
  | [] => [(k, x)]
  | (k', y) :: rest =>
      if keyBefore k k' then (k, x) :: o else (k', y) :: createOwn k x rest
  end.

(** [o[k] = x] for a name [k] that is an own property of [o] or is
    free to become one: an existing property keeps its place. *)
Definition assign (k : string) (x : T) (o : Dict) : Dict :=
  if hasOwn k o then replaceOwn k x o else createOwn k x o.
End Dict.
Arguments Dict T : clear implicits.

(** The methods of [Object.prototype], which every plain object
    inherits.  Its one other property with a string name is the
    accessor [__proto__]. *)
Definition objectPrototype : list string :=
  ["constructor"; "__defineGetter__"; "__defineSetter__"; "hasOwnProperty";
   "__lookupGetter__"; "__lookupSetter__"; "isPrototypeOf";
   "propertyIsEnumerable"; "toString"; "valueOf"; "toLocaleString"].

(** *** deepClone

    [depth] is the number of call frames left; a call with none left is
    the engine's [RangeError] (maximum call stack size exceeded), which
    is how the recursion ends on a cyclic value. *)

Section CloneEach.
Context {A : Type}.
Variable clone : Heap -> Val -> Outcome Exn (Val * Heap).
Variable field : A -> Val.
Variable store : A -> Val -> A.

(** The loop of [obj.map(item => deepClone(item))] and of
    [for (key in obj) cloned[key] = deepClone(obj[key])]. *)
Fixpoint cloneEach (h : Heap) (xs : list A) : Outcome Exn (list A * Heap) :=
  match xs with
  | [] => Returned ([], h)
  | x :: rest =>
      match clone h (field x) with
      | Thrown e => Thrown e
      | Returned (v, h1) =>
          match cloneEach h1 rest with
          | Thrown e => Thrown e
          | Returned (rest', h2) => Returned (store x v :: rest', h2)
          end
      end
  end.
End CloneEach.

Definition setProp (p : string * Val) (v : Val) : string * Val := (fst p, v).

(** The fresh array or object is entered in the heap once its fields are
    complete; addresses are not observable, so the place of the
    allocation in the sequence is immaterial.  An address outside the
    heap denotes no value and falls to the final [return obj].

    The loop over a plain object calls [obj.hasOwnProperty(key)] at
    each key.  When [obj] has an own property of that name, the call
    finds that property, which is no function (no value of the model
    is), and the first round of the loop throws a [TypeError]. *)
Fixpoint deepClone (depth : nat) (h : Heap) (obj : Val) : Outcome Exn (Val * Heap) :=
  match depth with
  | O => Thrown RangeError
  | S d =>
      match obj with
      | VRef a =>
          match nth_error h a with
          | Some (ODate t) => Returned (alloc h (ODate t))
          | Some (OArr items) =>
              match cloneEach (deepClone d) (fun v => v) (fun _ v => v) h items with
              | Thrown e => Thrown e
              | Returned (items', h') => Returned (alloc h' (OArr items'))
              end
          | Some (ORec props) =>
              if hasOwn "hasOwnProperty" props then Thrown TypeError
              else
                match cloneEach (deepClone d) snd setProp h props with
                | Thrown e => Thrown e
                | Returned (props', h') => Returned (alloc h' (ORec props'))
                end
          | None => Returned (obj, h)
          end
      | _ => Returned (obj, h)
      end
  end.

(** *** The content of a value

    [reify] reads a value off the heap as a finite tree; two values are
    deep-equal when they reify to the same tree.  It is defined on the
    values that are acyclic, at most [depth] levels deep, and made of
    data: a plain object is data when it leaves [hasOwnProperty] to
    [Object.prototype] and has no property named [__proto__]. *)
Inductive Tree : Type :=
| TUndefined
| TNull
| TBool (b : bool)
| TNum (n : Z)
| TStr (s : string)
| TDate (time : Z)
| TArr (items : list Tree)
| TRec (props : list (string * Tree)).

Section ReifyEach.
Context {A B : Type}.
Variable read : Val -> option Tree.
Variable field : A -> Val.
Variable mk : A -> Tree -> B.

Fixpoint reifyEach (xs : list A) : option (list B) :=
  match xs with
  | [] => Some []
  | x :: rest =>
      match read (field x), reifyEach rest with
      | Some t, Some ts => Some (mk x t :: ts)
      | _, _ => None
      end
  end.
End ReifyEach.

Definition mkProp (p : string * Val) (t : Tree) : string * Tree := (fst p, t).

Definition dataNames (names : list string) : bool :=
  negb (existsb (String.eqb "hasOwnProperty") names)
  && negb (existsb (String.eqb "__proto__") names).

Fixpoint reify (depth : nat) (h : Heap) (v : Val) : option Tree :=
  match depth with
  | O => None
  | S d =>
      match v with
      | VUndefined => Some TUndefined
      | VNull => Some TNull
      | VBool b => Some (TBool b)
      | VNum n => Some (TNum n)
      | VStr s => Some (TStr s)
      | VRef a =>
          match nth_error h a with
          | Some (ODate t) => Some (TDate t)
          | Some (OArr items) =>
              option_map TArr (reifyEach (reify d h) (fun v => v) (fun _ t => t) items)
          | Some (ORec props) =>
              if dataNames (ownKeys props)
              then option_map TRec (reifyEach (reify d h) snd mkProp props)
              else None
          | None => None
          end
      end
  end.

(** [agree lo hi h g]: the heaps [h] and [g] hold the same objects at
    the addresses from [lo] up to [hi]; [g] is otherwise arbitrary. *)
Definition agree (lo hi : nat) (h g : Heap) : Prop :=
  forall a, (lo <= a < hi)%nat -> nth_error g a = nth_error h a.

(** What a successful clone guarantees: the heap only grew, by [ext],
    and the clone has content [t] in every heap that holds [ext] at the
    same addresses, whatever that heap holds elsewhere. *)
Definition clonesTo (d : nat) (h : Heap) (t : Tree)
    (r : Outcome Exn (Val * Heap)) : Prop :=
  exists v' ext,
    r = Returned (v', h ++ ext) /\
    forall g, agree (List.length h) (List.length (h ++ ext)) (h ++ ext) g ->
              reify d g v' = Some t.

(** *** Comparison with a number

    [x < n] for a number [n] and any value [x]: [x] is converted to a
    number, and a [NaN] is below nothing.  Numbers are exact here: a
    numeral is not rounded to the nearest double. *)

(** What a value converts to: [m * 10^e], an infinity, or [NaN]. *)
Inductive Number : Type :=
| NaN
| Infinity (negative : bool)
| Decimal (m e : Z).

Definition negate (x : Number) : Number :=
  match x with
  | NaN => NaN
  | Infinity negative => Infinity (negb negative)
  | Decimal m e => Decimal (- m) e
  end.

(** [x < n] *)
Definition below (x : Number) (n : Z) : bool :=
  match x with
  | NaN => false
  | Infinity negative => negative
  | Decimal m e => if 0 <=? e then m * 10 ^ e <? n else m <? n * 10 ^ (- e)
  end.

(** White space and line terminators among the characters below 256. *)
Definition whiteSpace (c : ascii) : bool :=
  let n := N_of_ascii c in
  ((9 <=? n) && (n <=? 13) || (n =? 32) || (n =? 160))%N.

Fixpoint trimStart (s : string) : string :=
  match s with
  | EmptyString => EmptyString
  | String c rest => if whiteSpace c then trimStart rest else s
  end.

Fixpoint trimEnd (s : string) : string :=
  match s with
  | EmptyString => EmptyString
  | String c rest =>
      let rest' := trimEnd rest in
      if whiteSpace c && String.eqb rest' "" then EmptyString else String c rest'
  end.

Definition digitValue (c : ascii) : option Z :=
  let n := Z.of_N (N_of_ascii c) in
  if (48 <=? n) && (n <=? 57) then Some (n - 48)
  else if (97 <=? n) && (n <=? 122) then Some (n - 87)
  else if (65 <=? n) && (n <=? 90) then Some (n - 55)
  else None.

(** The digits of base [b] that [s] starts with: their value, read
    after [acc]; how many they are, added to [count]; and the rest of
    [s]. *)
Fixpoint span (b : Z) (s : string) (acc count : Z) : Z * Z * string :=
  match s with
  | EmptyString => (acc, count, s)
  | String c rest =>
      match digitValue c with
      | Some d => if d <? b then span b rest (acc * b + d) (count + 1)
                  else (acc, count, s)
      | None => (acc, count, s)
      end
  end.

(** The digits after [0x], [0o] or [0b]. *)
Definition radixLiteral (b : Z) (s : string) : Number :=
  let '(m, count, rest) := span b s 0 0 in
  if (0 <? count) && String.eqb rest "" then Decimal m 0 else NaN.

(** What follows the mantissa: nothing, or [e], a sign or none, and
    digits. *)
Definition exponentPart (s : string) : option Z :=
  match s with
  | EmptyString => Some 0
  | String c rest =>
      if Ascii.eqb c "e" || Ascii.eqb c "E"
      then
        let '(negative, rest) :=
          match rest with
          | String "+" r => (false, r)
          | String "-" r => (true, r)
          | _ => (false, rest)
          end in
        let '(x, count, rest) := span 10 rest 0 0 in
        if (0 <? count) && String.eqb rest ""
        then Some (if negative then - x else x) else None
      else None
  end.

(** [Infinity], or digits with a point among them or not, and an
    exponent or none. *)
Definition unsignedDecimal (s : string) : Number :=
  if String.eqb s "Infinity" then Infinity false
  else
    let '(i, ni, rest) := span 10 s 0 0 in
    let '(m, nf, rest) :=
      match rest with
      | String "." r => span 10 r i 0
      | _ => (i, 0, rest)
      end in
    if 0 <? ni + nf
    then match exponentPart rest with
         | Some x => Decimal m (x - nf)
         | None => NaN
         end
    else NaN.

(** [Number(s)] for a string [s] *)
Definition stringToNumber (s : string) : Number :=
  match trimEnd (trimStart s) with
  | EmptyString => Decimal 0 0
  | String "+" rest => unsignedDecimal rest
  | String "-" rest => negate (unsignedDecimal rest)
  | String "0" (String x rest) as s' =>
      if Ascii.eqb x "x" || Ascii.eqb x "X" then radixLiteral 16 rest
      else if Ascii.eqb x "o" || Ascii.eqb x "O" then radixLiteral 8 rest
      else if Ascii.eqb x "b" || Ascii.eqb x "B" then radixLiteral 2 rest
      else unsignedDecimal s'
  | s' => unsignedDecimal s'
  end.

(** [Number(arr)] for an array with the elements [items]: the number
    its [toString()], which is [join(",")], spells.  An element that is
    [null] or [undefined] prints as nothing, a plain object as
    ['[object Object]'], unless it has an own property [toString] (no
    function), in which case there is no string for it and the
    conversion throws.  An array met inside itself prints as nothing;
    [path] holds the arrays being printed.  [fuel] bounds the nesting
    and is not used up when it starts above the size of the heap. *)
Fixpoint joined (fuel : nat) (h : Heap) (path : list nat) (items : list Val)
  : Outcome Exn Number :=
  match fuel with
  | O => Returned NaN
  | S fuel' =>
      let element (v : Val) : Outcome Exn Number :=
        match v with
        | VUndefined | VNull => Returned (Decimal 0 0)
        | VBool _ => Returned NaN
        | VNum n => Returned (Decimal n 0)
        | VStr s => Returned (stringToNumber s)
        | VRef a =>
            match nth_error h a with
            | Some (ODate _) => Returned NaN
            | Some (OArr inner) =>
                if existsb (Nat.eqb a) path then Returned (Decimal 0 0)
                else joined fuel' h (a :: path) inner
            | Some (ORec props) =>
                if hasOwn "toString" props then Thrown TypeError else Returned NaN
            | None => Returned NaN
            end
        end in
      match items with
      | [] => Returned (Decimal 0 0)
      | [v] => element v
      | _ =>
          if existsb (fun v => match element v with
                               | Thrown _ => true
                               | Returned _ => false
                               end) items
          then Thrown TypeError else Returned NaN
      end
  end.

(** The number that [v] is compared as: a [Date] by its time, an array
    and a plain object by the string they print as. *)
Definition toNumber (h : Heap) (v : Val) : Outcome Exn Number :=
  match v with
  | VUndefined => Returned NaN
  | VNull => Returned (Decimal 0 0)
  | VBool b => Returned (Decimal (if b then 1 else 0) 0)
  | VNum n => Returned (Decimal n 0)
  | VStr s => Returned (stringToNumber s)
  | VRef a =>
      match nth_error h a with
      | Some (ODate t) => Returned (Decimal t 0)
      | Some (OArr items) => joined (S (List.length h)) h [a] items
      | Some (ORec props) =>
          if hasOwn "toString" props then Thrown TypeError else Returned NaN
      | None => Returned NaN
      end
  end.

(** [v < n] *)
Definition lessThan (h : Heap) (v : Val) (n : Z) : Outcome Exn bool :=
  match toNumber h v with
  | Returned x => Returned (below x n)
  | Thrown e => Thrown e
  end.

(** Whether [`${v}`] is a string.  The conversion to a string fails
    where the conversion to a number does: at a plain object with an
    own property [toString], and at an array that has to print one. *)
Definition printable (h : Heap) (v : Val) : bool :=
  match toNumber h v with
  | Returned _ => true
  | Thrown _ => false
  end.

(** [v.name] for a value [v] that is not [null] or [undefined] and a
    [name] that no built-in prototype defines: an own property of a
    plain object, [undefined] otherwise. *)
Definition field (name : string) (h : Heap) (v : Val) : Val :=
  match v with
  | VRef a =>
      match nth_error h a with
      | Some (ORec props) =>
          match getOwn name props with
          | Some x => x
          | None => VUndefined
          end
      | _ => VUndefined
      end
  | _ => VUndefined
  end.

(** [s.startsWith(p)] *)
Definition startsWith (s p : string) : bool := String.prefix p s.

(** [Math.ceil(n / 1000)] for an integer [n] *)
Definition ceilDiv1000 (n : Z) : Z := - ((- n) / 1000).

(** *** Calls that read and change a state [S] and may throw

    What a call changed stays changed when it throws. *)
Section StateExn.
Context {S E : Type}.

Definition M (A : Type) : Type := S -> Outcome E A * S.

Definition ret {A} (a : A) : M A := fun st => (Returned a, st).

Definition throw {A} (e : E) : M A := fun st => (Thrown e, st).

Definition bind {A B} (m : M A) (k : A -> M B) : M B :=
  fun st =>
    match m st with
    | (Returned a, st') => k a st'
    | (Thrown e, st') => (Thrown e, st')
    end.

(** [try { body } catch (error) { handler }] *)
Definition tryCatch {A} (body : M A) (handler : E -> M A) : M A :=
  fun st =>
    match body st with
    | (Returned a, st') => (Returned a, st')
    | (Thrown e, st') => handler e st'
    end.

Definition gets {A} (f : S -> A) : M A := fun st => (Returned (f st), st).

Definition modify (f : S -> S) : M unit := fun st => (Returned tt, f st).

(** [for (const x of xs) { body }] *)
Fixpoint forEach {A} (xs : list A) (body : A -> M unit) : M unit :=
  match xs with
  | [] => ret tt
  | x :: rest => bind (body x) (fun _ => forEach rest body)
  end.
End StateExn.
Arguments M S E A : clear implicits.

End Js.

Declare Scope js_scope.
Delimit Scope js_scope with js.
Notation "x <- m ;; k" := (Js.bind m (fun x => k))
  (at level 100, m at next level, right associativity) : js_scope.
Notation "m ;;; k" := (Js.bind m (fun _ => k))
  (at level 100, right associativity) : js_scope.

(** ** CacheService *)

Module CacheService.
Import Js.
Local Open Scope js_scope.

(** [{ value: any; expiresAt: number }] *)
Record Entry : Type := { value : Val; expiresAt : Z }.

(** The service's [cache] field together with the heap its values live
    in.  [cache] holds the own properties of the object.  [proto] is its
    prototype: [None] for [Object.prototype], as [{}] has it, and
    [Some e] for the entry object [e] (itself a plain object) that an
    assignment to ['__proto__'] has put in that place. *)
Record State : Type := { heap : Heap; cache : Dict Entry; proto : option Entry }.

Definition MAX_CACHE_SIZE : Z := 1000.
Definition CLEANUP_INTERVAL : Z := 60000.
Definition DEFAULT_TTL : Z := 300.

(** [new CacheService()] in a program whose heap is [h]. *)
Definition init (h : Heap) : State := {| heap := h; cache := []; proto := None |}.

Definition setCache (f : Dict Entry -> Dict Entry) : M State Exn unit :=
  modify (fun st => {| heap := heap st; cache := f (cache st); proto := proto st |}).

Definition setHeap (h : Heap) (st : State) : State :=
  {| heap := h; cache := cache st; proto := proto st |}.

(** [this.deepClone(v)] *)
Definition clone (depth : nat) (v : Val) : M State Exn Val :=
  fun st =>
    match deepClone depth (heap st) v with
    | Returned (v', h') => (Returned v', setHeap h' st)
    | Thrown e => (Thrown e, st)
    end.

Definition isString (v : Val) : bool :=
  match v with VStr _ => true | _ => false end.

(** [!key || typeof key !== 'string'] *)
Definition invalidKey (key : Val) : bool :=
  negb (truthy key) || negb (isString key).

(** The property name of a key that passed the guard. *)
Definition propertyKey (key : Val) : string :=
  match key with VStr s => s | _ => "" end.

(** What [this.cache[key]] can be: an entry object; a value of the
    program, when [key] names a property of an entry that is the
    prototype; a method of [Object.prototype], or [Object.prototype]
    itself. *)
Inductive Item : Type :=
| IEntry (e : Entry)
| IValue (v : Val)
| IBuiltin.

(** What [key] names on the prototype chain [p] of the store. *)
Definition inherited (key : string) (p : option Entry) : option Item :=
  match p with
  | Some e =>
      if String.eqb key "value" then Some (IValue (value e))
      else if String.eqb key "expiresAt" then Some (IValue (VNum (expiresAt e)))
      else if String.eqb key "__proto__" then Some (IEntry e)
      else if existsb (String.eqb key) objectPrototype then Some IBuiltin
      else None
  | None =>
      if String.eqb key "__proto__" || existsb (String.eqb key) objectPrototype
      then Some IBuiltin
      else None
  end.

(** [this.cache[key]]; [None] is [undefined], the answer for a name
    that is no property of the store, own or inherited. *)
Definition getItem (key : string) (st : State) : option Item :=
  match getOwn key (cache st) with
  | Some e => Some (IEntry e)
  | None => inherited key (proto st)
  end.

(** [key in this.cache] *)
Definition inCache (key : string) (st : State) : bool :=
  match getItem key st with Some _ => true | None => false end.

(** [!item] is [negb (itemTruthy item)]. *)
Definition itemTruthy (item : Item) : bool :=
  match item with
  | IValue v => truthy v
  | _ => true
  end.

(** [item.expiresAt] *)
Definition itemExpiresAt (h : Heap) (item : Item) : Val :=
  match item with
  | IEntry e => VNum (expiresAt e)
  | IValue v => field "expiresAt" h v
  | IBuiltin => VUndefined
  end.

(** [item.value] *)
Definition itemValue (h : Heap) (item : Item) : Val :=
  match item with
  | IEntry e => value e
  | IValue v => field "value" h v
  | IBuiltin => VUndefined
  end.

(** [item.expiresAt < Date.now()] *)
Definition expired (item : Item) (now : Z) : M State Exn bool :=
  fun st => (lessThan (heap st) (itemExpiresAt (heap st) item) now, st).

(** [this.cache[key] = entry].  The name ['__proto__'], unless it is an
    own property, is the accessor of [Object.prototype]: assigning an
    object to it makes that object the prototype and creates no
    property. *)
Definition store (key : string) (entry : Entry) (st : State) : State :=
  if String.eqb key "__proto__" && negb (hasOwn key (cache st))
  then {| heap := heap st; cache := cache st; proto := Some entry |}
  else {| heap := heap st; cache := assign key entry (cache st); proto := proto st |}.

Definition older (acc : string * Z) (p : string * Entry) : string * Z :=
  if expiresAt (snd p) <? snd acc then (fst p, expiresAt (snd p)) else acc.

(** The key [evictOldest] settles on: lowest [expiresAt], the first
    such in key order. *)
Definition oldestKey (c : Dict Entry) : option string :=
  match c with
  | [] => None
  | (k0, e0) :: _ => Some (fst (fold_left older c (k0, expiresAt e0)))
  end.

(** The store [evictOldest] leaves. *)
Definition afterEviction (c : Dict Entry) : Dict Entry :=
  match oldestKey c with
  | None => c
  | Some k => deleteOwn k c
  end.

Definition evictOldest : M State Exn unit :=
  tryCatch
    (c <- gets cache ;;
     match oldestKey c with
     | None => ret tt
     | Some k => setCache (deleteOwn k)
     end)
    (fun _ => ret tt).

Definition set (depth : nat) (key value : Val) (ttlSeconds now : Z)
  : M State Exn unit :=
  tryCatch
    (if invalidKey key then throw (JsError "Invalid cache key")
     else
       c <- gets cache ;;
       (if MAX_CACHE_SIZE <=? Z.of_nat (List.length (ownKeys c))
        then evictOldest else ret tt) ;;;
       let expiresAt := now + ttlSeconds * 1000 in
       clonedValue <- clone depth value ;;
       modify (store (propertyKey key)
                 {| value := clonedValue; expiresAt := expiresAt |}))
    (fun error =>
       (* the log line [`Cache SET error for key ${key}:`] comes first *)
       logged <- gets (fun st => printable (heap st) key) ;;
       if logged then throw error else throw TypeError).

(** [null] is the absent result. *)
Definition get (depth : nat) (key : Val) (now : Z) : M State Exn Val :=
  tryCatch
    (if invalidKey key then ret VNull
     else
       item <- gets (getItem (propertyKey key)) ;;
       match item with
       | None => ret VNull
       | Some item =>
           if negb (itemTruthy item) then ret VNull
           else
             stale <- expired item now ;;
             if stale
             then setCache (deleteOwn (propertyKey key)) ;;; ret VNull
             else
               v <- gets (fun st => itemValue (heap st) item) ;;
               clone depth v
       end)
    (fun _ => ret VNull).

Definition delete (key : Val) : M State Exn bool :=
  tryCatch
    (if invalidKey key then ret false
     else
       exists_ <- gets (inCache (propertyKey key)) ;;
       if exists_
       then setCache (deleteOwn (propertyKey key)) ;;; ret true
       else ret false)
    (fun _ => ret false).

(** [this.cache = {}] *)
Definition clear : M State Exn unit :=
  tryCatch
    (modify (fun st => {| heap := heap st; cache := []; proto := None |}))
    (fun error => throw error).

Definition has (key : Val) (now : Z) : M State Exn bool :=
  tryCatch
    (if invalidKey key then ret false
     else
       item <- gets (getItem (propertyKey key)) ;;
       match item with
       | None => ret false
       | Some item =>
           if negb (itemTruthy item) then ret false
           else
             stale <- expired item now ;;
             if stale
             then setCache (deleteOwn (propertyKey key)) ;;; ret false
             else ret true
       end)
    (fun _ => ret false).

Record Stats : Type := { size : Z; maxSize : Z; keys : list string }.

Definition getStats (st : State) : Stats :=
  let keys := ownKeys (cache st) in
  {| size := Z.of_nat (List.length keys);
     maxSize := MAX_CACHE_SIZE;
     keys := firstn 10 keys |}.

(** The body of the timer started by [startCleanup]; [now] is the
    [Date.now()] of that run. *)
Definition cleanupExpired (now : Z) : M State Exn unit :=
  tryCatch
    (setCache (List.filter (fun p => negb (expiresAt (snd p) <? now))))
    (fun _ => ret tt).

(** What can happen to a cache between its construction and a given
    moment: calls of its methods, runs of the cleanup timer, and the
    rest of the program allocating and changing objects. *)
Inductive Op : Type :=
| OpSet (depth : nat) (key value : Val) (ttlSeconds now : Z)
| OpGet (depth : nat) (key : Val) (now : Z)
| OpDelete (key : Val)
| OpClear
| OpHas (key : Val) (now : Z)
| OpCleanup (now : Z)
| OpHeap (h : Heap).

Definition step (st : State) (op : Op) : State :=
  match op with
  | OpSet depth key value ttl now => snd (set depth key value ttl now st)
  | OpGet depth key now => snd (get depth key now st)
  | OpDelete key => snd (delete key st)
  | OpClear => snd (clear st)
  | OpHas key now => snd (has key now st)
  | OpCleanup now => snd (cleanupExpired now st)
  | OpHeap h => setHeap h st
  end.

Definition run (ops : list Op) (st : State) : State := fold_left step ops st.

(** The store [set] assigns into: the store it finds, after the
    eviction when that one is full. *)
Definition admitting (c : Dict Entry) : Dict Entry :=
  if MAX_CACHE_SIZE <=? Z.of_nat (List.length (ownKeys c))
  then afterEviction c else c.

(** What holds of the store of a cache whatever was done to it: its
    names are distinct and not empty, and there are at most
    [MAX_CACHE_SIZE] of them. *)
Definition wf (c : Dict Entry) : Prop :=
  List.NoDup (ownKeys c) /\
  Forall (fun k => k <> "") (ownKeys c) /\
  Z.of_nat (List.length (ownKeys c)) <= MAX_CACHE_SIZE.

End CacheService.

(** ** TasksService: cache invalidation *)

Module TasksService.
Import Js.
Local Open Scope js_scope.

Definition invalidateKey (key : string) : M CacheService.State Exn unit :=
  if startsWith key "tasks:" || startsWith key "stats:"
  then CacheService.delete (VStr key) ;;; ret tt
  else ret tt.

(** The names the routine passes to [delete], in order: the statistics
    key, then the prefixed names among the keys that [getStats] shows
    after that first [delete], then the two literal names. *)
Definition invalidated (c : Dict CacheService.Entry) : list string :=
  "stats:task-statistics"
  :: List.filter (fun key => startsWith key "tasks:" || startsWith key "stats:")
       (firstn 10 (ownKeys (deleteOwn "stats:task-statistics" c)))
  ++ ["tasks:*"; "stats:*"].

Definition deleteEach (names : list string) (c : Dict CacheService.Entry)
  : Dict CacheService.Entry :=
  fold_left (fun c k => deleteOwn k c) names c.

Definition invalidateTaskCache : M CacheService.State Exn unit :=
  tryCatch
    (CacheService.delete (VStr "stats:task-statistics") ;;;
     stats <- gets CacheService.getStats ;;
     forEach (CacheService.keys stats) invalidateKey ;;;
     CacheService.delete (VStr "tasks:*") ;;;
     CacheService.delete (VStr "stats:*") ;;;
     ret tt)
    (fun _ => ret tt).

End TasksService.

(** ** RateLimitGuard *)

Module RateLimitGuard.
Import Js.

(** [{ count: number, timestamp: number }] *)
Record RequestRecord : Type := { count : Z; timestamp : Z }.

(** [{ limit: number; windowMs: number }] *)
Record Options : Type := { limit : Z; windowMs : Z }.

(** The response object of the [HttpException] thrown on rejection.  Its
    [message] field, a sentence that prints [limit] and [windowMs / 1000],
    is left out. *)
Record Rejection : Type := {
  status : Z;
  error : string;
  rejLimit : Z;
  current : Z;
  remaining : Z;
  retryAfter : Z
}.

Definition TOO_MANY_REQUESTS : Z := 429.

Definition defaultOptions : Options := {| limit := 100; windowMs := 60000 |}.

(** [record => record.timestamp > bound] *)
Definition newerThan (bound : Z) (record : RequestRecord) : bool :=
  bound <? timestamp record.

Definition prune (now maxAge : Z) (records : list RequestRecord)
  : option (list RequestRecord) :=
  match List.filter (newerThan (now - maxAge)) records with
  | [] => None
  | kept => Some kept
  end.

(** [now] is the [Date.now()] of the sweep. *)
Definition cleanupOldRecords (now : Z)
    (requestRecords : gmap string (list RequestRecord))
  : gmap string (list RequestRecord) :=
  let maxAge := 5 * 60 * 1000 in
  omap (prune now maxAge) requestRecords.

(** [requestRecords] is the module-level table.  [now] is the
    [Date.now()] of the call; [sweep] is [Some t] when the draw of
    [Math.random()] is below 0.001, with [t] the [Date.now()] read by
    the sweep, and [None] otherwise. *)
Definition handleRateLimit (ip : string) (options : Options)
    (now : Z) (sweep : option Z)
    (requestRecords : gmap string (list RequestRecord))
  : Outcome Rejection bool * gmap string (list RequestRecord) :=
  let limit := limit options in
  let windowMs := windowMs options in
  let requestRecords :=
    match requestRecords !! ip with
    | Some _ => requestRecords
    | None => <[ip := []]> requestRecords
    end in
  let windowStart := now - windowMs in
  let kept := List.filter (newerThan windowStart) (default [] (requestRecords !! ip)) in
  let requestRecords := <[ip := kept]> requestRecords in
  if limit <=? Z.of_nat (List.length kept)
  then
    (Thrown {| status := TOO_MANY_REQUESTS;
               error := "Rate limit exceeded";
               rejLimit := limit;
               current := Z.of_nat (List.length kept);
               remaining := 0;
               retryAfter := ceilDiv1000 windowMs |},
     requestRecords)
  else
    let requestRecords :=
      <[ip := kept ++ [{| count := 1; timestamp := now |}]]> requestRecords in
    let requestRecords :=
      match sweep with
      | Some t => cleanupOldRecords t requestRecords
      | None => requestRecords
      end in
    (Returned true, requestRecords).

(** [metadata] is what the reflector finds on the handler. *)
Definition canActivate (ip : string) (metadata : option Options)
    (now : Z) (sweep : option Z)
    (requestRecords : gmap string (list RequestRecord))
  : Outcome Rejection bool * gmap string (list RequestRecord) :=
  let rateLimitOptions := default defaultOptions metadata in
  handleRateLimit ip rateLimitOptions now sweep requestRecords.

(** *** The limiter as the specification words it

    [check(identity, config)] over the timestamps recorded for one
    identity: keep those after [now - windowMs], reject when that many
    reach the limit, otherwise record [now] and allow. *)
Inductive Verdict : Type :=
| Allow
| Reject (limit current remaining retryAfterSeconds : Z).

Definition check_spec (config : Options) (now : Z) (timestamps : list Z)
  : Verdict * list Z :=
  let windowStart := now - windowMs config in
  let inWindow := List.filter (fun t => windowStart <? t) timestamps in
  if limit config <=? Z.of_nat (List.length inWindow)
  then (Reject (limit config) (Z.of_nat (List.length inWindow)) 0
          (ceilDiv1000 (windowMs config)), inWindow)
  else (Allow, inWindow ++ [now]).

Definition verdict (o : Outcome Rejection bool) : Verdict :=
  match o with
  | Returned _ => Allow
  | Thrown r => Reject (rejLimit r) (current r) (remaining r) (retryAfter r)
  end.

(** The timestamps on record for an identity. *)
Definition timestampsOf (ip : string)
    (requestRecords : gmap string (list RequestRecord)) : list Z :=
  map timestamp (default [] (requestRecords !! ip)).

(** What the sweep that may follow an allowed request leaves of them. *)
Definition swept (sweep : option Z) (timestamps : list Z) : list Z :=
  match sweep with
  | Some t => List.filter (fun x => t - 5 * 60 * 1000 <? x) timestamps
  | None => timestamps
  end.

(** Successive requests of one client to one route; each comes with the
    [now] and the [sweep] of its call. *)
Fixpoint serve (ip : string) (options : Options) (calls : list (Z * option Z))
    (requestRecords : gmap string (list RequestRecord))
  : list (Outcome Rejection bool) * gmap string (list RequestRecord) :=
  match calls with
  | [] => ([], requestRecords)
  | (now, sweep) :: rest =>
      let (outcome, requestRecords) :=
        handleRateLimit ip options now sweep requestRecords in
      let (outcomes, requestRecords) := serve ip options rest requestRecords in
      (outcome :: outcomes, requestRecords)
  end.

(** The clock does not run backwards between a call at [t], the sweep it
    may trigger, and the next call at [t']. *)
Definition inOrder (t : Z) (sweep : option Z) (t' : Z) : Prop :=
  match sweep with
  | Some u => t <= u <= t'
  | None => t <= t'
  end.

End RateLimitGuard.

(** ** TaskProcessorService *)

Module TaskProcessorService.
Import Js.

(** A plain object: its own properties. *)
Definition Object_ := list (string * Val).

(** [o.name]; a missing property reads as [undefined]. *)
Definition prop (name : string) (o : Object_) : Val :=
  match getOwn name o with Some v => v | None => VUndefined end.

(** [o?.name] for an [o] that may be [null] or [undefined] ([None]). *)
Definition optProp (name : string) (o : option Object_) : Val :=
  match o with Some o => prop name o | None => VUndefined end.

(** The fields of a BullMQ job that the processor reads. *)
Record Job : Type := {
  id : Val;
  name : string;
  data : option Object_;
  attemptsMade : Z
}.

(** The job as the queue delivers it again, after [n] attempts. *)
Definition redeliver (job : Job) (n : Z) : Job :=
  {| id := id job; name := name job; data := data job; attemptsMade := n |}.

(** The fields of a [Task] that the processor reads. *)
Record Task : Type := { taskId_ : Val; taskStatus : Val }.

Section Processor.
(** [Object.values(TaskStatus)] and [TaskStatus.IN_PROGRESS]: the enum
    is declared outside the files at hand. *)
Variable TaskStatusValues : list Val.
Variable IN_PROGRESS : Val.

(** How [await this.tasksService.updateStatus(taskId, status)] settles:
    it writes to the database, and rejects when the task does not
    exist or the write fails. *)
Variable updateStatus : Val -> Val -> Outcome Exn Task.

Definition handleStatusUpdate (job : Job) : Outcome Exn Object_ :=
  match data job with
  | None => Thrown TypeError
  | Some d =>
      let taskId := prop "taskId" d in
      let status := prop "status" d in
      if negb (truthy taskId) || negb (truthy status)
      then Returned [("success", VBool false);
                     ("error", VStr "Missing required data")]
      else if negb (includes TaskStatusValues status)
      then Returned [("success", VBool false);
                     ("error", VStr "Invalid status value")]
      else
        match updateStatus taskId status with
        | Returned task =>
            Returned [("success", VBool true);
                      ("taskId", taskId_ task);
                      ("newStatus", taskStatus task)]
        | Thrown error => Thrown error
        end
  end.

Definition handleOverdueTasks (job : Job) : Outcome Exn Object_ :=
  match data job with
  | None => Thrown TypeError
  | Some d =>
      let taskId := prop "taskId" d in
      let dueDate := prop "dueDate" d in
      let userId := prop "userId" d in
      if negb (truthy taskId) || negb (truthy userId)
      then Returned [("success", VBool false);
                     ("error", VStr "Missing required data for overdue task")]
      else
        match updateStatus taskId IN_PROGRESS with
        | Returned task =>
            Returned [("success", VBool true);
                      ("message", VStr "Overdue task processed");
                      ("taskId", taskId);
                      ("newStatus", taskStatus task);
                      ("overdueDate", dueDate)]
        | Thrown error => Thrown error
        end
  end.

(** The [switch] of [process]. *)
Definition dispatch (job : Job) : Outcome Exn Object_ :=
  if String.eqb (name job) "task-status-update" then handleStatusUpdate job
  else if String.eqb (name job) "overdue-tasks-notification" then handleOverdueTasks job
  else Returned [("success", VBool false);
                 ("error", VStr "Unknown job type")].

Definition process (job : Job) : Outcome Exn Object_ :=
  match dispatch job with
  | Returned result => Returned result
  | Thrown error =>
      if attemptsMade job <? 3
      then Thrown error
      else Returned [("success", VBool false);
                     ("error", VStr "Job failed after maximum retries");
                     ("taskId", optProp "taskId" (data job))]
  end.
End Processor.

End TaskProcessorService.

(** ** Sample runs *)

Module Samples.
Import Js CacheService.

Definition digitChar (n : nat) : ascii := ascii_of_nat (48 + n).

Definition decimal3 (n : nat) : string :=
  String (digitChar (n / 100))
    (String (digitChar ((n / 10) mod 10)) (String (digitChar (n mod 10)) "")).

(** A key of the shape [findAll] builds, for page [n]. *)
Definition pageKey (n : nat) : string :=
  ("tasks:" ++ decimal3 n ++ ":10:all:all")%string.

(** [findAll] caching [n] pages, one per millisecond from time 0. *)
Definition cachePages (n : nat) : list Op :=
  map (fun i => OpSet 1 (VStr (pageKey i)) (VNum (Z.of_nat i)) 180 (Z.of_nat i))
    (seq 1 n).

(** [getTaskStatistics] caching its result at time 0. *)
Definition cacheStatistics : list Op :=
  [OpSet 1 (VStr "stats:task-statistics") (VNum 7) 300 0].

(** An object that is its own property. *)
Definition cyclicHeap : Heap := [ORec [("self", VRef 0%nat)]].


(** [{ hasOwnProperty: 1, total: 3 }], as [JSON.parse] makes it. *)
Definition shadowingHeap : Heap :=
  [ORec [("hasOwnProperty", VNum 1); ("total", VNum 3)]].

(** [{ total: 3, tags: ["a"] }] *)
Definition nestedHeap : Heap :=
  [OArr [VStr "a"]; ORec [("total", VNum 3); ("tags", VRef 0%nat)]].

(** Status names as the end-to-end test and the README spell them. *)
Definition statusNames : list Val :=
  [VStr "PENDING"; VStr "IN_PROGRESS"; VStr "COMPLETED"].

(** A task store without the task. *)
Definition taskNotFound (taskId status : Val)
  : Outcome Exn TaskProcessorService.Task :=
  Thrown (NotFoundException "Task not found").

(** A task store that performs the write. *)
Definition taskUpdated (taskId status : Val)
  : Outcome Exn TaskProcessorService.Task :=
  Returned {| TaskProcessorService.taskId_ := taskId;
              TaskProcessorService.taskStatus := status |}.

Definition statusUpdateJob (payload : TaskProcessorService.Object_) (attempts : Z)
  : TaskProcessorService.Job :=
  {| TaskProcessorService.id := VStr "41";
     TaskProcessorService.name := "task-status-update";
     TaskProcessorService.data := Some payload;
     TaskProcessorService.attemptsMade := attempts |}.

End Samples.

(** ** TasksService: reads through the cache, writes that invalidate it

    The methods of the service that holds [cacheService].  What the
    repository and the queue answer is an input of each method: the
    database and the queue are other programs. *)

Module Tasks.
Import Js.
Local Open Scope js_scope.

(** A job as handed to [taskQueue.add(name, data)]. *)
Record QueuedJob : Type := {
  jobName : string;
  jobData : TaskProcessorService.Object_
}.

(** What the service works on: the cache (with the heap), the jobs the
    queue has accepted so far, and the number of calls of
    [taskQueue.add] made so far. *)
Record World : Type := {
  cacheState : CacheService.State;
  queued : list QueuedJob;
  addCalls : nat
}.

(** A call of a method of [cacheService]. *)
Definition liftCache {A : Type} (m : M CacheService.State Exn A) : M World Exn A :=
  fun w =>
    let (r, st) := m (cacheState w) in
    (r, {| cacheState := st; queued := queued w; addCalls := addCalls w |}).

(** An awaited promise of the repository. *)
Definition await {A : Type} (settled : Outcome Exn A) : M World Exn A :=
  match settled with
  | Returned a => ret a
  | Thrown e => throw e
  end.

(** [`${n}`] for an integer [n] of fewer than 22 digits, the page
    numbers and sizes of the requests (JavaScript prints larger numbers
    with an exponent). *)
Definition numberToString (n : Z) : string :=
  DecimalString.NilZero.string_of_int (Z.to_int n).

(** [s || 'all'] for a filter that is a string or [undefined] *)
Definition orAll (s : option string) : string :=
  match s with
  | Some s => if String.eqb s "" then "all" else s
  | None => "all"
  end.

(** The key under which [findAll] caches a page. *)
Definition cacheKey (page limit : Z) (status priority : option string) : string :=
  ("tasks:" ++ numberToString page ++ ":" ++ numberToString limit ++ ":"
   ++ orAll status ++ ":" ++ orAll priority)%string.

(** [if (status) whereClause.status = status] *)
Definition whereField (s : option string) : option string :=
  match s with
  | Some s => if String.eqb s "" then None else Some s
  | None => None
  end.

(** The arguments of [tasksRepository.findAndCount]. *)
Record Query : Type := {
  whereStatus : option string;
  wherePriority : option string;
  skip : Z;
  take : Z
}.

(** [operations.tasks] as the request body has it.  The controller
    hands the parsed body on as it came, so this is an array ([IdArray]),
    a string ([IdString]), or something that cannot be iterated
    ([NotIterable]: a missing property, [null], a number, a boolean or a
    plain object). *)
Inductive TaskIds : Type :=
| IdArray (ids : list Val)
| IdString (s : string)
| NotIterable.

(** What [for (const taskId of taskIds)] goes through: the elements of
    an array, the characters of a string. *)
Definition elements (taskIds : TaskIds) : option (list Val) :=
  match taskIds with
  | IdArray ids => Some ids
  | IdString s => Some (map (fun c => VStr (String c "")) (list_ascii_of_string s))
  | NotIterable => None
  end.

(** [taskIds.map(f)]: only an array has a [map]. *)
Definition mapIds {A : Type} (f : Val -> A) (taskIds : TaskIds)
  : M World Exn (list A) :=
  match taskIds with
  | IdArray ids => ret (map f ids)
  | _ => throw TypeError
  end.

Section Service.
(** How the [n]-th call of [taskQueue.add] settles: [None] when the
    queue accepts the job, [Some e] when it rejects with [e]. *)
Variable addFails : nat -> option Exn.

(** [TaskStatus.COMPLETED] *)
Variable COMPLETED : Val.

(** [error instanceof Error ? error.message : 'Unknown error'] *)
Variable errorMessage : Exn -> string.

(** [`${v}`] for a value [v] that is not a string: its text, or what
    the conversion throws. *)
Variable text : Val -> Outcome Exn string.

(** [await this.taskQueue.add(name, data)] *)
Definition add (name : string) (data : TaskProcessorService.Object_)
  : M World Exn unit :=
  fun w =>
    match addFails (addCalls w) with
    | Some e =>
        (Thrown e,
         {| cacheState := cacheState w; queued := queued w;
            addCalls := S (addCalls w) |})
    | None =>
        (Returned tt,
         {| cacheState := cacheState w;
            queued := queued w ++ [{| jobName := name; jobData := data |}];
            addCalls := S (addCalls w) |})
    end.

(** [try { await this.taskQueue.add(...) } catch (error) { console.error(...) }] *)
Definition tryAdd (name : string) (data : TaskProcessorService.Object_)
  : M World Exn unit :=
  tryCatch (add name data) (fun _ => ret tt).

(** [saved] is how [tasksRepository.save(task)] settles. *)
Definition create (saved : Outcome Exn TaskProcessorService.Task)
  : M World Exn TaskProcessorService.Task :=
  savedTask <- await saved ;;
  tryAdd "task-status-update"
    [("taskId", TaskProcessorService.taskId_ savedTask);
     ("status", TaskProcessorService.taskStatus savedTask)] ;;;
  ret savedTask.

(** [found] is how [tasksRepository.findOne(...)] settles; [None] is
    [null]. *)
Definition findOne (found : Outcome Exn (option TaskProcessorService.Task))
  : M World Exn TaskProcessorService.Task :=
  task <- await found ;;
  match task with
  | None => throw (NotFoundException "Task not found.")
  | Some task => ret task
  end.

(** [findAndCount q h] is how the query settles in a program whose heap
    is [h]: with the array of rows, the total, and the heap with the row
    objects in it.  [now1] and [now2] are the [Date.now()] of the
    [get] and of the [set]. *)
Definition findAll (depth : nat) (now1 now2 : Z)
    (findAndCount : Query -> Heap -> Outcome Exn (Val * Z * Heap))
    (page limit : Z) (status priority : option string)
  : M World Exn Val :=
  let cacheKey := cacheKey page limit status priority in
  cached <- liftCache (CacheService.get depth (VStr cacheKey) now1) ;;
  if truthy cached then ret cached
  else
    let skip := (page - 1) * limit in
    let query := {| whereStatus := whereField status;
                    wherePriority := whereField priority;
                    skip := skip; take := limit |} in
    h <- gets (fun w => CacheService.heap (cacheState w)) ;;
    found <- await (findAndCount query h) ;;
    let '(tasks, total, h') := found in
    let (result, h'') :=
      alloc h' (ORec [("data", tasks); ("total", VNum total);
                      ("page", VNum page); ("limit", VNum limit)]) in
    liftCache (modify (CacheService.setHeap h'')) ;;;
    liftCache (CacheService.set depth (VStr cacheKey) result 180 now2) ;;;
    ret result.

(** [affected] is how [tasksRepository.update(id, dto)] settles, with
    its [affected] count; [dtoStatus] is [updateTaskDto.status]. *)
Definition update (affected : Outcome Exn Z)
    (found : Outcome Exn (option TaskProcessorService.Task)) (dtoStatus : Val)
  : M World Exn TaskProcessorService.Task :=
  n <- await affected ;;
  if n =? 0 then throw (NotFoundException "Task not found")
  else
    liftCache TasksService.invalidateTaskCache ;;;
    updatedTask <- findOne found ;;
    (if truthy dtoStatus
        && negb (val_eqb dtoStatus (TaskProcessorService.taskStatus updatedTask))
     then tryAdd "task-status-update"
            [("taskId", TaskProcessorService.taskId_ updatedTask);
             ("status", TaskProcessorService.taskStatus updatedTask)]
     else ret tt) ;;;
    ret updatedTask.

Definition remove (affected : Outcome Exn Z) : M World Exn unit :=
  n <- await affected ;;
  if n =? 0 then throw (NotFoundException "Task not found")
  else liftCache TasksService.invalidateTaskCache.

(** [counts] is how the [Promise.all] of the five [count] queries
    settles; [now1] and [now2] are the [Date.now()] of the [get] and of
    the [set]. *)
Definition getTaskStatistics (depth : nat) (now1 now2 : Z)
    (counts : Outcome Exn (Z * Z * Z * Z * Z))
  : M World Exn Val :=
  let cacheKey := "stats:task-statistics" in
  cached <- liftCache (CacheService.get depth (VStr cacheKey) now1) ;;
  if truthy cached then ret cached
  else
    found <- await counts ;;
    let '(total, completed, inProgress, pending, highPriority) := found in
    h <- gets (fun w => CacheService.heap (cacheState w)) ;;
    let (statistics, h') :=
      alloc h (ORec [("total", VNum total); ("completed", VNum completed);
                     ("inProgress", VNum inProgress); ("pending", VNum pending);
                     ("highPriority", VNum highPriority)]) in
    liftCache (modify (CacheService.setHeap h')) ;;;
    liftCache (CacheService.set depth (VStr cacheKey) statistics 300 now2) ;;;
    ret statistics.

Definition succeeded (operationResult taskId : Val) : TaskProcessorService.Object_ :=
  [("taskId", taskId); ("success", VBool true); ("result", operationResult)].

Definition failed (error : Exn) (taskId : Val) : TaskProcessorService.Object_ :=
  [("taskId", taskId); ("success", VBool false);
   ("error", VStr (errorMessage error))].

(** What the [else] branch throws:
    [new Error(`Unknown action: ${action}`)], or what the template
    throws. *)
Definition unknownAction (action : Val) : Exn :=
  match match action with VStr s => Returned s | _ => text action end with
  | Returned s => JsError ("Unknown action: " ++ s)%string
  | Thrown e => e
  end.

(** [taskIds] and [action] are the two properties read off the request
    body; [bulk] is how the one [update] or [delete] over [In(taskIds)]
    settles. *)
Definition batchProcessTasks (taskIds : TaskIds) (action : Val)
    (bulk : Outcome Exn Val)
  : M World Exn (list TaskProcessorService.Object_) :=
  tryCatch
    (operationResult <-
       (if val_eqb action (VStr "complete") then await bulk
        else if val_eqb action (VStr "delete") then await bulk
        else throw (unknownAction action)) ;;
     (if val_eqb action (VStr "complete")
      then match elements taskIds with
           | Some ids =>
               forEach ids
                 (fun taskId =>
                    tryAdd "task-status-update"
                      [("taskId", taskId); ("status", COMPLETED)])
           | None => throw TypeError
           end
      else ret tt) ;;;
     liftCache TasksService.invalidateTaskCache ;;;
     mapIds (succeeded operationResult) taskIds)
    (fun error => mapIds (failed error) taskIds).

Definition updateStatus (affected : Outcome Exn Z)
    (found : Outcome Exn (option TaskProcessorService.Task))
  : M World Exn TaskProcessorService.Task :=
  n <- await affected ;;
  if n =? 0 then throw (NotFoundException "Task not found")
  else
    liftCache TasksService.invalidateTaskCache ;;;
    findOne found.
End Service.

End Tasks.

(** ** OverdueTasksService *)

Module OverdueTasksService.
Import Js.
Local Open Scope js_scope.

(** The fields of a [Task] that the check reads. *)
Record OverdueTask : Type := { id : Val; dueDate : Val; userId : Val }.

Definition notification (task : OverdueTask) : TaskProcessorService.Object_ :=
  [("taskId", id task); ("dueDate", dueDate task); ("userId", userId task)].

(** The hourly check.  [found] is how the query for the pending tasks
    past their due date settles. *)
Definition checkOverdueTasks (addFails : nat -> option Exn)
    (found : Outcome Exn (list OverdueTask)) : M Tasks.World Exn unit :=
  tryCatch
    (overdueTasks <- Tasks.await found ;;
     forEach overdueTasks
       (fun task =>
          tryCatch
            (Tasks.add addFails "overdue-tasks-notification" (notification task))
            (fun _ => ret tt)))
    (fun _ => ret tt).

(** The tasks whose job the queue accepts, when the first of them is
    added by call number [n] of [taskQueue.add]. *)
Fixpoint accepted (addFails : nat -> option Exn) (n : nat)
    (tasks : list OverdueTask) : list OverdueTask :=
  match tasks with
  | [] => []
  | task :: rest =>
      match addFails n with
      | None => task :: accepted addFails (S n) rest
      | Some _ => accepted addFails (S n) rest
      end
  end.

(** A value of a job's data as the worker reads it.  BullMQ keeps the
    data as JSON text: a string, a number, a boolean and [null] come
    back as they were, a property that is [undefined] is left out
    ([None]), and an object comes back as another value: a [Date] as
    the string that [toISOString()] gives, an array or a plain object
    as a copy in the worker's heap.  [revived a] is that value for the
    object at [a], [None] when its property is left out. *)
Definition received (revived : nat -> option Val) (v : Val) : option Val :=
  match v with
  | VUndefined => None
  | VRef a => revived a
  | _ => Some v
  end.

Fixpoint throughJSON (revived : nat -> option Val)
    (data : TaskProcessorService.Object_) : TaskProcessorService.Object_ :=
  match data with
  | [] => []
  | (name, v) :: rest =>
      match received revived v with
      | Some v' => (name, v') :: throughJSON revived rest
      | None => throughJSON revived rest
      end
  end.

(** The job the processor receives for a queued job, on the delivery
    after [attempts] failed ones. *)
Definition deliver (revived : nat -> option Val) (jobId : Val) (attempts : Z)
    (job : Tasks.QueuedJob) : TaskProcessorService.Job :=
  {| TaskProcessorService.id := jobId;
     TaskProcessorService.name := Tasks.jobName job;
     TaskProcessorService.data := Some (throughJSON revived (Tasks.jobData job));
     TaskProcessorService.attemptsMade := attempts |}.

End OverdueTasksService.

(** ** Content of what the service caches, and sample worlds *)

Module TasksViews.
Import Js.

(** The content of the object [getTaskStatistics] builds from the five
    counts. *)
Definition statisticsTree (counts : Z * Z * Z * Z * Z) : Tree :=
  let '(total, completed, inProgress, pending, highPriority) := counts in
  TRec [("total", TNum total); ("completed", TNum completed);
        ("inProgress", TNum inProgress); ("pending", TNum pending);
        ("highPriority", TNum highPriority)].

(** The content of the object [findAll] builds from the rows (content
    [rows]) and the total. *)
Definition pageTree (rows : Tree) (total page limit : Z) : Tree :=
  TRec [("data", rows); ("total", TNum total);
        ("page", TNum page); ("limit", TNum limit)].

(** The job [create] and [update] hand to the queue for a task. *)
Definition statusUpdate (task : TaskProcessorService.Task) : Tasks.QueuedJob :=
  {| Tasks.jobName := "task-status-update";
     Tasks.jobData := [("taskId", TaskProcessorService.taskId_ task);
                       ("status", TaskProcessorService.taskStatus task)] |}.

(** The job [checkOverdueTasks] hands to the queue for a task. *)
Definition overdueNotification (task : OverdueTasksService.OverdueTask)
  : Tasks.QueuedJob :=
  {| Tasks.jobName := "overdue-tasks-notification";
     Tasks.jobData := OverdueTasksService.notification task |}.

(** A service just started: empty cache, nothing queued. *)
Definition fresh : Tasks.World :=
  {| Tasks.cacheState := CacheService.init [];
     Tasks.queued := [];
     Tasks.addCalls := 0 |}.

(** A service whose cache holds the statistics and a page. *)
Definition warm : Tasks.World :=
  {| Tasks.cacheState :=
       CacheService.run
         (Samples.cacheStatistics ++
          [CacheService.OpSet 1 (VStr (Tasks.cacheKey 1 10 None None)) (VNum 5) 180 0])
         (CacheService.init []);
     Tasks.queued := [];
     Tasks.addCalls := 0 |}.

(** A database with two rows for every query. *)
Definition twoRows (q : Tasks.Query) (h : Heap) : Outcome Exn (Val * Z * Heap) :=
  Returned (VRef (List.length h), 2, h ++ [OArr [VStr "7f3e"; VStr "90ab"]]).

(** A database that is down. *)
Definition databaseDown (q : Tasks.Query) (h : Heap)
  : Outcome Exn (Val * Z * Heap) :=
  Thrown (ExternalFailure 111).

(** A queue that is down. *)
Definition queueDown (n : nat) : option Exn := Some (ExternalFailure 111).

(** A queue that takes every job. *)
Definition queueUp (n : nat) : option Exn := None.

Definition sampleTask : TaskProcessorService.Task :=
  {| TaskProcessorService.taskId_ := VStr "7f3e";
     TaskProcessorService.taskStatus := VStr "COMPLETED" |}.

(** An overdue task; its [dueDate] is the [Date] at address 0 of the
    producer's heap. *)
Definition sampleOverdue : OverdueTasksService.OverdueTask :=
  {| OverdueTasksService.id := VStr "7f3e";
     OverdueTasksService.dueDate := VRef 0;
     OverdueTasksService.userId := VStr "u-19" |}.

(** What the worker reads in the place of that [Date]. *)
Definition sampleDates (a : nat) : option Val :=
  match a with
  | O => Some (VStr "2025-01-31T00:00:00.000Z")
  | S _ => None
  end.

(** [`${v}`] for a primitive or a plain object. *)
Definition textOf (v : Val) : Outcome Exn string :=
  match v with
  | VUndefined => Returned "undefined"
  | VNull => Returned "null"
  | VBool b => Returned (if b then "true" else "false")
  | VNum n => Returned (Tasks.numberToString n)
  | VStr s => Returned s
  | VRef _ => Returned "[object Object]"
  end.

(** The [message] of the errors of the model that carry one. *)
Definition messageOf (e : Exn) : string :=
  match e with
  | JsError m => m
  | NotFoundException m => m
  | _ => "Unknown error"
  end.

End TasksViews.

(** ** Runs of the rate limiter *)

Module RateLimitRuns.
Import Js RateLimitGuard.

(** The times of the requests that [serve] lets through. *)
Fixpoint admittedTimes (ip : string) (options : Options)
    (calls : list (Z * option Z))
    (requestRecords : gmap string (list RequestRecord)) : list Z :=
  match calls with
  | [] => []
  | (now, sweep) :: rest =>
      let (outcome, requestRecords) :=
        handleRateLimit ip options now sweep requestRecords in
      match outcome with
      | Returned _ => now :: admittedTimes ip options rest requestRecords
      | Thrown _ => admittedTimes ip options rest requestRecords
      end
  end.

(** The clock readings of a run, the sweeps' included, do not go down
    from [t0] on. *)
Fixpoint clockOrder (t0 : Z) (calls : list (Z * option Z)) : Prop :=
  match calls with
  | [] => True
  | (now, sweep) :: rest =>
      t0 <= now /\
      match sweep with
      | Some u => now <= u /\ clockOrder u rest
      | None => clockOrder now rest
      end
  end.

(** How many of the times [ts] lie in the window of length [windowMs]
    that ends at [t]. *)
Definition inWindow (windowMs t : Z) (ts : list Z) : Z :=
  Z.of_nat (List.length
              (List.filter (fun x => (t - windowMs <? x) && (x <=? t)) ts)).

End RateLimitRuns.

(** * Properties *)

(** ** Dictionaries *)

Section DictFacts.
Import Js.
Context {T : Type}.
Implicit Types (o : Dict T) (k : string) (x : T).

Lemma getOwn_In k o x : getOwn k o = Some x -> In (k, x) o.
Proof.
  induction o as [|[k' y] o IH]; simpl; [discriminate|].
  destruct (String.eqb_spec k' k) as [->|Hne].
  - intros [= ->]. now left.
  - intros H. right. auto.
Qed.

Lemma getOwn_None k o : getOwn k o = None <-> ~ In k (ownKeys o).
Proof.
  induction o as [|[k' y] o IH]; simpl.
  - tauto.
  - destruct (String.eqb_spec k' k) as [->|Hne].
    + split; [discriminate|]. intros H. exfalso. apply H. now left.
    + rewrite IH. split; [intros H [?|?]; [congruence|tauto] | tauto].
Qed.

Lemma hasOwn_In k o : hasOwn k o = true <-> In k (ownKeys o).
Proof.
  unfold hasOwn. destruct (getOwn k o) eqn:E.
  - split; [intros _|reflexivity].
    apply getOwn_In in E. apply (in_map fst) in E. exact E.
  - apply getOwn_None in E. split; [discriminate|tauto].
Qed.

Lemma In_getOwn k x o :
  List.NoDup (ownKeys o) -> In (k, x) o -> getOwn k o = Some x.
Proof.
  induction o as [|[k' y] o IH]; simpl; [tauto|].
  intros Hnd [Heq|Hin].
  - injection Heq as -> ->. now rewrite String.eqb_refl.
  - inversion Hnd as [|? ? Hnot Hnd']; subst.
    destruct (String.eqb_spec k' k) as [->|Hne].
    + exfalso. apply Hnot. apply (in_map fst) in Hin. exact Hin.
    + auto.
Qed.

Lemma getOwn_deleteOwn_eq k o : getOwn k (deleteOwn k o) = None.
Proof.
  induction o as [|[k' y] o IH]; simpl; [reflexivity|].
  destruct (String.eqb_spec k' k) as [->|Hne]; simpl; [exact IH|].
  destruct (String.eqb_spec k' k); [contradiction|exact IH].
Qed.

Lemma getOwn_deleteOwn_ne k k' o :
  k' <> k -> getOwn k' (deleteOwn k o) = getOwn k' o.
Proof.
  intros Hne. induction o as [|[k2 y] o IH]; simpl; [reflexivity|].
  destruct (String.eqb_spec k2 k) as [->|Hne2]; simpl.
  - destruct (String.eqb_spec k k'); [congruence|exact IH].
  - now rewrite IH.
Qed.

Lemma ownKeys_deleteOwn k o :
  ownKeys (deleteOwn k o) = List.filter (fun k' => negb (String.eqb k' k)) (ownKeys o).
Proof.
  induction o as [|[k' y] o IH]; simpl; [reflexivity|].
  destruct (String.eqb k' k); simpl; now rewrite <- IH.
Qed.

Lemma length_filter_le {A} (f : A -> bool) (l : list A) :
  (List.length (List.filter f l) <= List.length l)%nat.
Proof. induction l as [|a l IH]; simpl; [lia|]. destruct (f a); simpl; lia. Qed.

Lemma NoDup_list_filter {A} (f : A -> bool) (l : list A) :
  List.NoDup l -> List.NoDup (List.filter f l).
Proof.
  induction 1 as [|a l Hnot Hnd IH]; simpl; [constructor|].
  destruct (f a); [|exact IH]. constructor; [|exact IH].
  intros Hin. apply filter_In in Hin. tauto.
Qed.

Lemma NoDup_ownKeys_filter (f : string * T -> bool) o :
  List.NoDup (ownKeys o) -> List.NoDup (ownKeys (List.filter f o)).
Proof.
  induction o as [|[k y] o IH]; simpl; [constructor|].
  intros Hnd. inversion Hnd as [|? ? Hnot Hnd']; subst.
  destruct (f (k, y)); simpl; [|auto].
  constructor; [|auto].
  intros Hin. apply Hnot. unfold ownKeys in *.
  apply in_map_iff in Hin as [[k' y'] [Hk Hin]]. simpl in Hk. subst k'.
  apply filter_In in Hin as [Hin _]. apply (in_map fst) in Hin. exact Hin.
Qed.

Lemma deleteOwn_absent k o : ~ In k (ownKeys o) -> deleteOwn k o = o.
Proof.
  induction o as [|[k' y] o IH]; simpl; [reflexivity|].
  intros H. destruct (String.eqb_spec k' k) as [->|Hne]; simpl.
  - exfalso. apply H. now left.
  - f_equal. apply IH. tauto.
Qed.

(** Deleting a property that is there removes exactly one. *)
Lemma length_deleteOwn k o :
  List.NoDup (ownKeys o) -> In k (ownKeys o) ->
  S (List.length (deleteOwn k o)) = List.length o.
Proof.
  induction o as [|[k' y] o IH]; simpl; [tauto|].
  intros Hnd Hin. inversion Hnd as [|? ? Hnot Hnd']; subst.
  destruct (String.eqb_spec k' k) as [->|Hne]; simpl.
  - fold (deleteOwn k o). now rewrite deleteOwn_absent.
  - fold (deleteOwn k o). f_equal. apply IH; [exact Hnd'|].
    destruct Hin; [congruence|assumption].
Qed.

Lemma ownKeys_replaceOwn k x o : ownKeys (replaceOwn k x o) = ownKeys o.
Proof.
  induction o as [|[k' y] o IH]; simpl; [reflexivity|].
  destruct (String.eqb_spec k' k) as [->|Hne]; simpl; [reflexivity|].
  now rewrite IH.
Qed.

Lemma getOwn_replaceOwn_eq k x o :
  hasOwn k o = true -> getOwn k (replaceOwn k x o) = Some x.
Proof.
  unfold hasOwn. induction o as [|[k' y] o IH]; simpl; [discriminate|].
  destruct (String.eqb_spec k' k) as [->|Hne]; simpl.
  - now rewrite String.eqb_refl.
  - destruct (String.eqb_spec k' k); [contradiction|exact IH].
Qed.

Lemma getOwn_replaceOwn_ne k k' x o :
  k' <> k -> getOwn k' (replaceOwn k x o) = getOwn k' o.
Proof.
  intros Hne. induction o as [|[k2 y] o IH]; simpl; [reflexivity|].
  destruct (String.eqb_spec k2 k) as [->|Hne2]; simpl.
  - destruct (String.eqb_spec k k'); [congruence|reflexivity].
  - now rewrite IH.
Qed.

Lemma In_ownKeys_createOwn k k' x o :
  In k' (ownKeys (createOwn k x o)) <-> k' = k \/ In k' (ownKeys o).
Proof.
  induction o as [|[k2 y] o IH]; simpl.
  - intuition congruence.
  - destruct (keyBefore k k2); simpl.
    + intuition congruence.
    + rewrite IH. intuition congruence.
Qed.

Lemma length_createOwn k x o :
  List.length (createOwn k x o) = S (List.length o).
Proof.
  induction o as [|[k2 y] o IH]; simpl; [reflexivity|].
  destruct (keyBefore k k2); simpl; [reflexivity|now rewrite IH].
Qed.

Lemma getOwn_createOwn_eq k x o :
  hasOwn k o = false -> getOwn k (createOwn k x o) = Some x.
Proof.
  unfold hasOwn. induction o as [|[k' y] o IH]; simpl.
  - now rewrite String.eqb_refl.
  - destruct (String.eqb_spec k' k) as [->|Hne]; [discriminate|].
    intros H. destruct (keyBefore k k'); simpl.
    + now rewrite String.eqb_refl.
    + destruct (String.eqb_spec k' k); [contradiction|auto].
Qed.

Lemma getOwn_createOwn_ne k k' x o :
  k' <> k -> getOwn k' (createOwn k x o) = getOwn k' o.
Proof.
  intros Hne. induction o as [|[k2 y] o IH]; simpl.
  - destruct (String.eqb_spec k k'); [congruence|reflexivity].
  - destruct (keyBefore k k2); simpl.
    + destruct (String.eqb_spec k k'); [congruence|reflexivity].
    + now rewrite IH.
Qed.

Lemma NoDup_createOwn k x o :
  List.NoDup (ownKeys o) -> ~ In k (ownKeys o) -> List.NoDup (ownKeys (createOwn k x o)).
Proof.
  induction o as [|[k2 y] o IH]; simpl; intros Hnd Hnot.
  - constructor; [tauto|constructor].
  - destruct (keyBefore k k2); simpl.
    + constructor; assumption.
    + inversion Hnd as [|? ? Hnot2 Hnd']; subst.
      constructor.
      * rewrite In_ownKeys_createOwn. intuition congruence.
      * apply IH; tauto.
Qed.

Lemma getOwn_assign_eq k x o : getOwn k (assign k x o) = Some x.
Proof.
  unfold assign. destruct (hasOwn k o) eqn:E.
  - now apply getOwn_replaceOwn_eq.
  - now apply getOwn_createOwn_eq.
Qed.

Lemma getOwn_assign_ne k k' x o :
  k' <> k -> getOwn k' (assign k x o) = getOwn k' o.
Proof.
  intros Hne. unfold assign. destruct (hasOwn k o).
  - now apply getOwn_replaceOwn_ne.
  - now apply getOwn_createOwn_ne.
Qed.

Lemma length_assign k x o :
  (List.length (assign k x o) <= S (List.length o))%nat.
Proof.
  unfold assign. destruct (hasOwn k o).
  - assert (H := f_equal (@List.length _) (ownKeys_replaceOwn k x o)).
    unfold ownKeys in H. rewrite !length_map in H. lia.
  - rewrite length_createOwn. lia.
Qed.

Lemma NoDup_assign k x o :
  List.NoDup (ownKeys o) -> List.NoDup (ownKeys (assign k x o)).
Proof.
  intros Hnd. unfold assign. destruct (hasOwn k o) eqn:E.
  - now rewrite ownKeys_replaceOwn.
  - apply NoDup_createOwn; [exact Hnd|].
    rewrite <- hasOwn_In. congruence.
Qed.
End DictFacts.

(** ** deepClone *)

Section CloneFacts.
Import Js.

Lemma nth_error_snoc {A} (l : list A) (x : A) :
  nth_error (l ++ [x]) (List.length l) = Some x.
Proof. rewrite nth_error_app2 by lia. now rewrite Nat.sub_diag. Qed.

Lemma agree_refl lo hi h : agree lo hi h h.
Proof. intros a _. reflexivity. Qed.

Lemma agree_narrow lo hi lo' hi' h g :
  (lo <= lo')%nat -> (hi' <= hi)%nat -> agree lo hi h g -> agree lo' hi' h g.
Proof. intros Hlo Hhi H a Ha. apply H. lia. Qed.

(** Agreement with a heap below its end carries over to a prefix. *)
Lemma agree_prefix lo h ext g :
  agree lo (List.length (h ++ ext)) (h ++ ext) g ->
  agree lo (List.length h) h g.
Proof.
  intros H a Ha. rewrite H.
  - apply nth_error_app1. lia.
  - rewrite length_app. lia.
Qed.

Section Each.
Context {A B : Type}.
Variables (field : A -> Val) (mk : A -> Tree -> B).

Lemma reifyEach_impl (read read' : Val -> option Tree) (xs : list A) ts :
  (forall v t, read v = Some t -> read' v = Some t) ->
  reifyEach read field mk xs = Some ts ->
  reifyEach read' field mk xs = Some ts.
Proof.
  intros Himp. revert ts. induction xs as [|x xs IH]; simpl; intros ts H.
  - exact H.
  - destruct (read (field x)) as [t|] eqn:Ex; [|discriminate].
    destruct (reifyEach read field mk xs) as [ts'|] eqn:Exs; [|discriminate].
    rewrite (Himp _ _ Ex), (IH _ eq_refl). exact H.
Qed.
End Each.

(** A value keeps its content when the heap grows. *)
Lemma reify_app d : forall h ext v t,
  reify d h v = Some t -> reify d (h ++ ext) v = Some t.
Proof.
  induction d as [|d IH]; intros h ext v t H; [discriminate|].
  destruct v as [| | b | n | s | a]; simpl in *; try exact H.
  destruct (nth_error h a) as [o|] eqn:Ea; [|discriminate].
  assert (Ea' : nth_error (h ++ ext) a = Some o).
  { rewrite nth_error_app1; [exact Ea|]. apply nth_error_Some. congruence. }
  rewrite Ea'. destruct o as [time|items|props]; [exact H| |].
  - destruct (reifyEach (reify d h) (fun v => v) (fun _ t => t) items) as [ts|] eqn:E;
      [|discriminate].
    now rewrite (reifyEach_impl _ _ _ _ _ _ (fun v t => IH h ext v t) E).
  - destruct (dataNames (ownKeys props)); [|discriminate].
    destruct (reifyEach (reify d h) snd mkProp props) as [ts|] eqn:E; [|discriminate].
    now rewrite (reifyEach_impl _ _ _ _ _ _ (fun v t => IH h ext v t) E).
Qed.

(** More call frames do not change the content that is read. *)
Lemma reify_S d : forall h v t,
  reify d h v = Some t -> reify (S d) h v = Some t.
Proof.
  induction d as [|d IH]; intros h v t H; [discriminate|].
  destruct v as [| | b | n | s | a]; try exact H.
  change (reify (S (S d)) h (VRef a)) with
    (match nth_error h a with
     | Some (ODate t) => Some (TDate t)
     | Some (OArr items) =>
         option_map TArr (reifyEach (reify (S d) h) (fun v => v) (fun _ t => t) items)
     | Some (ORec props) =>
         if dataNames (ownKeys props)
         then option_map TRec (reifyEach (reify (S d) h) snd mkProp props)
         else None
     | None => None
     end).
  simpl in H.
  destruct (nth_error h a) as [[time|items|props]|]; try exact H.
  - destruct (reifyEach (reify d h) (fun v => v) (fun _ t => t) items) as [ts|] eqn:E;
      [|discriminate].
    now rewrite (reifyEach_impl _ _ _ _ _ _ (IH h) E).
  - destruct (dataNames (ownKeys props)); [|discriminate].
    destruct (reifyEach (reify d h) snd mkProp props) as [ts|] eqn:E; [|discriminate].
    now rewrite (reifyEach_impl _ _ _ _ _ _ (IH h) E).
Qed.

Lemma reify_le d d' h v t :
  (d <= d')%nat -> reify d h v = Some t -> reify d' h v = Some t.
Proof. induction 1 as [|d' _ IH]; [auto|]. intros H. apply reify_S. auto. Qed.

Section EachClone.
Context {A B : Type}.
Variables (field : A -> Val) (store : A -> Val -> A) (mk : A -> Tree -> B).
Hypothesis field_store : forall x v, field (store x v) = v.
Hypothesis mk_store : forall x v t, mk (store x v) t = mk x t.
Variable d : nat.
Hypothesis IH : forall h v t,
  reify d h v = Some t -> clonesTo d h t (deepClone d h v).

Lemma cloneEach_reify : forall xs h ts,
  reifyEach (reify d h) field mk xs = Some ts ->
  exists xs' ext,
    cloneEach (deepClone d) field store h xs = Returned (xs', h ++ ext) /\
    forall g, agree (List.length h) (List.length (h ++ ext)) (h ++ ext) g ->
              reifyEach (reify d g) field mk xs' = Some ts.
Proof.
  induction xs as [|x xs IHxs]; simpl; intros h ts H.
  - exists [], []. rewrite app_nil_r. split; [reflexivity|].
    intros g _. exact H.
  - destruct (reify d h (field x)) as [t|] eqn:Ex; [|discriminate].
    destruct (reifyEach (reify d h) field mk xs) as [ts'|] eqn:Exs; [|discriminate].
    injection H as <-.
    destruct (IH _ _ _ Ex) as (v' & e1 & -> & Hv').
    assert (Exs' : reifyEach (reify d (h ++ e1)) field mk xs = Some ts').
    { apply (reifyEach_impl _ _ (reify d h)); [|exact Exs].
      intros v t0. apply reify_app. }
    destruct (IHxs _ _ Exs') as (xs' & e2 & -> & Hxs').
    exists (store x v' :: xs'), (e1 ++ e2).
    rewrite app_assoc. split; [reflexivity|].
    intros g Hg. simpl. rewrite field_store.
    rewrite Hv'.
    + rewrite Hxs'; [now rewrite mk_store|].
      eapply agree_narrow; [| |exact Hg]; [rewrite length_app; lia|lia].
    + intros a Ha. rewrite Hg.
      * apply nth_error_app1. lia.
      * rewrite (length_app (h ++ e1)). lia.
Qed.
End EachClone.

(** The clone of a plain object has the names of the object, in their
    order. *)
Lemma cloneEach_keys (clone : Heap -> Val -> Outcome Exn (Val * Heap)) :
  forall props h props' h',
    cloneEach clone snd setProp h props = Returned (props', h') ->
    ownKeys props' = ownKeys props.
Proof.
  induction props as [|p props IH]; simpl; intros h props' h' H.
  - now injection H as <- _.
  - destruct (clone h (snd p)) as [[v h1]|e]; [|discriminate].
    destruct (cloneEach clone snd setProp h1 props) as [[rest h2]|e] eqn:E;
      [|discriminate].
    injection H as <- _. simpl. now rewrite (IH _ _ _ E).
Qed.

(** A plain object that is data lets the loop of [deepClone] run. *)
Lemma dataNames_clonable (props : list (string * Val)) :
  dataNames (ownKeys props) = true -> hasOwn "hasOwnProperty" props = false.
Proof.
  unfold dataNames. intros H. apply andb_prop in H as [H _].
  apply negb_true_iff in H.
  destruct (hasOwn "hasOwnProperty" props) eqn:E; [|reflexivity].
  apply hasOwn_In in E. rewrite <- H. symmetry. apply existsb_exists.
  exists "hasOwnProperty". split; [exact E|apply String.eqb_refl].
Qed.

(** An acyclic value of depth at most [d] that is made of data is
    cloned within [d] frames, and the clone is made of fresh objects
    only. *)
Lemma deepClone_reify d : forall h v t,
  reify d h v = Some t -> clonesTo d h t (deepClone d h v).
Proof.
  induction d as [|d IH]; intros h v t H; [discriminate|].
  destruct v as [| | b | n | s | a];
    try (eexists _, []; rewrite app_nil_r; split; [reflexivity|intros g _; exact H]).
  simpl in H. simpl deepClone.
  destruct (nth_error h a) as [[time|items|props]|] eqn:Ea; [| | |discriminate].
  - injection H as <-. exists (VRef (List.length h)), [ODate time].
    split; [reflexivity|]. intros g Hg. simpl.
    rewrite Hg, nth_error_snoc; [reflexivity|]. rewrite length_app. simpl. lia.
  - destruct (reifyEach (reify d h) (fun v => v) (fun _ t => t) items) as [ts|] eqn:E;
      [|discriminate].
    injection H as <-.
    destruct (cloneEach_reify (fun v => v) (fun _ v => v) (fun _ t => t)
                (fun _ _ => eq_refl) (fun _ _ _ => eq_refl) d IH _ _ _ E)
      as (items' & ext & -> & Hitems).
    exists (VRef (List.length (h ++ ext))), (ext ++ [OArr items']).
    unfold alloc. rewrite app_assoc. split; [reflexivity|].
    intros g Hg. simpl.
    rewrite Hg, nth_error_snoc.
    + rewrite Hitems; [reflexivity|].
      intros a' Ha'. rewrite Hg.
      * apply nth_error_app1. lia.
      * rewrite (length_app (h ++ ext)). lia.
    + rewrite (length_app (h ++ ext)), (length_app h). simpl. lia.
  - destruct (dataNames (ownKeys props)) eqn:Edata; [|discriminate].
    rewrite (dataNames_clonable _ Edata).
    destruct (reifyEach (reify d h) snd mkProp props) as [ts|] eqn:E; [|discriminate].
    injection H as <-.
    destruct (cloneEach_reify snd setProp mkProp
                (fun _ _ => eq_refl) (fun _ _ _ => eq_refl) d IH _ _ _ E)
      as (props' & ext & Hclone & Hprops).
    rewrite Hclone.
    exists (VRef (List.length (h ++ ext))), (ext ++ [ORec props']).
    unfold alloc. rewrite app_assoc. split; [reflexivity|].
    intros g Hg. simpl.
    rewrite Hg, nth_error_snoc.
    + rewrite (cloneEach_keys _ _ _ _ _ Hclone), Edata.
      rewrite Hprops; [reflexivity|].
      intros a' Ha'. rewrite Hg.
      * apply nth_error_app1. lia.
      * rewrite (length_app (h ++ ext)). lia.
    + rewrite (length_app (h ++ ext)), (length_app h). simpl. lia.
Qed.
End CloneFacts.

(** ** CacheService: what each method computes *)

Section CacheFacts.
Import Js CacheService.

Ltac unfold_m :=
  unfold set, get, has, delete, clear, cleanupExpired, evictOldest,
    clone, expired, setCache, tryCatch, bind, ret, throw, gets, modify.

Lemma invalidKey_spec key :
  invalidKey key = true <-> key = VStr "" \/ forall s, key <> VStr s.
Proof.
  unfold invalidKey. destruct key as [| | b | n | s | a]; simpl;
    try (split; [intros _; right; intros s'; discriminate|];
         intros _; now rewrite ?orb_true_r).
  rewrite orb_false_r, negb_involutive.
  destruct (String.eqb_spec s "") as [->|Hne]; simpl.
  - split; [now left|reflexivity].
  - split; [discriminate|]. intros [[= ->]|H]; [contradiction|].
    exfalso. now apply (H s).
Qed.

Lemma invalidKey_VStr k : invalidKey (VStr k) = false <-> k <> "".
Proof.
  unfold invalidKey. simpl. rewrite orb_false_r, negb_involutive.
  destruct (String.eqb_spec k ""); split; congruence.
Qed.

Lemma invalidKey_false key :
  invalidKey key = false -> exists s, key = VStr s /\ s <> "".
Proof.
  intros H. destruct key as [| | b | n | s | a];
    try (unfold invalidKey in H; simpl in H; rewrite ?orb_true_r in H; discriminate).
  exists s. split; [reflexivity|]. now apply invalidKey_VStr.
Qed.

Lemma state_eta st :
  {| heap := heap st; cache := cache st; proto := proto st |} = st.
Proof. now destruct st. Qed.

(** *** What a name finds in the store *)

Lemma getItem_own k st e :
  getOwn k (cache st) = Some e -> getItem k st = Some (IEntry e).
Proof. intros H. unfold getItem. now rewrite H. Qed.

Lemma getItem_none k st :
  getOwn k (cache st) = None -> inherited k (proto st) = None -> getItem k st = None.
Proof. intros H Hi. unfold getItem. now rewrite H. Qed.

Lemma getItem_setHeap k h st : getItem k (setHeap h st) = getItem k st.
Proof. reflexivity. Qed.

(** The names under which [TasksService] caches are no names of the
    prototype chain. *)
Lemma inherited_prefixed k p :
  startsWith k "tasks:" || startsWith k "stats:" = true -> inherited k p = None.
Proof.
  intros H.
  assert (Hne : forall n, startsWith n "tasks:" || startsWith n "stats:" = false ->
                          String.eqb k n = false).
  { intros n Hn. destruct (String.eqb_spec k n) as [->|]; [congruence|reflexivity]. }
  unfold inherited, objectPrototype.
  destruct p as [e|]; simpl; now rewrite !Hne by reflexivity.
Qed.

(** *** The assignment of [set] *)

Lemma store_own k e st :
  k <> "__proto__" ->
  store k e st =
    {| heap := heap st; cache := assign k e (cache st); proto := proto st |}.
Proof.
  intros Hk. unfold store. now rewrite (proj2 (String.eqb_neq _ _) Hk).
Qed.

Lemma store_proto e st :
  hasOwn "__proto__" (cache st) = false ->
  store "__proto__" e st =
    {| heap := heap st; cache := cache st; proto := Some e |}.
Proof. intros Hk. unfold store. now rewrite Hk. Qed.

Lemma heap_store k e st : heap (store k e st) = heap st.
Proof. unfold store. now destruct (String.eqb k "__proto__" && _). Qed.

Lemma cache_store k e st :
  cache (store k e st) = cache st \/ cache (store k e st) = assign k e (cache st).
Proof. unfold store. destruct (String.eqb k "__proto__" && _); simpl; tauto. Qed.

(** Whatever the name, the entry assigned is what the name finds
    next. *)
Lemma getItem_store k e st : getItem k (store k e st) = Some (IEntry e).
Proof.
  unfold store, getItem.
  destruct (String.eqb_spec k "__proto__") as [->|Hk]; simpl.
  - destruct (hasOwn "__proto__" (cache st)) eqn:Eh; simpl.
    + now rewrite getOwn_assign_eq.
    + unfold hasOwn in Eh.
      destruct (getOwn "__proto__" (cache st)); [discriminate|reflexivity].
  - now rewrite getOwn_assign_eq.
Qed.

(** *** What each method computes *)

Lemma evictOldest_eq st :
  evictOldest st =
    (Returned tt,
     {| heap := heap st; cache := afterEviction (cache st); proto := proto st |}).
Proof.
  unfold_m. unfold afterEviction. destruct (oldestKey (cache st)); simpl.
  - reflexivity.
  - now destruct st.
Qed.

Lemma set_invalid depth key value ttl now st :
  invalidKey key = true ->
  set depth key value ttl now st =
    (Thrown (if printable (heap st) key
             then JsError "Invalid cache key" else TypeError), st).
Proof.
  intros H. unfold_m. rewrite H. now destruct (printable (heap st) key).
Qed.

Lemma set_valid depth key value ttl now st :
  invalidKey key = false ->
  set depth key value ttl now st =
    match deepClone depth (heap st) value with
    | Returned (v, h) =>
        (Returned tt,
         store (propertyKey key) {| value := v; expiresAt := now + ttl * 1000 |}
           {| heap := h; cache := admitting (cache st); proto := proto st |})
    | Thrown e =>
        (Thrown e,
         {| heap := heap st; cache := admitting (cache st); proto := proto st |})
    end.
Proof.
  intros H. destruct (invalidKey_false _ H) as (k & -> & _).
  unfold set, tryCatch, bind, gets. rewrite H. unfold admitting.
  destruct (MAX_CACHE_SIZE <=? Z.of_nat (List.length (ownKeys (cache st)))).
  - rewrite evictOldest_eq. unfold clone, modify, throw, setHeap. simpl.
    destruct (deepClone depth (heap st) value) as [[v h]|e]; reflexivity.
  - unfold ret, clone, modify, throw, setHeap. simpl.
    destruct (deepClone depth (heap st) value) as [[v h]|e]; [reflexivity|].
    now destruct st.
Qed.

Lemma get_invalid depth key now st :
  invalidKey key = true -> get depth key now st = (Returned VNull, st).
Proof. intros H. unfold_m. now rewrite H. Qed.

Lemma get_none depth k now st :
  getItem k st = None -> get depth (VStr k) now st = (Returned VNull, st).
Proof.
  intros H. unfold_m. destruct (invalidKey (VStr k)); [reflexivity|].
  simpl. now rewrite H.
Qed.

Lemma get_entry_expired depth k now st e :
  k <> "" -> getItem k st = Some (IEntry e) -> expiresAt e < now ->
  get depth (VStr k) now st =
    (Returned VNull,
     {| heap := heap st; cache := deleteOwn k (cache st); proto := proto st |}).
Proof.
  intros Hk H Hexp. unfold_m. rewrite (proj2 (invalidKey_VStr k) Hk).
  simpl. rewrite H. simpl. rewrite Z.pow_0_r, Z.mul_1_r.
  now rewrite (proj2 (Z.ltb_lt _ _) Hexp).
Qed.

Lemma get_entry_live depth k now st e :
  k <> "" -> getItem k st = Some (IEntry e) -> now <= expiresAt e ->
  get depth (VStr k) now st =
    match deepClone depth (heap st) (value e) with
    | Returned (v, h) => (Returned v, setHeap h st)
    | Thrown _ => (Returned VNull, st)
    end.
Proof.
  intros Hk H Hlive. unfold_m. rewrite (proj2 (invalidKey_VStr k) Hk).
  simpl. rewrite H. simpl. rewrite Z.pow_0_r, Z.mul_1_r.
  rewrite (proj2 (Z.ltb_ge _ _) Hlive).
  destruct (deepClone depth (heap st) (value e)) as [[v h]|err]; reflexivity.
Qed.

(** A method of [Object.prototype] stands in the place of an entry
    with no [expiresAt] and no [value]. *)
Lemma get_builtin depth k now st :
  k <> "" -> getItem k st = Some IBuiltin ->
  get (S depth) (VStr k) now st = (Returned VUndefined, st).
Proof.
  intros Hk H. unfold_m. rewrite (proj2 (invalidKey_VStr k) Hk).
  simpl. rewrite H. simpl. unfold setHeap. now rewrite state_eta.
Qed.

Lemma get_absent depth k now st :
  getOwn k (cache st) = None -> inherited k (proto st) = None ->
  get depth (VStr k) now st = (Returned VNull, st).
Proof. intros H Hi. apply get_none. now apply getItem_none. Qed.

Lemma get_expired depth k now st item :
  k <> "" -> getOwn k (cache st) = Some item -> expiresAt item < now ->
  get depth (VStr k) now st =
    (Returned VNull,
     {| heap := heap st; cache := deleteOwn k (cache st); proto := proto st |}).
Proof. intros Hk H. apply get_entry_expired; [exact Hk|now apply getItem_own]. Qed.

Lemma get_live depth k now st item :
  k <> "" -> getOwn k (cache st) = Some item -> now <= expiresAt item ->
  get depth (VStr k) now st =
    match deepClone depth (heap st) (value item) with
    | Returned (v, h) => (Returned v, setHeap h st)
    | Thrown _ => (Returned VNull, st)
    end.
Proof. intros Hk H. apply get_entry_live; [exact Hk|now apply getItem_own]. Qed.

Lemma has_invalid key now st :
  invalidKey key = true -> has key now st = (Returned false, st).
Proof. intros H. unfold_m. now rewrite H. Qed.

Lemma has_none k now st :
  getItem k st = None -> has (VStr k) now st = (Returned false, st).
Proof.
  intros H. unfold_m. destruct (invalidKey (VStr k)); [reflexivity|].
  simpl. now rewrite H.
Qed.

Lemma has_entry_expired k now st e :
  k <> "" -> getItem k st = Some (IEntry e) -> expiresAt e < now ->
  has (VStr k) now st =
    (Returned false,
     {| heap := heap st; cache := deleteOwn k (cache st); proto := proto st |}).
Proof.
  intros Hk H Hexp. unfold_m. rewrite (proj2 (invalidKey_VStr k) Hk).
  simpl. rewrite H. simpl. rewrite Z.pow_0_r, Z.mul_1_r.
  now rewrite (proj2 (Z.ltb_lt _ _) Hexp).
Qed.

Lemma has_entry_live k now st e :
  k <> "" -> getItem k st = Some (IEntry e) -> now <= expiresAt e ->
  has (VStr k) now st = (Returned true, st).
Proof.
  intros Hk H Hlive. unfold_m. rewrite (proj2 (invalidKey_VStr k) Hk).
  simpl. rewrite H. simpl. rewrite Z.pow_0_r, Z.mul_1_r.
  now rewrite (proj2 (Z.ltb_ge _ _) Hlive).
Qed.

Lemma has_builtin k now st :
  k <> "" -> getItem k st = Some IBuiltin ->
  has (VStr k) now st = (Returned true, st).
Proof.
  intros Hk H. unfold_m. rewrite (proj2 (invalidKey_VStr k) Hk).
  simpl. now rewrite H.
Qed.

Lemma has_absent k now st :
  getOwn k (cache st) = None -> inherited k (proto st) = None ->
  has (VStr k) now st = (Returned false, st).
Proof. intros H Hi. apply has_none. now apply getItem_none. Qed.

Lemma has_expired k now st item :
  k <> "" -> getOwn k (cache st) = Some item -> expiresAt item < now ->
  has (VStr k) now st =
    (Returned false,
     {| heap := heap st; cache := deleteOwn k (cache st); proto := proto st |}).
Proof. intros Hk H. apply has_entry_expired; [exact Hk|now apply getItem_own]. Qed.

Lemma has_live k now st item :
  k <> "" -> getOwn k (cache st) = Some item -> now <= expiresAt item ->
  has (VStr k) now st = (Returned true, st).
Proof. intros Hk H. apply has_entry_live; [exact Hk|now apply getItem_own]. Qed.

Lemma delete_invalid key st :
  invalidKey key = true -> delete key st = (Returned false, st).
Proof. intros H. unfold_m. now rewrite H. Qed.

Lemma delete_in k st :
  k <> "" -> inCache k st = true ->
  delete (VStr k) st =
    (Returned true,
     {| heap := heap st; cache := deleteOwn k (cache st); proto := proto st |}).
Proof.
  intros Hk H. unfold_m. rewrite (proj2 (invalidKey_VStr k) Hk).
  simpl. now rewrite H.
Qed.

Lemma delete_none k st :
  inCache k st = false -> delete (VStr k) st = (Returned false, st).
Proof.
  intros H. unfold_m. destruct (invalidKey (VStr k)); [reflexivity|].
  simpl. now rewrite H.
Qed.

Lemma inCache_own k st : hasOwn k (cache st) = true -> inCache k st = true.
Proof.
  unfold inCache, getItem, hasOwn. now destruct (getOwn k (cache st)).
Qed.

Lemma delete_present k st :
  k <> "" -> hasOwn k (cache st) = true ->
  delete (VStr k) st =
    (Returned true,
     {| heap := heap st; cache := deleteOwn k (cache st); proto := proto st |}).
Proof. intros Hk H. apply delete_in; [exact Hk|now apply inCache_own]. Qed.

Lemma delete_absent k st :
  hasOwn k (cache st) = false -> inherited k (proto st) = None ->
  delete (VStr k) st = (Returned false, st).
Proof.
  intros H Hi. apply delete_none. unfold inCache, getItem.
  unfold hasOwn in H. destruct (getOwn k (cache st)); [discriminate|].
  now rewrite Hi.
Qed.

(** Whatever the key, [delete] returns and leaves the store without
    it (the invalid key [""] names no property of a well-formed
    store; of any other store it is left alone). *)
Lemma delete_cache key st :
  exists b,
    delete key st =
      (Returned b,
       {| heap := heap st;
          cache := if invalidKey key then cache st
                   else deleteOwn (propertyKey key) (cache st);
          proto := proto st |}).
Proof.
  unfold_m. destruct (invalidKey key) eqn:E.
  - exists false. now destruct st.
  - simpl. destruct (inCache (propertyKey key) st) eqn:Eh.
    + now exists true.
    + exists false. rewrite deleteOwn_absent; [now destruct st|].
      rewrite <- hasOwn_In. intros Hin.
      now rewrite (inCache_own _ _ Hin) in Eh.
Qed.
End CacheFacts.

(** ** CacheService: eviction and the shape of the store *)

Section StoreFacts.
Import Js CacheService.
Implicit Types (c : Dict Entry) (k : string).

Lemma length_ownKeys {T} (o : Dict T) : List.length (ownKeys o) = List.length o.
Proof. apply length_map. Qed.

Lemma In_ownKeys_assign {T} k k' (x : T) (o : Dict T) :
  In k' (ownKeys (assign k x o)) -> k' = k \/ In k' (ownKeys o).
Proof.
  unfold assign. destruct (hasOwn k o).
  - rewrite ownKeys_replaceOwn. tauto.
  - apply In_ownKeys_createOwn.
Qed.

(** The scan of [evictOldest]: the pair it ends with is the start pair
    or an entry of the list, and its time is below the start time and
    the time of every entry. *)
Lemma older_fold : forall (l : list (string * Entry)) (acc : string * Z),
  let r := fold_left older l acc in
  (r = acc \/ exists e, In (fst r, e) l /\ expiresAt e = snd r) /\
  snd r <= snd acc /\
  forall p, In p l -> snd r <= expiresAt (snd p).
Proof.
  induction l as [|p l IH]; intros acc; simpl.
  - split; [now left|]. split; [lia|tauto].
  - specialize (IH (older acc p)). cbv zeta in IH.
    destruct IH as (Hwho & Hle & Hall).
    assert (Hacc : snd (older acc p) <= snd acc /\
                   snd (older acc p) <= expiresAt (snd p) /\
                   (older acc p = acc \/ older acc p = (fst p, expiresAt (snd p)))).
    { unfold older. destruct (Z.ltb_spec (expiresAt (snd p)) (snd acc)); simpl.
      - repeat split; [lia|lia|now right].
      - repeat split; [lia|lia|now left]. }
    destruct Hacc as (Ha1 & Ha2 & Ha3).
    split; [|split; [lia|]].
    + destruct Hwho as [Heq|(e & Hin & He)].
      * destruct Ha3 as [Ha3|Ha3]; rewrite Heq, Ha3; [now left|].
        right. exists (snd p). simpl. split; [|reflexivity].
        left. now destruct p.
      * right. exists e. split; [now right|exact He].
    + intros q [<-|Hq]; [lia|auto].
Qed.

Lemma oldestKey_spec c k :
  oldestKey c = Some k ->
  exists e, In (k, e) c /\ forall p, In p c -> expiresAt e <= expiresAt (snd p).
Proof.
  destruct c as [|[k0 e0] c']; [discriminate|].
  unfold oldestKey.
  pose proof (older_fold ((k0, e0) :: c') (k0, expiresAt e0)) as Hf.
  cbv zeta in Hf.
  set (r := fold_left older ((k0, e0) :: c') (k0, expiresAt e0)) in *.
  clearbody r. intros [= <-].
  destruct Hf as (Hwho & _ & Hall).
  destruct Hwho as [Heq|(e & Hin & He)].
  - rewrite Heq. exists e0. split; [now left|].
    intros p Hp. specialize (Hall p Hp). rewrite Heq in Hall. exact Hall.
  - exists e. split; [exact Hin|]. intros p Hp. rewrite He. auto.
Qed.

Lemma oldestKey_full c :
  c <> [] -> exists k, oldestKey c = Some k.
Proof. destruct c as [|[k0 e0] c']; [congruence|]. intros _. now eexists. Qed.

Lemma wf_nil : wf [].
Proof.
  split; [constructor|]. split; [constructor|]. unfold MAX_CACHE_SIZE. simpl. lia.
Qed.

Lemma wf_filter (f : string * Entry -> bool) c : wf c -> wf (List.filter f c).
Proof.
  intros (Hnd & Hne & Hlen). split; [|split].
  - now apply NoDup_ownKeys_filter.
  - rewrite List.Forall_forall in *. intros k Hk. apply Hne.
    unfold ownKeys in *. apply in_map_iff in Hk as (p & <- & Hp).
    apply filter_In in Hp as [Hp _]. now apply in_map.
  - rewrite length_ownKeys in *. pose proof (length_filter_le f c). lia.
Qed.

Lemma wf_deleteOwn k c : wf c -> wf (deleteOwn k c).
Proof. apply wf_filter. Qed.

(** At capacity [set] finds one entry to evict, and evicts just that
    one. *)
Lemma eviction_at_capacity c :
  wf c -> MAX_CACHE_SIZE <= Z.of_nat (List.length (ownKeys c)) ->
  exists k e,
    getOwn k c = Some e /\
    (forall k' e', getOwn k' c = Some e' -> expiresAt e <= expiresAt e') /\
    admitting c = deleteOwn k c /\
    Z.of_nat (List.length (ownKeys (deleteOwn k c))) = MAX_CACHE_SIZE - 1.
Proof.
  intros (Hnd & Hne & Hlen) Hfull.
  assert (Hc : c <> []).
  { intros ->. unfold MAX_CACHE_SIZE in Hfull. simpl in Hfull. lia. }
  destruct (oldestKey_full c Hc) as [k Hk].
  destruct (oldestKey_spec c k Hk) as (e & Hin & Hmin).
  exists k, e. split; [now apply In_getOwn|]. split; [|split].
  - intros k' e' H'. apply getOwn_In in H'. exact (Hmin _ H').
  - unfold admitting, afterEviction. rewrite Hk.
    now rewrite (proj2 (Z.leb_le _ _) Hfull).
  - assert (Hl := length_deleteOwn k c Hnd (in_map fst _ _ Hin)).
    rewrite !length_ownKeys in *. lia.
Qed.

Lemma wf_admitting c : wf c -> wf (admitting c).
Proof.
  intros H. unfold admitting, afterEviction.
  destruct (MAX_CACHE_SIZE <=? _); [|exact H].
  destruct (oldestKey c); [now apply wf_deleteOwn|exact H].
Qed.

Lemma admitting_room c :
  wf c -> Z.of_nat (List.length (ownKeys (admitting c))) < MAX_CACHE_SIZE.
Proof.
  intros H. destruct (Z.leb_spec MAX_CACHE_SIZE (Z.of_nat (List.length (ownKeys c))))
    as [Hfull|Hroom].
  - destruct (eviction_at_capacity c H Hfull) as (k & e & _ & _ & -> & Hl). lia.
  - unfold admitting. now rewrite (proj2 (Z.leb_gt _ _) Hroom).
Qed.

Lemma wf_assign k e c :
  k <> "" -> wf c -> Z.of_nat (List.length (ownKeys c)) < MAX_CACHE_SIZE ->
  wf (assign k e c).
Proof.
  intros Hk (Hnd & Hne & _) Hroom. split; [|split].
  - now apply NoDup_assign.
  - rewrite List.Forall_forall in *. intros k' Hk'.
    apply In_ownKeys_assign in Hk' as [->|Hk']; auto.
  - pose proof (length_assign k e c). rewrite !length_ownKeys in *. lia.
Qed.

(** [get] and [has] leave the store as it is or without the name
    they were asked for. *)
Lemma get_cache depth key now st :
  cache (snd (get depth key now st)) = cache st \/
  cache (snd (get depth key now st)) = deleteOwn (propertyKey key) (cache st).
Proof.
  unfold get, tryCatch, bind, gets, ret, expired.
  destruct (invalidKey key); [now left|]. simpl.
  destruct (getItem (propertyKey key) st) as [item|]; [|now left].
  destruct (itemTruthy item); simpl; [|now left].
  destruct (lessThan (heap st) (itemExpiresAt (heap st) item) now) as [[|]|e];
    simpl; [now right| |now left].
  unfold clone.
  destruct (deepClone depth (heap st) (itemValue (heap st) item)) as [[v h]|e];
    now left.
Qed.

Lemma has_cache key now st :
  cache (snd (has key now st)) = cache st \/
  cache (snd (has key now st)) = deleteOwn (propertyKey key) (cache st).
Proof.
  unfold has, tryCatch, bind, gets, ret, expired.
  destruct (invalidKey key); [now left|]. simpl.
  destruct (getItem (propertyKey key) st) as [item|]; [|now left].
  destruct (itemTruthy item); simpl; [|now left].
  destruct (lessThan (heap st) (itemExpiresAt (heap st) item) now) as [[|]|e];
    simpl; [now right|now left|now left].
Qed.

(** What [set] leaves in the store: what it found, after the eviction
    when that was full, with the new entry assigned into it unless the
    clone failed or the name was that of the prototype. *)
Lemma set_cache depth key value ttl now st :
  invalidKey key = false ->
  cache (snd (set depth key value ttl now st)) = admitting (cache st) \/
  exists v,
    cache (snd (set depth key value ttl now st)) =
      assign (propertyKey key) {| value := v; expiresAt := now + ttl * 1000 |}
        (admitting (cache st)).
Proof.
  intros Hk. rewrite set_valid by exact Hk.
  destruct (deepClone depth (heap st) value) as [[v h]|e]; simpl; [|now left].
  match goal with
  | |- context [store ?k ?e ?s0] => destruct (cache_store k e s0) as [->| ->]
  end; simpl; [now left|right; now exists v].
Qed.

Lemma wf_step st op : wf (cache st) -> wf (cache (step st op)).
Proof.
  intros H. destruct op as [depth key value ttl now|depth key now|key| |key now|now|h];
    simpl.
  - destruct (invalidKey key) eqn:Ek.
    + now rewrite set_invalid.
    + rewrite set_valid by exact Ek.
      destruct (deepClone depth (heap st) value) as [[v h]|e]; simpl.
      * destruct (invalidKey_false _ Ek) as (s & -> & Hs).
        match goal with
        | |- wf (cache (store ?k ?e ?s0)) =>
            destruct (cache_store k e s0) as [->| ->]
        end; simpl.
        -- now apply wf_admitting.
        -- apply wf_assign; [exact Hs|now apply wf_admitting|].
           now apply admitting_room.
      * now apply wf_admitting.
  - destruct (get_cache depth key now st) as [->| ->];
      [exact H|now apply wf_deleteOwn].
  - destruct (delete_cache key st) as [b ->]. simpl.
    destruct (invalidKey key); [exact H|now apply wf_deleteOwn].
  - apply wf_nil.
  - destruct (has_cache key now st) as [->| ->];
      [exact H|now apply wf_deleteOwn].
  - now apply wf_filter.
  - exact H.
Qed.

(** The store of a cache is well formed at every moment of its life. *)
Lemma wf_run ops : forall st, wf (cache st) -> wf (cache (run ops st)).
Proof.
  induction ops as [|op ops IH]; intros st H; simpl; [exact H|].
  apply IH. now apply wf_step.
Qed.

Lemma wf_reachable h ops : wf (cache (run ops (init h))).
Proof. apply wf_run. apply wf_nil. Qed.

Lemma getOwn_filter_none {T} (f : string * T -> bool) (o : Dict T) k :
  getOwn k o = None -> getOwn k (List.filter f o) = None.
Proof.
  rewrite !getOwn_None. intros H Hin. apply H.
  unfold ownKeys in *. apply in_map_iff in Hin as (p & <- & Hp).
  apply filter_In in Hp as [Hp _]. now apply in_map.
Qed.

(** No method of the service creates a property named ['__proto__']. *)
Lemma plain_step st op :
  getOwn "__proto__" (cache st) = None ->
  getOwn "__proto__" (cache (step st op)) = None.
Proof.
  intros H.
  assert (Hdel : forall k, getOwn "__proto__" (deleteOwn k (cache st)) = None).
  { intros k. now apply getOwn_filter_none. }
  destruct op as [depth key value ttl now|depth key now|key| |key now|now|h];
    simpl.
  - destruct (invalidKey key) eqn:Ek.
    + now rewrite set_invalid.
    + assert (Hadm : getOwn "__proto__" (admitting (cache st)) = None).
      { unfold admitting, afterEviction.
        destruct (MAX_CACHE_SIZE <=? _); [|exact H].
        destruct (oldestKey (cache st)); [apply Hdel|exact H]. }
      rewrite set_valid by exact Ek.
      destruct (deepClone depth (heap st) value) as [[v h]|e]; simpl;
        [|exact Hadm].
      destruct (String.eqb_spec (propertyKey key) "__proto__") as [Hp|Hp].
      * rewrite Hp, store_proto; [exact Hadm|].
        unfold hasOwn. cbn [cache]. now rewrite Hadm.
      * rewrite store_own by exact Hp. cbn [cache].
        rewrite getOwn_assign_ne by congruence. exact Hadm.
  - destruct (get_cache depth key now st) as [->| ->]; [exact H|apply Hdel].
  - destruct (delete_cache key st) as [b ->]. simpl.
    destruct (invalidKey key); [exact H|apply Hdel].
  - reflexivity.
  - destruct (has_cache key now st) as [->| ->]; [exact H|apply Hdel].
  - now apply getOwn_filter_none.
  - exact H.
Qed.

Lemma plain_run ops : forall st,
  getOwn "__proto__" (cache st) = None ->
  getOwn "__proto__" (cache (run ops st)) = None.
Proof.
  induction ops as [|op ops IH]; intros st H; simpl; [exact H|].
  apply IH. now apply plain_step.
Qed.

Lemma plain_reachable h ops :
  getOwn "__proto__" (cache (run ops (init h))) = None.
Proof. now apply plain_run. Qed.

Lemma wf_key_nonempty c k e : wf c -> getOwn k c = Some e -> k <> "".
Proof.
  intros (_ & Hne & _) H. rewrite List.Forall_forall in Hne. apply Hne.
  apply getOwn_In in H. now apply (in_map fst) in H.
Qed.
End StoreFacts.

(** ** CacheService: the claims *)

Section CacheClaims.
Import Js CacheService.



Lemma size_deleteOwn k c :
  wf c -> hasOwn k c = true ->
  Z.of_nat (List.length (ownKeys (deleteOwn k c))) =
  Z.of_nat (List.length (ownKeys c)) - 1.
Proof.
  intros (Hnd & _ & _) Hk. apply hasOwn_In in Hk.
  pose proof (length_deleteOwn k c Hnd Hk). rewrite !length_ownKeys. lia.
Qed.
End CacheClaims.

(** C1. The size bound and the eviction choice.  Whatever was done to a
    cache since it was made, it holds at most [MAX_CACHE_SIZE] = 1000
    entries (so it does after every [set]).  When [set] is called with a
    valid key on a cache holding 1000 entries, there is one entry, of
    lowest [expiresAt] among those held, such that the store after the
    call is the store without that entry, with the new entry assigned
    into it when the clone succeeded. *)
Theorem C1_size_bound_and_eviction :
  forall (h : Js.Heap) (ops : list CacheService.Op),
    let st := CacheService.run ops (CacheService.init h) in
    CacheService.size (CacheService.getStats st) <= 1000 /\
    forall depth key value ttl now,
      CacheService.invalidKey key = false ->
      CacheService.size (CacheService.getStats st) = 1000 ->
      exists k e,
        Js.getOwn k (CacheService.cache st) = Some e /\
        (forall k' e', Js.getOwn k' (CacheService.cache st) = Some e' ->
                       CacheService.expiresAt e <= CacheService.expiresAt e') /\
        Z.of_nat (List.length (Js.ownKeys (Js.deleteOwn k (CacheService.cache st)))) = 999 /\
        let st' := snd (CacheService.set depth key value ttl now st) in
        (CacheService.cache st' = Js.deleteOwn k (CacheService.cache st) \/
         exists v,
           CacheService.cache st' =
             Js.assign (CacheService.propertyKey key)
               {| CacheService.value := v;
                  CacheService.expiresAt := now + ttl * 1000 |}
               (Js.deleteOwn k (CacheService.cache st))).
Proof.
  intros h ops st. pose proof (wf_reachable h ops) as Hwf. fold st in Hwf.
  split; [apply Hwf|].
  intros depth key value ttl now Hkey Hfull.
  destruct (eviction_at_capacity (CacheService.cache st) Hwf) as (k & e & Hk & Hmin & Hadm & Hlen).
  { unfold CacheService.getStats in Hfull. simpl in Hfull.
    unfold CacheService.MAX_CACHE_SIZE. lia. }
  exists k, e. split; [exact Hk|]. split; [exact Hmin|].
  split; [unfold CacheService.MAX_CACHE_SIZE in Hlen; lia|].
  cbv zeta.
  destruct (set_cache depth key value ttl now st Hkey) as [H|[v H]];
    rewrite H, Hadm.
  - now left.
  - right. now exists v.
Qed.

Lemma C1_witness :
  let st := CacheService.run (Samples.cachePages 1000) (CacheService.init []) in
  CacheService.size (CacheService.getStats st) <= 1000 /\
  exists k e,
    Js.getOwn k (CacheService.cache st) = Some e /\
    (forall k' e', Js.getOwn k' (CacheService.cache st) = Some e' ->
                   CacheService.expiresAt e <= CacheService.expiresAt e') /\
    Z.of_nat (List.length (Js.ownKeys (Js.deleteOwn k (CacheService.cache st)))) = 999 /\
    let st' := snd (CacheService.set 1 (Js.VStr "stats:task-statistics") (Js.VNum 7) 300 2000 st) in
    (CacheService.cache st' = Js.deleteOwn k (CacheService.cache st) \/
     exists v,
       CacheService.cache st' =
         Js.assign "stats:task-statistics"
           {| CacheService.value := v; CacheService.expiresAt := 2000 + 300 * 1000 |}
           (Js.deleteOwn k (CacheService.cache st))).
Proof.
  intros st.
  destruct (C1_size_bound_and_eviction [] (Samples.cachePages 1000)) as [Hsize Hevict].
  split; [exact Hsize|].
  apply (Hevict 1%nat (Js.VStr "stats:task-statistics") (Js.VNum 7) 300 2000).
  - reflexivity.
  - vm_compute. reflexivity.
Defined.

(** The 1001st distinct key evicts the entry that expires first, here
    the page cached first, and the cache still holds 1000 entries. *)
Example eviction_of_first_page :
  let st := CacheService.run (Samples.cachePages 1001) (CacheService.init []) in
  CacheService.size (CacheService.getStats st) = 1000 /\
  Js.hasOwn (Samples.pageKey 1) (CacheService.cache st) = false /\
  Js.hasOwn (Samples.pageKey 2) (CacheService.cache st) = true /\
  Js.hasOwn (Samples.pageKey 1001) (CacheService.cache st) = true.
Proof. vm_compute. repeat split. Qed.

(** C2 as worded fails at the instant [now = expiresAt]: the entry is
    still served, by [has] and by [get], though [now < expiresAt] no
    longer holds. *)
Lemma C2_counterexample :
  let st := CacheService.run Samples.cacheStatistics (CacheService.init []) in
  exists e,
    Js.getOwn "stats:task-statistics" (CacheService.cache st) = Some e /\
    fst (CacheService.has (Js.VStr "stats:task-statistics") 300000 st) = Js.Returned true /\
    fst (CacheService.get 1 (Js.VStr "stats:task-statistics") 300000 st) =
      Js.Returned (Js.VNum 7) /\
    ~ (300000 < CacheService.expiresAt e).
Proof.
  eexists. split; [reflexivity|]. split; [reflexivity|]. split; [reflexivity|].
  simpl. lia.
Qed.

(** C2, amended. For every key [k] with a stored entry [e]: [has]
    answers [true] exactly while [now <= expiresAt e], and [get] returns
    a value other than [null] only then; once [expiresAt e < now], [get]
    returns [null] and removes the entry, after which the key is gone
    from the store, [getStats().size] is one less, and the other entries
    are as they were. *)
Theorem C2_visibility_and_lazy_expiry :
  forall (h : Js.Heap) (ops : list CacheService.Op) (k : string)
         (e : CacheService.Entry) (depth : nat) (now : Z),
    let st := CacheService.run ops (CacheService.init h) in
    Js.getOwn k (CacheService.cache st) = Some e ->
    (fst (CacheService.has (Js.VStr k) now st) = Js.Returned true <->
     now <= CacheService.expiresAt e) /\
    (forall r, fst (CacheService.get depth (Js.VStr k) now st) = Js.Returned r ->
               r <> Js.VNull -> now <= CacheService.expiresAt e) /\
    (CacheService.expiresAt e < now ->
     let st' := snd (CacheService.get depth (Js.VStr k) now st) in
     fst (CacheService.get depth (Js.VStr k) now st) = Js.Returned Js.VNull /\
     Js.getOwn k (CacheService.cache st') = None /\
     ~ In k (Js.ownKeys (CacheService.cache st')) /\
     CacheService.size (CacheService.getStats st') =
       CacheService.size (CacheService.getStats st) - 1 /\
     forall k', k' <> k ->
       Js.getOwn k' (CacheService.cache st') = Js.getOwn k' (CacheService.cache st)).
Proof.
  intros h ops k e depth now st Hk.
  pose proof (wf_reachable h ops) as Hwf. fold st in Hwf.
  pose proof (wf_key_nonempty _ _ _ Hwf Hk) as Hne.
  split; [|split].
  - destruct (Z.lt_ge_cases (CacheService.expiresAt e) now) as [Hexp|Hlive].
    + rewrite (has_expired k now st e Hne Hk Hexp). simpl.
      split; [discriminate|lia].
    + rewrite (has_live k now st e Hne Hk Hlive). simpl. tauto.
  - intros r Hr Hnull.
    destruct (Z.lt_ge_cases (CacheService.expiresAt e) now) as [Hexp|Hlive]; [|exact Hlive].
    rewrite (get_expired depth k now st e Hne Hk Hexp) in Hr. simpl in Hr. congruence.
  - intros Hexp. cbv zeta. rewrite (get_expired depth k now st e Hne Hk Hexp). simpl.
    split; [reflexivity|]. split; [apply getOwn_deleteOwn_eq|].
    split; [apply getOwn_None; apply getOwn_deleteOwn_eq|].
    split.
    + apply size_deleteOwn; [exact Hwf|]. unfold Js.hasOwn. now rewrite Hk.
    + intros k' Hk'. now apply getOwn_deleteOwn_ne.
Qed.

Lemma C2_witness :
  let st := CacheService.run Samples.cacheStatistics (CacheService.init []) in
  let st' := snd (CacheService.get 1 (Js.VStr "stats:task-statistics") 300001 st) in
  fst (CacheService.get 1 (Js.VStr "stats:task-statistics") 300001 st) = Js.Returned Js.VNull /\
  Js.getOwn "stats:task-statistics" (CacheService.cache st') = None /\
  ~ In "stats:task-statistics" (Js.ownKeys (CacheService.cache st')) /\
  CacheService.size (CacheService.getStats st') =
    CacheService.size (CacheService.getStats st) - 1 /\
  forall k', k' <> "stats:task-statistics" ->
    Js.getOwn k' (CacheService.cache st') = Js.getOwn k' (CacheService.cache st).
Proof.
  intros st.
  refine (proj2 (proj2 (C2_visibility_and_lazy_expiry [] Samples.cacheStatistics
            "stats:task-statistics"
            {| CacheService.value := Js.VNum 7; CacheService.expiresAt := 300000 |}
            1%nat 300001 _)) _).
  - reflexivity.
  - simpl. lia.
Defined.




(** C10. For a key whose entry has expired and is still in the store,
    [delete] returns [true] and removes the entry, though at that moment
    [get] would return [null] and [has] would return [false]: [delete]
    looks at the property, not at its [expiresAt]. *)
Theorem C10_delete_ignores_expiry :
  forall (h : Js.Heap) (ops : list CacheService.Op) (k : string)
         (e : CacheService.Entry) (depth : nat) (now : Z),
    let st := CacheService.run ops (CacheService.init h) in
    Js.getOwn k (CacheService.cache st) = Some e ->
    CacheService.expiresAt e < now ->
    CacheService.delete (Js.VStr k) st =
      (Js.Returned true,
       {| CacheService.heap := CacheService.heap st;
          CacheService.cache := Js.deleteOwn k (CacheService.cache st);
          CacheService.proto := CacheService.proto st |}) /\
    Js.getOwn k (Js.deleteOwn k (CacheService.cache st)) = None /\
    fst (CacheService.get depth (Js.VStr k) now st) = Js.Returned Js.VNull /\
    fst (CacheService.has (Js.VStr k) now st) = Js.Returned false.
Proof.
  intros h ops k e depth now st Hk Hexp.
  pose proof (wf_reachable h ops) as Hwf. fold st in Hwf.
  pose proof (wf_key_nonempty _ _ _ Hwf Hk) as Hne.
  split; [|split; [|split]].
  - apply delete_present; [exact Hne|]. unfold Js.hasOwn. now rewrite Hk.
  - apply getOwn_deleteOwn_eq.
  - now rewrite (get_expired depth k now st e Hne Hk Hexp).
  - now rewrite (has_expired k now st e Hne Hk Hexp).
Qed.

Lemma C10_witness :
  let st := CacheService.run Samples.cacheStatistics (CacheService.init []) in
  CacheService.delete (Js.VStr "stats:task-statistics") st =
    (Js.Returned true,
     {| CacheService.heap := CacheService.heap st;
        CacheService.cache := Js.deleteOwn "stats:task-statistics" (CacheService.cache st);
        CacheService.proto := CacheService.proto st |}) /\
  Js.getOwn "stats:task-statistics"
    (Js.deleteOwn "stats:task-statistics" (CacheService.cache st)) = None /\
  fst (CacheService.get 1 (Js.VStr "stats:task-statistics") 400000 st) = Js.Returned Js.VNull /\
  fst (CacheService.has (Js.VStr "stats:task-statistics") 400000 st) = Js.Returned false.
Proof.
  intros st.
  apply (C10_delete_ignores_expiry [] Samples.cacheStatistics "stats:task-statistics"
           {| CacheService.value := Js.VNum 7; CacheService.expiresAt := 300000 |}
           1%nat 400000).
  - reflexivity.
  - simpl. lia.
Defined.

Section CloneClaims.
Import Js CacheService.

(** The recursion on the self-referencing object uses up any number of
    frames. *)
Lemma deepClone_cyclic depth :
  deepClone depth Samples.cyclicHeap (VRef 0) = Thrown RangeError.
Proof.
  induction depth as [|d IH]; [reflexivity|].
  simpl. now rewrite IH.
Qed.
End CloneClaims.

(** C5 as worded fails on two kinds of value.  On a value that
    contains itself [deepClone] recurses until the call stack is
    exhausted, whatever its size.  On a plain object with an own
    property [hasOwnProperty], here [{ hasOwnProperty: 1, total: 3 }],
    the loop's call of [obj.hasOwnProperty(key)] finds that property,
    which is no function.  In both cases [set] throws and nothing is
    stored. *)
Lemma C5_counterexample :
  (~ exists depth,
      fst (CacheService.set depth (Js.VStr "tasks:001:10:all:all") (Js.VRef 0) 180 0
             (CacheService.init Samples.cyclicHeap)) = Js.Returned tt) /\
  (forall depth,
     CacheService.set (S depth) (Js.VStr "tasks:001:10:all:all") (Js.VRef 0) 180 0
       (CacheService.init Samples.shadowingHeap) =
     (Js.Thrown Js.TypeError, CacheService.init Samples.shadowingHeap)).
Proof.
  split.
  - intros [depth H]. rewrite set_valid in H by reflexivity.
    simpl CacheService.heap in H. rewrite deepClone_cyclic in H. discriminate.
  - intros depth. now rewrite set_valid by reflexivity.
Qed.

(** C5, amended. For every non-empty string key, every TTL above 0 and
    every value that is a finite acyclic structure of primitives, Dates,
    arrays and plain objects that hold data, with no own property
    [hasOwnProperty] or [__proto__] (content [t], depth at most [d]):
    with at least [d] call frames, [set] returns; a [get] of the key at
    a time not after [now + ttl*1000] then returns a value with the same
    content [t], whatever happened in between to the objects that
    existed before the [set] (the caller's value among them); and the
    value returned keeps that content whatever happens later to the
    objects that existed before the [get] (the stored copy among
    them). *)
Theorem C5_deep_copy :
  forall (st : CacheService.State) (k : string) (v : Js.Val) (ttl now now' : Z)
         (d depth : nat) (t : Js.Tree),
    k <> "" -> 0 < ttl -> now' <= now + ttl * 1000 ->
    Js.reify d (CacheService.heap st) v = Some t -> (d <= depth)%nat ->
    exists st1,
      CacheService.set depth (Js.VStr k) v ttl now st = (Js.Returned tt, st1) /\
      forall g,
        Js.agree (List.length (CacheService.heap st))
                 (List.length (CacheService.heap st1)) (CacheService.heap st1) g ->
        exists r st2,
          CacheService.get depth (Js.VStr k) now' (CacheService.setHeap g st1) =
            (Js.Returned r, st2) /\
          Js.reify depth (CacheService.heap st2) r = Some t /\
          forall g',
            Js.agree (List.length g) (List.length (CacheService.heap st2))
                     (CacheService.heap st2) g' ->
            Js.reify depth g' r = Some t.
Proof.
  intros st k v ttl now now' d depth t Hk Httl Hnow Hv Hd.
  apply (reify_le d depth) in Hv; [|exact Hd].
  destruct (deepClone_reify depth _ _ _ Hv) as (v' & ext & Hclone & Hfresh).
  rewrite set_valid by (now apply invalidKey_VStr). rewrite Hclone.
  eexists. split; [reflexivity|]. rewrite heap_store. simpl CacheService.heap.
  intros g Hg. specialize (Hfresh g Hg).
  destruct (deepClone_reify depth _ _ _ Hfresh) as (r & ext' & Hclone' & Hfresh').
  erewrite get_entry_live;
    [|exact Hk|rewrite getItem_setHeap; apply getItem_store|simpl; lia].
  simpl. rewrite Hclone'. eexists _, _. split; [reflexivity|]. simpl.
  split; [apply Hfresh'; apply agree_refl|exact Hfresh'].
Qed.

Lemma C5_witness :
  exists st1,
    CacheService.set 3 (Js.VStr "stats:task-statistics") (Js.VRef 1) 300 0
      (CacheService.init Samples.nestedHeap) = (Js.Returned tt, st1) /\
    forall g,
      Js.agree 2 (List.length (CacheService.heap st1)) (CacheService.heap st1) g ->
      exists r st2,
        CacheService.get 3 (Js.VStr "stats:task-statistics") 0 (CacheService.setHeap g st1) =
          (Js.Returned r, st2) /\
        Js.reify 3 (CacheService.heap st2) r =
          Some (Js.TRec [("total", Js.TNum 3); ("tags", Js.TArr [Js.TStr "a"])]) /\
        forall g',
          Js.agree (List.length g) (List.length (CacheService.heap st2))
                   (CacheService.heap st2) g' ->
          Js.reify 3 g' r =
            Some (Js.TRec [("total", Js.TNum 3); ("tags", Js.TArr [Js.TStr "a"])]).
Proof.
  apply (C5_deep_copy (CacheService.init Samples.nestedHeap) "stats:task-statistics"
           (Js.VRef 1) 300 0 0 3 3).
  - discriminate.
  - lia.
  - lia.
  - reflexivity.
  - lia.
Defined.

(** ** TasksService.invalidateTaskCache *)

Section InvalidateFacts.
Import Js CacheService TasksService.

Lemma getOwn_deleteEach names : forall c k,
  getOwn k (deleteEach names c) =
    if existsb (String.eqb k) names then None else getOwn k c.
Proof.
  unfold deleteEach.
  induction names as [|n names IH]; intros c k; simpl; [reflexivity|].
  rewrite IH. destruct (String.eqb_spec k n) as [->|Hne]; simpl.
  - rewrite getOwn_deleteOwn_eq. now destruct (existsb _ names).
  - now rewrite getOwn_deleteOwn_ne.
Qed.

Lemma startsWith_nonempty key p :
  p <> "" -> startsWith key p = true -> key <> "".
Proof. intros Hp H ->. destruct p; [congruence|discriminate]. Qed.

Lemma delete_valid k st :
  k <> "" ->
  exists b,
    delete (VStr k) st =
      (Returned b,
       {| heap := heap st; cache := deleteOwn k (cache st); proto := proto st |}).
Proof.
  intros Hk. destruct (delete_cache (VStr k) st) as [b Hb].
  exists b. rewrite Hb. now rewrite (proj2 (invalidKey_VStr k) Hk).
Qed.

Lemma forEach_invalidateKey names : forall st,
  forEach names invalidateKey st =
    (Returned tt,
     {| heap := heap st;
        cache := deleteEach
                   (List.filter (fun key => startsWith key "tasks:" || startsWith key "stats:")
                      names)
                   (cache st);
        proto := proto st |}).
Proof.
  induction names as [|n names IH]; intros st; simpl.
  - unfold ret. now destruct st.
  - unfold bind, invalidateKey.
    destruct (startsWith n "tasks:" || startsWith n "stats:") eqn:E.
    + assert (Hn : n <> "").
      { apply orb_true_iff in E as [E|E];
          eapply startsWith_nonempty; try exact E; discriminate. }
      destruct (delete_valid n st Hn) as [b Hb].
      unfold bind. rewrite Hb. unfold ret. now rewrite IH.
    + unfold ret. now rewrite IH.
Qed.

Lemma invalidateTaskCache_eq st :
  invalidateTaskCache st =
    (Returned tt,
     {| heap := heap st;
        cache := deleteEach (invalidated (cache st)) (cache st);
        proto := proto st |}).
Proof.
  unfold invalidateTaskCache, tryCatch, bind, gets.
  destruct (delete_valid "stats:task-statistics" st) as [b1 ->]; [discriminate|].
  rewrite forEach_invalidateKey. cbn [heap cache proto].
  match goal with
  | |- context [delete (VStr "tasks:*") ?s] =>
      destruct (delete_valid "tasks:*" s) as [b2 ->]; [discriminate|]
  end.
  cbn [heap cache proto].
  match goal with
  | |- context [delete (VStr "stats:*") ?s] =>
      destruct (delete_valid "stats:*" s) as [b3 ->]; [discriminate|]
  end.
  unfold ret. cbn [heap cache proto].
  unfold invalidated, deleteEach, getStats. cbn [keys fold_left cache].
  rewrite fold_left_app. reflexivity.
Qed.
End InvalidateFacts.

(** C6 as worded fails: the routine also deletes the key
    ['stats:task-statistics'], which here is neither among the first ten
    keys of [getStats()], before or after, nor one of the two literal
    names. *)
Lemma C6_counterexample :
  let st := CacheService.run (Samples.cachePages 10 ++ Samples.cacheStatistics)
              (CacheService.init []) in
  let st' := snd (TasksService.invalidateTaskCache st) in
  let sampled := CacheService.keys (CacheService.getStats st)
                 ++ CacheService.keys (CacheService.getStats st') in
  Js.hasOwn "stats:task-statistics" (CacheService.cache st) = true /\
  Js.hasOwn "stats:task-statistics" (CacheService.cache st') = false /\
  existsb (String.eqb "stats:task-statistics") (sampled ++ ["tasks:*"; "stats:*"]) = false.
Proof. vm_compute. repeat split. Qed.

(** C6, amended. The routine returns, and what it deletes is exactly:
    the key ['stats:task-statistics']; the keys starting with ['tasks:']
    or ['stats:'] among the first ten keys that [getStats()] shows after
    that delete; and the literal names ['tasks:*'] and ['stats:*'].
    Every other entry is left as it was.  So there is a cache (eleven
    cached pages) with an unexpired entry under a ['tasks:'] key that is
    still there when the routine is done. *)
Theorem C6_partial_invalidation :
  (forall st : CacheService.State,
     let st' := snd (TasksService.invalidateTaskCache st) in
     fst (TasksService.invalidateTaskCache st) = Js.Returned tt /\
     forall k,
       Js.getOwn k (CacheService.cache st') =
         if existsb (String.eqb k) (TasksService.invalidated (CacheService.cache st))
         then None else Js.getOwn k (CacheService.cache st)) /\
  (exists ops k e now,
     let st := CacheService.run ops (CacheService.init []) in
     Js.startsWith k "tasks:" = true /\
     Js.getOwn k (CacheService.cache st) = Some e /\
     now <= CacheService.expiresAt e /\
     Js.getOwn k (CacheService.cache (snd (TasksService.invalidateTaskCache st))) = Some e).
Proof.
  split.
  - intros st st'. subst st'. rewrite invalidateTaskCache_eq.
    split; [reflexivity|]. intros k. cbn [snd CacheService.cache].
    apply getOwn_deleteEach.
  - exists (Samples.cachePages 11), (Samples.pageKey 11),
      {| CacheService.value := Js.VNum 11; CacheService.expiresAt := 180011 |}, 11.
    vm_compute. repeat split; discriminate.
Qed.

(** ** RateLimitGuard *)

Section RateLimitFacts.
Import Js RateLimitGuard.
Implicit Types (records : gmap string (list RequestRecord)) (ip : string).

Lemma map_timestamp_filter bound (l : list RequestRecord) :
  map timestamp (List.filter (newerThan bound) l) =
  List.filter (fun t => bound <? t) (map timestamp l).
Proof.
  induction l as [|r l IH]; simpl; [reflexivity|].
  unfold newerThan at 1. destruct (bound <? timestamp r); simpl; now rewrite IH.
Qed.

Lemma timestampsOf_insert ip l records :
  timestampsOf ip (<[ip := l]> records) = map timestamp l.
Proof. unfold timestampsOf. now rewrite lookup_insert_eq. Qed.

Lemma timestampsOf_cleanup ip t records :
  timestampsOf ip (cleanupOldRecords t records) =
  swept (Some t) (timestampsOf ip records).
Proof.
  unfold timestampsOf, cleanupOldRecords, swept. rewrite lookup_omap.
  rewrite <- map_timestamp_filter.
  destruct (records !! ip) as [l|]; simpl; [|reflexivity].
  unfold prune. now destruct (List.filter _ l).
Qed.

(** The records of [ip] that a call starts from. *)
Lemma lookup_initialised ip records :
  default [] (match records !! ip with
              | Some _ => records
              | None => <[ip := []]> records
              end !! ip) = default [] (records !! ip).
Proof.
  destruct (records !! ip) as [l|] eqn:E.
  - now rewrite E.
  - now rewrite lookup_insert_eq.
Qed.

Lemma handleRateLimit_outcome ip options now sweep records :
  let inWindow :=
    List.filter (fun t => now - windowMs options <? t) (timestampsOf ip records) in
  fst (handleRateLimit ip options now sweep records) =
    if limit options <=? Z.of_nat (List.length inWindow)
    then Thrown {| status := 429;
                   error := "Rate limit exceeded";
                   rejLimit := limit options;
                   current := Z.of_nat (List.length inWindow);
                   remaining := 0;
                   retryAfter := ceilDiv1000 (windowMs options) |}
    else Returned true.
Proof.
  cbv zeta. unfold handleRateLimit, timestampsOf.
  rewrite lookup_initialised, <- map_timestamp_filter, length_map.
  now destruct (limit options <=? _).
Qed.

Lemma handleRateLimit_timestamps ip options now sweep records :
  let inWindow :=
    List.filter (fun t => now - windowMs options <? t) (timestampsOf ip records) in
  timestampsOf ip (snd (handleRateLimit ip options now sweep records)) =
    if limit options <=? Z.of_nat (List.length inWindow)
    then inWindow
    else swept sweep (inWindow ++ [now]).
Proof.
  cbv zeta.
  assert (E : List.filter (fun t => now - windowMs options <? t) (timestampsOf ip records) =
              map timestamp (List.filter (newerThan (now - windowMs options))
                               (default [] (records !! ip)))).
  { unfold timestampsOf. now rewrite map_timestamp_filter. }
  rewrite E, length_map. unfold handleRateLimit.
  rewrite lookup_initialised.
  destruct (limit options <=? _); simpl.
  - now rewrite timestampsOf_insert.
  - destruct sweep as [t|].
    + rewrite timestampsOf_cleanup, timestampsOf_insert, map_app. reflexivity.
    + rewrite timestampsOf_insert, map_app. reflexivity.
Qed.

Lemma ceilDiv1000_spec n :
  (ceilDiv1000 n - 1) * 1000 < n <= ceilDiv1000 n * 1000.
Proof.
  unfold ceilDiv1000.
  pose proof (Z.div_mod (- n) 1000 ltac:(lia)).
  pose proof (Z.mod_pos_bound (- n) 1000 ltac:(lia)). lia.
Qed.
End RateLimitFacts.

(** C4. [handleRateLimit] does what the specification says of [check]:
    on the timestamps on record for the client it gives the verdict of
    [check_spec] (those after [now - windowMs] are counted; at [limit]
    or more the request is rejected with [limit], the count,
    [remaining = 0] and [retryAfter], the window in seconds rounded
    up), and leaves on record the timestamps [check_spec] leaves, the
    new one included when the request is allowed, less what a sweep
    drops.  With [{ limit: 3, windowMs: 1000 }] and a client not seen
    before, three requests less than 1000 ms apart are allowed, a
    fourth in the same 1000 ms is rejected with [remaining = 0], and a
    request 1000 ms or more after the first is allowed. *)
Theorem C4_sliding_window :
  (forall records ip config now sweep,
     0 < RateLimitGuard.limit config -> 0 < RateLimitGuard.windowMs config ->
     let r := RateLimitGuard.handleRateLimit ip config now sweep records in
     let s := RateLimitGuard.check_spec config now (RateLimitGuard.timestampsOf ip records) in
     RateLimitGuard.verdict (fst r) = fst s /\
     RateLimitGuard.timestampsOf ip (snd r) =
       match fst s with
       | RateLimitGuard.Allow => RateLimitGuard.swept sweep (snd s)
       | RateLimitGuard.Reject _ _ _ _ => snd s
       end /\
     (forall lim cur rem after, fst s = RateLimitGuard.Reject lim cur rem after ->
        lim = RateLimitGuard.limit config /\ lim <= cur /\ rem = 0 /\
        (after - 1) * 1000 < RateLimitGuard.windowMs config <= after * 1000)) /\
  (forall records ip t1 t2 t3 t4 t5 s1 s2 s3 s4 s5,
     RateLimitGuard.timestampsOf ip records = [] ->
     RateLimitGuard.inOrder t1 s1 t2 ->
     RateLimitGuard.inOrder t2 s2 t3 ->
     RateLimitGuard.inOrder t3 s3 t4 ->
     t4 - t1 < 1000 ->
     t4 <= t5 -> 1000 <= t5 - t1 ->
     fst (RateLimitGuard.serve ip
            {| RateLimitGuard.limit := 3; RateLimitGuard.windowMs := 1000 |}
            [(t1, s1); (t2, s2); (t3, s3); (t4, s4); (t5, s5)] records) =
       [Js.Returned true; Js.Returned true; Js.Returned true;
        Js.Thrown {| RateLimitGuard.status := 429;
                     RateLimitGuard.error := "Rate limit exceeded";
                     RateLimitGuard.rejLimit := 3;
                     RateLimitGuard.current := 3;
                     RateLimitGuard.remaining := 0;
                     RateLimitGuard.retryAfter := 1 |};
        Js.Returned true]).
Proof.
  split.
  - intros records ip config now sweep _ _ r s. subst r s.
    rewrite handleRateLimit_outcome, handleRateLimit_timestamps.
    unfold RateLimitGuard.check_spec. cbv zeta.
    destruct (RateLimitGuard.limit config <=? _) eqn:E; simpl.
    + split; [reflexivity|]. split; [reflexivity|].
      intros lim cur rem after [= <- <- <- <-].
      apply Z.leb_le in E. repeat split; try lia; apply ceilDiv1000_spec.
    + split; [reflexivity|]. split; [reflexivity|]. discriminate.
  - intros records ip t1 t2 t3 t4 t5 s1 s2 s3 s4 s5 H0 H1 H2 H3 Hin H45 Hout.
    assert (Hord : t1 <= t2 <= t3 /\ t3 <= t4).
    { destruct s1, s2, s3; simpl in *; lia. }
    assert (Hu1 : RateLimitGuard.swept s1 [t1] = [t1]).
    { destruct s1 as [u|]; simpl in *; [|reflexivity].
      now rewrite (proj2 (Z.ltb_lt (u - 5 * 60 * 1000) t1)) by lia. }
    assert (Hu2 : RateLimitGuard.swept s2 [t1; t2] = [t1; t2]).
    { destruct s2 as [u|]; simpl in *; [|reflexivity].
      now rewrite (proj2 (Z.ltb_lt (u - 5 * 60 * 1000) t1)),
        (proj2 (Z.ltb_lt (u - 5 * 60 * 1000) t2)) by lia. }
    assert (Hu3 : RateLimitGuard.swept s3 [t1; t2; t3] = [t1; t2; t3]).
    { destruct s3 as [u|]; simpl in *; [|reflexivity].
      now rewrite (proj2 (Z.ltb_lt (u - 5 * 60 * 1000) t1)),
        (proj2 (Z.ltb_lt (u - 5 * 60 * 1000) t2)), (proj2 (Z.ltb_lt (u - 5 * 60 * 1000) t3)) by lia. }
    cbn [RateLimitGuard.serve].
    repeat match goal with
    | |- context [RateLimitGuard.handleRateLimit ?ip ?c ?n ?s ?m] =>
        let o := fresh "o" in let m' := fresh "m" in
        let Ho := fresh "Ho" in let Hm := fresh "Hm" in
        pose proof (handleRateLimit_outcome ip c n s m) as Ho;
        pose proof (handleRateLimit_timestamps ip c n s m) as Hm;
        destruct (RateLimitGuard.handleRateLimit ip c n s m) as [o m'];
        cbn [fst snd] in Ho, Hm; cbv zeta in Ho, Hm
    end.
    cbn [fst RateLimitGuard.limit RateLimitGuard.windowMs] in *.
    rewrite H0 in *. simpl in Ho, Hm. rewrite Hu1 in Hm.
    rewrite Hm in *. simpl in Ho0, Hm0.
    rewrite (proj2 (Z.ltb_lt (t2 - 1000) t1)) in Ho0, Hm0 by lia.
    simpl in Ho0, Hm0. rewrite Hu2 in Hm0.
    rewrite Hm0 in *. simpl in Ho1, Hm1.
    rewrite (proj2 (Z.ltb_lt (t3 - 1000) t1)), (proj2 (Z.ltb_lt (t3 - 1000) t2))
      in Ho1, Hm1 by lia.
    simpl in Ho1, Hm1. rewrite Hu3 in Hm1.
    rewrite Hm1 in *. simpl in Ho2, Hm2.
    rewrite (proj2 (Z.ltb_lt (t4 - 1000) t1)), (proj2 (Z.ltb_lt (t4 - 1000) t2)),
      (proj2 (Z.ltb_lt (t4 - 1000) t3)) in Ho2, Hm2 by lia.
    simpl in Ho2, Hm2.
    rewrite Hm2 in *. simpl in Ho3.
    rewrite (proj2 (Z.ltb_ge (t5 - 1000) t1)) in Ho3 by lia.
    assert (Ho3' : o3 = Js.Returned true).
    { rewrite Ho3. destruct (t5 - 1000 <? t2), (t5 - 1000 <? t3); reflexivity. }
    now rewrite Ho, Ho0, Ho1, Ho2, Ho3'.
Qed.

Lemma C4_witness :
  (let r := RateLimitGuard.handleRateLimit "203.0.113.7"
              {| RateLimitGuard.limit := 1; RateLimitGuard.windowMs := 1500 |}
              2000 None
              {["203.0.113.7" := [{| RateLimitGuard.count := 1;
                                     RateLimitGuard.timestamp := 900 |}]]} in
   RateLimitGuard.verdict (fst r) = RateLimitGuard.Reject 1 1 0 2 /\
   RateLimitGuard.timestampsOf "203.0.113.7" (snd r) = [900]) /\
  fst (RateLimitGuard.serve "203.0.113.7"
         {| RateLimitGuard.limit := 3; RateLimitGuard.windowMs := 1000 |}
         [(0, None); (100, Some 100); (200, None); (999, Some 999); (1000, Some 1001)]
         ∅) =
    [Js.Returned true; Js.Returned true; Js.Returned true;
     Js.Thrown {| RateLimitGuard.status := 429;
                  RateLimitGuard.error := "Rate limit exceeded";
                  RateLimitGuard.rejLimit := 3;
                  RateLimitGuard.current := 3;
                  RateLimitGuard.remaining := 0;
                  RateLimitGuard.retryAfter := 1 |};
     Js.Returned true].
Proof.
  split.
  - pose proof (proj1 C4_sliding_window
                  {["203.0.113.7" := [{| RateLimitGuard.count := 1;
                                         RateLimitGuard.timestamp := 900 |}]]}
                  "203.0.113.7"
                  {| RateLimitGuard.limit := 1; RateLimitGuard.windowMs := 1500 |}
                  2000 None ltac:(simpl; lia) ltac:(simpl; lia)) as H.
    cbv zeta in H. destruct H as (Hv & Ht & _).
    split; [rewrite Hv|rewrite Ht]; vm_compute; reflexivity.
  - apply (proj2 C4_sliding_window); simpl; try lia. reflexivity.
Defined.

(** ** TaskProcessorService *)

Section ProcessorFacts.
Import Js TaskProcessorService.
Variables (statuses : list Val) (inProgress : Val)
          (updateStatus : Val -> Val -> Outcome Exn Task).

Lemma dispatch_redeliver job n :
  dispatch statuses inProgress updateStatus (redeliver job n) =
  dispatch statuses inProgress updateStatus job.
Proof. reflexivity. Qed.

Lemma process_thrown job e :
  dispatch statuses inProgress updateStatus job = Thrown e ->
  process statuses inProgress updateStatus job =
    if attemptsMade job <? 3 then Thrown e
    else Returned [("success", VBool false);
                   ("error", VStr "Job failed after maximum retries");
                   ("taskId", optProp "taskId" (data job))].
Proof. intros H. unfold process. now rewrite H. Qed.

Lemma process_returned job r :
  dispatch statuses inProgress updateStatus job = Returned r ->
  process statuses inProgress updateStatus job = Returned r.
Proof. intros H. unfold process. now rewrite H. Qed.
End ProcessorFacts.

(** C3 as worded fails on the terminal result: its [error] is
    ['Job failed after maximum retries'], not ["max retries exceeded"],
    and it has no [jobId]. *)
Lemma C3_counterexample :
  exists r,
    TaskProcessorService.process Samples.statusNames (Js.VStr "IN_PROGRESS")
      Samples.taskNotFound
      (Samples.statusUpdateJob
         [("taskId", Js.VStr "7f3e"); ("status", Js.VStr "COMPLETED")] 3) =
      Js.Returned r /\
    TaskProcessorService.prop "error" r <> Js.VStr "max retries exceeded" /\
    Js.getOwn "jobId" r = None.
Proof. eexists. split; [reflexivity|]. split; [discriminate|reflexivity]. Qed.

(** C3, amended. For every job whose handler throws [e]: with
    [attemptsMade < 3] the processor throws [e] again; with
    [attemptsMade >= 3] it returns
    [{ success: false, error: 'Job failed after maximum retries', taskId }]
    ([taskId] read off the job's data, no [jobId]).  So a job whose
    handler throws at every delivery, delivered with [attemptsMade]
    0, 1, 2, 3, throws three times and then returns that result. *)
Theorem C3_bounded_retry :
  forall (statuses : list Js.Val) (inProgress : Js.Val)
         (updateStatus : Js.Val -> Js.Val -> Js.Outcome Js.Exn TaskProcessorService.Task)
         (job : TaskProcessorService.Job) (e : Js.Exn),
    TaskProcessorService.dispatch statuses inProgress updateStatus job = Js.Thrown e ->
    let terminal : TaskProcessorService.Object_ :=
      [("success", Js.VBool false);
       ("error", Js.VStr "Job failed after maximum retries");
       ("taskId", TaskProcessorService.optProp "taskId" (TaskProcessorService.data job))] in
    (TaskProcessorService.attemptsMade job < 3 ->
     TaskProcessorService.process statuses inProgress updateStatus job = Js.Thrown e) /\
    (3 <= TaskProcessorService.attemptsMade job ->
     TaskProcessorService.process statuses inProgress updateStatus job = Js.Returned terminal) /\
    map (fun n => TaskProcessorService.process statuses inProgress updateStatus
                    (TaskProcessorService.redeliver job n)) [0; 1; 2; 3] =
      [Js.Thrown e; Js.Thrown e; Js.Thrown e; Js.Returned terminal].
Proof.
  intros statuses inProgress updateStatus job e H terminal.
  split; [|split].
  - intros Hlt. rewrite (process_thrown _ _ _ _ _ H).
    now rewrite (proj2 (Z.ltb_lt _ _) Hlt).
  - intros Hge. rewrite (process_thrown _ _ _ _ _ H).
    now rewrite (proj2 (Z.ltb_ge _ _) Hge).
  - simpl. rewrite !(process_thrown _ _ _ _ _ (eq_trans (dispatch_redeliver _ _ _ job _) H)).
    reflexivity.
Qed.

Lemma C3_witness :
  let job := Samples.statusUpdateJob
               [("taskId", Js.VStr "7f3e"); ("status", Js.VStr "COMPLETED")] 0 in
  let e := Js.NotFoundException "Task not found" in
  let terminal : TaskProcessorService.Object_ :=
    [("success", Js.VBool false);
     ("error", Js.VStr "Job failed after maximum retries");
     ("taskId", Js.VStr "7f3e")] in
  map (fun n => TaskProcessorService.process Samples.statusNames (Js.VStr "IN_PROGRESS")
                  Samples.taskNotFound (TaskProcessorService.redeliver job n)) [0; 1; 2; 3] =
    [Js.Thrown e; Js.Thrown e; Js.Thrown e; Js.Returned terminal].
Proof.
  intros job e terminal.
  apply (C3_bounded_retry Samples.statusNames (Js.VStr "IN_PROGRESS")
           Samples.taskNotFound job e).
  reflexivity.
Defined.




(** C8 as worded fails on the text of the error: the result carries
    ['Unknown job type'], not ["unknown kind"]. *)
Lemma C8_counterexample :
  exists r,
    TaskProcessorService.process Samples.statusNames (Js.VStr "IN_PROGRESS")
      Samples.taskUpdated
      {| TaskProcessorService.id := Js.VStr "43";
         TaskProcessorService.name := "send-reminder";
         TaskProcessorService.data := Some [("taskId", Js.VStr "7f3e")];
         TaskProcessorService.attemptsMade := 0 |} = Js.Returned r /\
    TaskProcessorService.prop "error" r <> Js.VStr "unknown kind".
Proof. eexists. split; [reflexivity|discriminate]. Qed.

(** C8, amended. For every job whose name is neither
    ['task-status-update'] nor ['overdue-tasks-notification'], whatever
    its data and [attemptsMade], [process] returns
    [{ success: false, error: 'Unknown job type' }]; it throws nothing,
    so the job is not delivered again. *)
Theorem C8_unknown_job_type :
  forall (statuses : list Js.Val) (inProgress : Js.Val)
         (updateStatus : Js.Val -> Js.Val -> Js.Outcome Js.Exn TaskProcessorService.Task)
         (job : TaskProcessorService.Job),
    TaskProcessorService.name job <> "task-status-update" ->
    TaskProcessorService.name job <> "overdue-tasks-notification" ->
    TaskProcessorService.process statuses inProgress updateStatus job =
      Js.Returned [("success", Js.VBool false); ("error", Js.VStr "Unknown job type")].
Proof.
  intros statuses inProgress updateStatus job H1 H2.
  unfold TaskProcessorService.process, TaskProcessorService.dispatch.
  destruct (String.eqb_spec (TaskProcessorService.name job) "task-status-update");
    [contradiction|].
  destruct (String.eqb_spec (TaskProcessorService.name job) "overdue-tasks-notification");
    [contradiction|].
  reflexivity.
Qed.

Lemma C8_witness :
  TaskProcessorService.process Samples.statusNames (Js.VStr "IN_PROGRESS")
    Samples.taskUpdated
    {| TaskProcessorService.id := Js.VStr "43";
       TaskProcessorService.name := "send-reminder";
       TaskProcessorService.data := None;
       TaskProcessorService.attemptsMade := 7 |} =
  Js.Returned [("success", Js.VBool false); ("error", Js.VStr "Unknown job type")].
Proof.
  apply (C8_unknown_job_type Samples.statusNames (Js.VStr "IN_PROGRESS")
           Samples.taskUpdated); discriminate.
Defined.

(** ** Further examples *)

(** [Object.keys] lists array-index names first, in numeric order, and
    an assignment to an existing name keeps its place. *)
Example keys_in_enumeration_order :
  Js.ownKeys (Js.assign "b" 5 (Js.assign "1" 4 (Js.assign "a" 3
    (Js.assign "10" 2 (Js.assign "b" 1 (Js.assign "2" 0 [])))))) =
  ["1"; "2"; "10"; "b"; "a"].
Proof. reflexivity. Qed.

(** A well-formed status update succeeds on the first delivery. *)
Example status_update_succeeds :
  TaskProcessorService.process Samples.statusNames (Js.VStr "IN_PROGRESS")
    Samples.taskUpdated
    (Samples.statusUpdateJob
       [("taskId", Js.VStr "7f3e"); ("status", Js.VStr "COMPLETED")] 0) =
  Js.Returned [("success", Js.VBool true);
               ("taskId", Js.VStr "7f3e");
               ("newStatus", Js.VStr "COMPLETED")].
Proof. reflexivity. Qed.

(** The clone of [{ total: 3, tags: ["a"] }] shares no object with it:
    the original sits at addresses 0 and 1, the clone at 2 and 3. *)
Example clone_is_fresh :
  Js.deepClone 3 Samples.nestedHeap (Js.VRef 1) =
  Js.Returned (Js.VRef 3,
               Samples.nestedHeap ++
               [Js.OArr [Js.VStr "a"];
                Js.ORec [("total", Js.VNum 3); ("tags", Js.VRef 2)]]).
Proof. reflexivity. Qed.

(** The periodic sweep drops exactly the entries with
    [expiresAt < now]. *)
Example sweep_drops_expired :
  let st := CacheService.run (Samples.cachePages 3) (CacheService.init []) in
  Js.ownKeys (CacheService.cache (snd (CacheService.cleanupExpired 180002 st))) =
  [Samples.pageKey 2; Samples.pageKey 3].
Proof. reflexivity. Qed.

(** * Further properties of the code *)

(** ** CacheService *)

Section CacheMore.
Import Js CacheService.

Lemma getOwn_filter {T} (f : string * T -> bool) (o : Dict T) k :
  List.NoDup (ownKeys o) ->
  getOwn k (List.filter f o) =
    match getOwn k o with
    | Some x => if f (k, x) then Some x else None
    | None => None
    end.
Proof.
  induction o as [|[k' y] o IH]; simpl; [reflexivity|].
  intros Hnd. inversion Hnd as [|? ? Hnot Hnd']; subst.
  destruct (String.eqb_spec k' k) as [->|Hne].
  - destruct (f (k, y)) eqn:Ef; simpl.
    + now rewrite String.eqb_refl.
    + apply getOwn_None. intros Hin. apply Hnot.
      unfold ownKeys in *. apply in_map_iff in Hin as (p & <- & Hp).
      apply filter_In in Hp as [Hp _]. now apply in_map.
  - destruct (f (k', y)); simpl.
    + destruct (String.eqb_spec k' k); [contradiction|auto].
    + auto.
Qed.

Lemma length_assign_exact {T} k (x : T) (o : Dict T) :
  List.length (assign k x o) =
    if hasOwn k o then List.length o else S (List.length o).
Proof.
  unfold assign. destruct (hasOwn k o).
  - assert (H := f_equal (@List.length _) (ownKeys_replaceOwn k x o)).
    unfold ownKeys in H. now rewrite !length_map in H.
  - apply length_createOwn.
Qed.

Lemma ownKeys_assign_present {T} k (x : T) (o : Dict T) :
  hasOwn k o = true -> ownKeys (assign k x o) = ownKeys o.
Proof. intros H. unfold assign. rewrite H. apply ownKeys_replaceOwn. Qed.

Lemma cloneEach_extends {A} (f : Heap -> Val -> Outcome Exn (Val * Heap))
    (field : A -> Val) (store : A -> Val -> A) :
  (forall h v v' h', f h v = Returned (v', h') -> exists ext, h' = h ++ ext) ->
  forall xs h xs' h',
    cloneEach f field store h xs = Returned (xs', h') -> exists ext, h' = h ++ ext.
Proof.
  intros Hf. induction xs as [|x xs IH]; simpl; intros h xs' h' H.
  - injection H as <- <-. exists []. now rewrite app_nil_r.
  - destruct (f h (field x)) as [[v h1]|e] eqn:E1; [|discriminate].
    destruct (cloneEach f field store h1 xs) as [[rest h2]|e] eqn:E2; [|discriminate].
    injection H as <- <-.
    destruct (Hf _ _ _ _ E1) as [e1 ->]. destruct (IH _ _ _ E2) as [e2 ->].
    exists (e1 ++ e2). now rewrite app_assoc.
Qed.

Lemma deepClone_extends depth : forall h v v' h',
  deepClone depth h v = Returned (v', h') -> exists ext, h' = h ++ ext.
Proof.
  induction depth as [|d IH]; intros h v v' h' H; [discriminate|].
  assert (Hsame : forall w, @Returned Exn _ (w, h) = Returned (v', h') ->
                            exists ext : Heap, h' = h ++ ext).
  { intros w [= _ <-]. exists []. now rewrite app_nil_r. }
  destruct v as [| | b | n | s | a]; simpl in H; try (exact (Hsame _ H)).
  destruct (nth_error h a) as [[t|items|props]|]; [| | |exact (Hsame _ H)].
  - injection H as _ <-. now eexists.
  - destruct (cloneEach (deepClone d) (fun v => v) (fun _ v => v) h items)
      as [[items' h1]|e] eqn:E; [|discriminate].
    injection H as _ <-.
    destruct (cloneEach_extends _ _ _ IH _ _ _ _ E) as [ext ->].
    exists (ext ++ [OArr items']). now rewrite app_assoc.
  - destruct (hasOwn "hasOwnProperty" props); [discriminate|].
    destruct (cloneEach (deepClone d) snd setProp h props)
      as [[props' h1]|e] eqn:E; [|discriminate].
    injection H as _ <-.
    destruct (cloneEach_extends _ _ _ IH _ _ _ _ E) as [ext ->].
    exists (ext ++ [ORec props']). now rewrite app_assoc.
Qed.

Lemma cloneEach_more {A} (f g : Heap -> Val -> Outcome Exn (Val * Heap))
    (field : A -> Val) (store : A -> Val -> A) :
  (forall h v r, f h v = Returned r -> g h v = Returned r) ->
  forall xs h r,
    cloneEach f field store h xs = Returned r ->
    cloneEach g field store h xs = Returned r.
Proof.
  intros Hfg. induction xs as [|x xs IH]; simpl; intros h r H; [exact H|].
  destruct (f h (field x)) as [[v h1]|e] eqn:E1; [|discriminate].
  rewrite (Hfg _ _ _ E1).
  destruct (cloneEach f field store h1 xs) as [[rest h2]|e] eqn:E2; [|discriminate].
  now rewrite (IH _ _ E2).
Qed.

Lemma deepClone_S depth : forall h v r,
  deepClone depth h v = Returned r -> deepClone (S depth) h v = Returned r.
Proof.
  induction depth as [|d IH]; intros h v r H; [discriminate|].
  destruct v as [| | b | n | s | a]; try exact H.
  change (deepClone (S (S d)) h (VRef a)) with
    (match nth_error h a with
     | Some (ODate t) => Returned (alloc h (ODate t))
     | Some (OArr items) =>
         match cloneEach (deepClone (S d)) (fun v => v) (fun _ v => v) h items with
         | Thrown e => Thrown e
         | Returned (items', h') => Returned (alloc h' (OArr items'))
         end
     | Some (ORec props) =>
         if hasOwn "hasOwnProperty" props then Thrown TypeError
         else
           match cloneEach (deepClone (S d)) snd setProp h props with
           | Thrown e => Thrown e
           | Returned (props', h') => Returned (alloc h' (ORec props'))
           end
     | None => Returned (VRef a, h)
     end).
  simpl in H.
  destruct (nth_error h a) as [[t|items|props]|]; try exact H.
  - destruct (cloneEach (deepClone d) (fun v => v) (fun _ v => v) h items)
      as [[items' h1]|e] eqn:E; [|discriminate].
    now rewrite (cloneEach_more _ _ _ _ IH _ _ _ E).
  - destruct (hasOwn "hasOwnProperty" props); [discriminate|].
    destruct (cloneEach (deepClone d) snd setProp h props)
      as [[props' h1]|e] eqn:E; [|discriminate].
    now rewrite (cloneEach_more _ _ _ _ IH _ _ _ E).
Qed.
(** [has] allocates nothing, and [get] only allocates. *)
Lemma has_heap key now st : heap (snd (has key now st)) = heap st.
Proof.
  unfold has, tryCatch, bind, gets, ret, expired, setCache, modify.
  destruct (invalidKey key); [reflexivity|]. simpl.
  destruct (getItem (propertyKey key) st) as [item|]; [|reflexivity].
  destruct (itemTruthy item); simpl; [|reflexivity].
  now destruct (lessThan (heap st) (itemExpiresAt (heap st) item) now) as [[|]|e].
Qed.

Lemma get_heap depth key now st :
  exists ext, heap (snd (get depth key now st)) = heap st ++ ext.
Proof.
  assert (Hnil : exists ext : Heap, heap st = heap st ++ ext).
  { exists []. now rewrite app_nil_r. }
  unfold get, tryCatch, bind, gets, ret, expired, setCache, modify.
  destruct (invalidKey key); [exact Hnil|]. simpl.
  destruct (getItem (propertyKey key) st) as [item|]; [|exact Hnil].
  destruct (itemTruthy item); simpl; [|exact Hnil].
  destruct (lessThan (heap st) (itemExpiresAt (heap st) item) now) as [[|]|e];
    simpl; [exact Hnil| |exact Hnil].
  unfold clone.
  destruct (deepClone depth (heap st) (itemValue (heap st) item))
    as [[v h']|e] eqn:Ec; simpl; [|exact Hnil].
  exact (deepClone_extends _ _ _ _ _ Ec).
Qed.
End CacheMore.

(** X1. [clear] replaces the store by an empty object: afterwards
    [getStats] reports no entry and no key, and a key finds what [{}]
    inherits.  On a name of [Object.prototype] ([toString],
    [constructor], [__proto__], ...) [has] and [delete] return [true]
    and [get] returns [undefined]; on every other key [get] returns
    [null] and [has] and [delete] return [false].  The heap is left as
    it is. *)
Theorem clear_empties_cache :
  forall (st : CacheService.State),
    let st' := snd (CacheService.clear st) in
    fst (CacheService.clear st) = Js.Returned tt /\
    CacheService.heap st' = CacheService.heap st /\
    CacheService.size (CacheService.getStats st') = 0 /\
    CacheService.keys (CacheService.getStats st') = [] /\
    forall key depth now,
      let inherits :=
        match key with
        | Js.VStr k => existsb (String.eqb k) ("__proto__" :: Js.objectPrototype)
        | _ => false
        end in
      fst (CacheService.get (S depth) key now st') =
        Js.Returned (if inherits then Js.VUndefined else Js.VNull) /\
      fst (CacheService.has key now st') = Js.Returned inherits /\
      fst (CacheService.delete key st') = Js.Returned inherits.
Proof.
  intros st. cbv zeta. split; [reflexivity|]. split; [reflexivity|].
  split; [reflexivity|]. split; [reflexivity|].
  intros key depth now.
  destruct (CacheService.invalidKey key) eqn:E.
  - rewrite get_invalid, has_invalid, delete_invalid by exact E.
    apply invalidKey_spec in E as [->|E]; [now repeat split|].
    destruct key as [| | b | n | s | a]; try now repeat split.
    now destruct (E s).
  - destruct (invalidKey_false _ E) as (k & -> & Hk).
    set (st' := snd (CacheService.clear st)).
    assert (Hitem : CacheService.getItem k st' =
              if existsb (String.eqb k) ("__proto__" :: Js.objectPrototype)
              then Some CacheService.IBuiltin else None).
    { reflexivity. }
    destruct (existsb (String.eqb k) ("__proto__" :: Js.objectPrototype)).
    + rewrite (get_builtin depth k now st' Hk Hitem),
        (has_builtin k now st' Hk Hitem), delete_in;
        [now repeat split|exact Hk|].
      unfold CacheService.inCache. now rewrite Hitem.
    + rewrite (get_none (S depth) k now st' Hitem), (has_none k now st' Hitem),
        delete_none; [now repeat split|].
      unfold CacheService.inCache. now rewrite Hitem.
Qed.

(** The sweep can change what a reader is told about a name that the
    store inherits: under ['toString'] an expired entry makes [has]
    answer [false]; once the sweep has removed it, the name finds the
    method of [Object.prototype] again and [has] answers [true]. *)
Example sweep_uncovers_inherited_name :
  let st := CacheService.run [CacheService.OpSet 1 (Js.VStr "toString") (Js.VNum 1) 1 0]
              (CacheService.init []) in
  let st' := snd (CacheService.cleanupExpired 2000 st) in
  fst (CacheService.has (Js.VStr "toString") 2000 st) = Js.Returned false /\
  fst (CacheService.has (Js.VStr "toString") 2000 st') = Js.Returned true.
Proof. split; reflexivity. Qed.

(** X2. A run of the cleanup timer at time [now] removes the entries
    with [expiresAt < now] and no other, and changes neither an entry it
    keeps nor the heap.  On a key whose name the store does not inherit
    it is invisible to readers: at that time [has] answers the same
    before and after the run. *)
Theorem cleanupExpired_removes_the_expired :
  forall (h : Js.Heap) (ops : list CacheService.Op) (now : Z),
    let st := CacheService.run ops (CacheService.init h) in
    let st' := snd (CacheService.cleanupExpired now st) in
    fst (CacheService.cleanupExpired now st) = Js.Returned tt /\
    CacheService.heap st' = CacheService.heap st /\
    (forall k,
       Js.getOwn k (CacheService.cache st') =
         match Js.getOwn k (CacheService.cache st) with
         | Some e => if CacheService.expiresAt e <? now then None else Some e
         | None => None
         end) /\
    (forall key,
       CacheService.inherited (CacheService.propertyKey key) (CacheService.proto st) = None ->
       fst (CacheService.has key now st') = fst (CacheService.has key now st)).
Proof.
  intros h ops now st st'.
  pose proof (wf_reachable h ops) as Hwf. fold st in Hwf.
  assert (Hget : forall k,
    Js.getOwn k (CacheService.cache st') =
      match Js.getOwn k (CacheService.cache st) with
      | Some e => if CacheService.expiresAt e <? now then None else Some e
      | None => None
      end).
  { intros k. subst st'. simpl. rewrite getOwn_filter by apply Hwf.
    destruct (Js.getOwn k (CacheService.cache st)) as [e|]; [|reflexivity].
    simpl. now destruct (CacheService.expiresAt e <? now). }
  split; [reflexivity|]. split; [reflexivity|]. split; [exact Hget|].
  intros key Hi. destruct (CacheService.invalidKey key) eqn:E.
  - now rewrite !has_invalid.
  - destruct (invalidKey_false _ E) as (k & -> & Hk).
    simpl CacheService.propertyKey in Hi.
    assert (Hi' : CacheService.inherited k (CacheService.proto st') = None) by exact Hi.
    specialize (Hget k).
    destruct (Js.getOwn k (CacheService.cache st)) as [e|] eqn:Ek.
    + destruct (Z.ltb_spec (CacheService.expiresAt e) now) as [Hexp|Hlive].
      * rewrite (has_absent k now st' Hget Hi').
        now rewrite (has_expired k now st e Hk Ek Hexp).
      * rewrite (has_live k now st' e Hk Hget Hlive).
        now rewrite (has_live k now st e Hk Ek Hlive).
    + now rewrite (has_absent k now st' Hget Hi'), (has_absent k now st Ek Hi).
Qed.

(** X3. A [set] on a cache that is not full evicts nothing.  Under a
    key other than ['__proto__'], when it returns, the key holds the
    clone with [expiresAt = now + ttl*1000], every other key holds what
    it held, and the number of entries grew by one for a new key and not
    at all for a key already there, which also keeps its place in the
    key order.  Under the key ['__proto__'] it creates no property: the
    entry becomes the prototype of the store, which holds the entries
    it held.  When [set] throws, the store is as it was. *)
Theorem set_below_capacity :
  forall (st : CacheService.State) (k : string) (value : Js.Val)
         (ttl now : Z) (depth : nat),
    k <> "" ->
    CacheService.size (CacheService.getStats st) < 1000 ->
    let st' := snd (CacheService.set depth (Js.VStr k) value ttl now st) in
    (k <> "__proto__" ->
     fst (CacheService.set depth (Js.VStr k) value ttl now st) = Js.Returned tt ->
     (exists v,
        Js.getOwn k (CacheService.cache st') =
          Some {| CacheService.value := v;
                  CacheService.expiresAt := now + ttl * 1000 |}) /\
     (forall k', k' <> k ->
        Js.getOwn k' (CacheService.cache st') = Js.getOwn k' (CacheService.cache st)) /\
     CacheService.size (CacheService.getStats st') =
       CacheService.size (CacheService.getStats st)
       + (if Js.hasOwn k (CacheService.cache st) then 0 else 1) /\
     (Js.hasOwn k (CacheService.cache st) = true ->
      Js.ownKeys (CacheService.cache st') = Js.ownKeys (CacheService.cache st))) /\
    (k = "__proto__" ->
     Js.hasOwn k (CacheService.cache st) = false ->
     fst (CacheService.set depth (Js.VStr k) value ttl now st) = Js.Returned tt ->
     CacheService.cache st' = CacheService.cache st /\
     exists v,
       CacheService.proto st' =
         Some {| CacheService.value := v;
                 CacheService.expiresAt := now + ttl * 1000 |}) /\
    (forall e,
       fst (CacheService.set depth (Js.VStr k) value ttl now st) = Js.Thrown e ->
       CacheService.cache st' = CacheService.cache st).
Proof.
  intros st k value ttl now depth Hk Hroom st'. subst st'.
  rewrite set_valid by (now apply invalidKey_VStr).
  assert (Hadm : CacheService.admitting (CacheService.cache st) = CacheService.cache st).
  { unfold CacheService.admitting. unfold CacheService.getStats in Hroom.
    simpl in Hroom. unfold CacheService.MAX_CACHE_SIZE.
    now rewrite (proj2 (Z.leb_gt _ _) Hroom). }
  rewrite Hadm. simpl CacheService.propertyKey.
  destruct (Js.deepClone depth (CacheService.heap st) value) as [[v h']|e];
    cbn [fst snd].
  - split; [|split; [|discriminate]].
    + intros Hp _. rewrite store_own by exact Hp. cbn [CacheService.cache].
      split; [|split; [|split]].
      * exists v. apply getOwn_assign_eq.
      * intros k' Hk'. now apply getOwn_assign_ne.
      * unfold CacheService.getStats. cbn [CacheService.size CacheService.cache].
        rewrite !length_ownKeys, length_assign_exact.
        destruct (Js.hasOwn k (CacheService.cache st)); lia.
      * apply ownKeys_assign_present.
    + intros -> Hown _. rewrite store_proto by exact Hown.
      split; [reflexivity|]. now exists v.
  - split; [|split]; [intros _; discriminate|intros _ _; discriminate|].
    reflexivity.
Qed.

Lemma set_below_capacity_witness :
  let st := CacheService.run (Samples.cachePages 3) (CacheService.init []) in
  let st' := snd (CacheService.set 1 (Js.VStr (Samples.pageKey 2)) (Js.VNum 9) 180 50 st) in
  (exists v,
     Js.getOwn (Samples.pageKey 2) (CacheService.cache st') =
       Some {| CacheService.value := v; CacheService.expiresAt := 50 + 180 * 1000 |}) /\
  (forall k', k' <> Samples.pageKey 2 ->
     Js.getOwn k' (CacheService.cache st') = Js.getOwn k' (CacheService.cache st)) /\
  CacheService.size (CacheService.getStats st') =
    CacheService.size (CacheService.getStats st)
    + (if Js.hasOwn (Samples.pageKey 2) (CacheService.cache st) then 0 else 1) /\
  (Js.hasOwn (Samples.pageKey 2) (CacheService.cache st) = true ->
   Js.ownKeys (CacheService.cache st') = Js.ownKeys (CacheService.cache st)).
Proof.
  intros st.
  refine (proj1 (set_below_capacity st (Samples.pageKey 2) (Js.VNum 9) 180 50 1 _ _) _ _).
  - discriminate.
  - vm_compute. reflexivity.
  - discriminate.
  - reflexivity.
Defined.

(** X4. On a full cache [set] evicts before it looks whether the key is
    already stored.  So overwriting a stored key costs an entry: the
    cache is left with 999 entries, unless the stored key was itself
    the one evicted, in which case it is entered again and the cache
    holds 1000. *)
Theorem set_at_capacity_on_stored_key :
  forall (h : Js.Heap) (ops : list CacheService.Op) (k : string)
         (value : Js.Val) (ttl now : Z) (depth : nat),
    let st := CacheService.run ops (CacheService.init h) in
    let st' := snd (CacheService.set depth (Js.VStr k) value ttl now st) in
    CacheService.size (CacheService.getStats st) = 1000 ->
    Js.hasOwn k (CacheService.cache st) = true ->
    fst (CacheService.set depth (Js.VStr k) value ttl now st) = Js.Returned tt ->
    exists k0,
      CacheService.oldestKey (CacheService.cache st) = Some k0 /\
      CacheService.size (CacheService.getStats st') =
        if String.eqb k0 k then 1000 else 999.
Proof.
  intros h ops k value ttl now depth st st' Hfull Hk Hret.
  pose proof (wf_reachable h ops) as Hwf. fold st in Hwf.
  pose proof (plain_reachable h ops) as Hplain. fold st in Hplain.
  assert (Hne : k <> "").
  { unfold Js.hasOwn in Hk.
    destruct (Js.getOwn k (CacheService.cache st)) as [e|] eqn:E; [|discriminate].
    exact (wf_key_nonempty _ _ _ Hwf E). }
  assert (Hp : k <> "__proto__").
  { intros ->. unfold Js.hasOwn in Hk. now rewrite Hplain in Hk. }
  unfold CacheService.getStats in Hfull. simpl in Hfull.
  assert (Hc : CacheService.cache st <> []).
  { intros E. rewrite E in Hfull. simpl in Hfull. lia. }
  destruct (oldestKey_full _ Hc) as [k0 Hk0]. exists k0. split; [exact Hk0|].
  destruct (oldestKey_spec _ _ Hk0) as (e0 & Hin0 & _).
  subst st'. revert Hret. rewrite set_valid by (now apply invalidKey_VStr).
  assert (Hadm : CacheService.admitting (CacheService.cache st) =
                 Js.deleteOwn k0 (CacheService.cache st)).
  { unfold CacheService.admitting, CacheService.afterEviction, CacheService.MAX_CACHE_SIZE.
    rewrite Hk0. now rewrite (proj2 (Z.leb_le _ _)) by lia. }
  rewrite Hadm.
  destruct (Js.deepClone depth (CacheService.heap st) value) as [[v h']|e];
    [intros _|discriminate].
  simpl CacheService.propertyKey. rewrite store_own by exact Hp.
  unfold CacheService.getStats. cbn [snd CacheService.size CacheService.cache].
  rewrite length_ownKeys, length_assign_exact.
  pose proof (length_deleteOwn k0 _ (proj1 Hwf) (in_map fst _ _ Hin0)) as Hlen.
  rewrite length_ownKeys in Hfull.
  unfold Js.hasOwn in *.
  destruct (String.eqb_spec k0 k) as [->|Hneq].
  - rewrite getOwn_deleteOwn_eq. lia.
  - rewrite getOwn_deleteOwn_ne by congruence.
    destruct (Js.getOwn k (CacheService.cache st)); [lia|discriminate].
Qed.

Lemma set_at_capacity_on_stored_key_witness :
  let st := CacheService.run (Samples.cachePages 1000) (CacheService.init []) in
  let st' := snd (CacheService.set 1 (Js.VStr (Samples.pageKey 5)) (Js.VNum 0) 180 2000 st) in
  exists k0,
    CacheService.oldestKey (CacheService.cache st) = Some k0 /\
    CacheService.size (CacheService.getStats st') =
      if String.eqb k0 (Samples.pageKey 5) then 1000 else 999.
Proof.
  intros st.
  apply (set_at_capacity_on_stored_key [] (Samples.cachePages 1000) (Samples.pageKey 5)
           (Js.VNum 0) 180 2000 1).
  - vm_compute. reflexivity.
  - vm_compute. reflexivity.
  - vm_compute. reflexivity.
Defined.

(** X5. [delete(key)] returns [true] exactly when the key is a
    non-empty string that names a property of the store, own or
    inherited ([key in this.cache]).  It removes the own property of
    that name, if there is one, and leaves the other entries, the
    prototype and the heap as they are.  When the store does not
    inherit the name, the key is gone for every reader afterwards:
    [get] returns [null], [has] returns [false] and a second [delete]
    returns [false].  When it does (as it does ['valueOf'], with
    nothing stored), [delete] returns [true] again, every time. *)
Theorem delete_removes_the_key :
  forall (st : CacheService.State) (key : Js.Val),
    let st' := snd (CacheService.delete key st) in
    let k := CacheService.propertyKey key in
    (fst (CacheService.delete key st) = Js.Returned true <->
     CacheService.invalidKey key = false /\ CacheService.inCache k st = true) /\
    CacheService.heap st' = CacheService.heap st /\
    CacheService.proto st' = CacheService.proto st /\
    (forall k', k' <> k ->
       Js.getOwn k' (CacheService.cache st') = Js.getOwn k' (CacheService.cache st)) /\
    (CacheService.inherited k (CacheService.proto st) = None ->
     forall depth now,
       fst (CacheService.get depth key now st') = Js.Returned Js.VNull /\
       fst (CacheService.has key now st') = Js.Returned false /\
       fst (CacheService.delete key st') = Js.Returned false) /\
    (CacheService.invalidKey key = false ->
     CacheService.inherited k (CacheService.proto st) <> None ->
     fst (CacheService.delete key st) = Js.Returned true /\
     fst (CacheService.delete key st') = Js.Returned true).
Proof.
  intros st key. cbv zeta.
  destruct (CacheService.invalidKey key) eqn:E.
  - rewrite delete_invalid by exact E. simpl.
    split; [split; [discriminate|intros [? _]; discriminate]|].
    split; [reflexivity|]. split; [reflexivity|]. split; [reflexivity|].
    split; [|discriminate].
    intros _ depth now. now rewrite get_invalid, has_invalid, delete_invalid.
  - destruct (invalidKey_false _ E) as (k & -> & Hk). simpl CacheService.propertyKey.
    set (gone := {| CacheService.heap := CacheService.heap st;
                    CacheService.cache := Js.deleteOwn k (CacheService.cache st);
                    CacheService.proto := CacheService.proto st |}).
    assert (Hgone : Js.getOwn k (CacheService.cache gone) = None)
      by apply getOwn_deleteOwn_eq.
    assert (Hin : CacheService.inCache k gone =
              match CacheService.inherited k (CacheService.proto st) with
              | Some _ => true | None => false end).
    { unfold CacheService.inCache, CacheService.getItem. now rewrite Hgone. }
    assert (Hafter : forall b,
      CacheService.delete (Js.VStr k) st = (Js.Returned b, gone) ->
      (CacheService.inherited k (CacheService.proto st) = None ->
       forall depth now,
         fst (CacheService.get depth (Js.VStr k) now gone) = Js.Returned Js.VNull /\
         fst (CacheService.has (Js.VStr k) now gone) = Js.Returned false /\
         fst (CacheService.delete (Js.VStr k) gone) = Js.Returned false) /\
      (CacheService.inherited k (CacheService.proto st) <> None ->
       fst (CacheService.delete (Js.VStr k) gone) = Js.Returned true)).
    { intros b _. split.
      - intros Hi depth now.
        rewrite (get_absent depth k now gone Hgone Hi),
          (has_absent k now gone Hgone Hi), delete_none; [now repeat split|].
        now rewrite Hin, Hi.
      - intros Hi. rewrite delete_in; [reflexivity|exact Hk|].
        rewrite Hin.
        now destruct (CacheService.inherited k (CacheService.proto st)). }
    destruct (CacheService.inCache k st) eqn:Eh.
    + pose proof (delete_in k st Hk Eh) as Hd. fold gone in Hd.
      destruct (Hafter _ Hd) as [Hnone Hsome]. rewrite Hd. cbn [fst snd].
      split; [tauto|]. split; [reflexivity|]. split; [reflexivity|].
      split; [intros k' Hk'; now apply getOwn_deleteOwn_ne|].
      split; [exact Hnone|]. intros _ Hi. split; [reflexivity|now apply Hsome].
    + pose proof (delete_none k st Eh) as Hd.
      assert (Hown : Js.getOwn k (CacheService.cache st) = None).
      { unfold CacheService.inCache, CacheService.getItem in Eh.
        now destruct (Js.getOwn k (CacheService.cache st)). }
      assert (Hi : CacheService.inherited k (CacheService.proto st) = None).
      { unfold CacheService.inCache, CacheService.getItem in Eh.
        rewrite Hown in Eh.
        now destruct (CacheService.inherited k (CacheService.proto st)). }
      rewrite Hd. cbn [fst snd].
      split; [split; [discriminate|intros [_ ?]; discriminate]|].
      split; [reflexivity|]. split; [reflexivity|]. split; [reflexivity|].
      split; [|intros _ Hno; now destruct Hno].
      intros _ depth now.
      now rewrite (get_absent depth k now st Hown Hi), (has_absent k now st Hown Hi), Hd.
Qed.

(** X6. Reading changes the store in one way only: [get] and [has]
    leave every entry as it is, except that they remove the entry they
    were asked for when its [expiresAt] is before [now].  Both leave the
    same store; [has] leaves the heap as it is, and [get] only adds
    objects to it. *)
Theorem reads_touch_only_their_key :
  forall (st : CacheService.State) (key : Js.Val) (depth : nat) (now : Z),
    let sg := snd (CacheService.get depth key now st) in
    let sh := snd (CacheService.has key now st) in
    CacheService.heap sh = CacheService.heap st /\
    (exists ext, CacheService.heap sg = CacheService.heap st ++ ext) /\
    CacheService.cache sg = CacheService.cache sh /\
    (CacheService.cache sh = CacheService.cache st \/
     exists k e,
       key = Js.VStr k /\
       Js.getOwn k (CacheService.cache st) = Some e /\
       CacheService.expiresAt e < now /\
       CacheService.cache sh = Js.deleteOwn k (CacheService.cache st)).
Proof.
  intros st key depth now. cbv zeta.
  split; [apply has_heap|]. split; [apply get_heap|].
  destruct (CacheService.invalidKey key) eqn:E.
  - rewrite get_invalid, has_invalid by exact E. simpl. tauto.
  - destruct (invalidKey_false _ E) as (k & -> & Hk).
    destruct (Js.getOwn k (CacheService.cache st)) as [e|] eqn:Ek.
    + destruct (Z.lt_ge_cases (CacheService.expiresAt e) now) as [Hexp|Hlive].
      * rewrite (get_expired depth k now st e Hk Ek Hexp),
          (has_expired k now st e Hk Ek Hexp). simpl.
        split; [reflexivity|]. right. now exists k, e.
      * rewrite (get_live depth k now st e Hk Ek Hlive),
          (has_live k now st e Hk Ek Hlive). simpl.
        destruct (Js.deepClone depth (CacheService.heap st) (CacheService.value e))
          as [[v h']|err]; simpl; tauto.
    + assert (Hsame : Js.deleteOwn k (CacheService.cache st) = CacheService.cache st).
      { apply deleteOwn_absent. now apply getOwn_None. }
      destruct (get_cache depth (Js.VStr k) now st) as [Hg|Hg];
        destruct (has_cache (Js.VStr k) now st) as [Hh|Hh];
        simpl CacheService.propertyKey in *; rewrite Hg, Hh, ?Hsame; tauto.
Qed.

(** X7. The life of an entry: after a [set] at [now] that returned,
    [has] on the key answers [true] at the times up to and including
    [now + ttl*1000] and [false] at every later time.  With a [ttl] of
    0 the entry is there for the millisecond of the [set] only; with a
    negative one it is stored but never seen from [now] on. *)
Theorem entry_lives_for_its_ttl :
  forall (st : CacheService.State) (k : string) (value : Js.Val)
         (ttl now t : Z) (depth : nat),
    k <> "" ->
    fst (CacheService.set depth (Js.VStr k) value ttl now st) = Js.Returned tt ->
    let st' := snd (CacheService.set depth (Js.VStr k) value ttl now st) in
    (t <= now + ttl * 1000 ->
     CacheService.has (Js.VStr k) t st' = (Js.Returned true, st')) /\
    (now + ttl * 1000 < t ->
     fst (CacheService.has (Js.VStr k) t st') = Js.Returned false).
Proof.
  intros st k value ttl now t depth Hk Hret st'.
  assert (He : exists v, CacheService.getItem k st' =
                 Some (CacheService.IEntry
                         {| CacheService.value := v;
                            CacheService.expiresAt := now + ttl * 1000 |})).
  { subst st'. revert Hret. rewrite set_valid by (now apply invalidKey_VStr).
    destruct (Js.deepClone depth (CacheService.heap st) value) as [[v h']|e];
      [intros _|discriminate].
    exists v. apply getItem_store. }
  destruct He as [v He]. split; intros Ht.
  - now apply (has_entry_live k t st' _ Hk He).
  - now rewrite (has_entry_expired k t st' _ Hk He).
Qed.

Lemma entry_lives_for_its_ttl_witness :
  let st := CacheService.init [] in
  let st' := snd (CacheService.set 1 (Js.VStr "stats:task-statistics") (Js.VNum 7) 300 0 st) in
  CacheService.has (Js.VStr "stats:task-statistics") 300000 st' = (Js.Returned true, st') /\
  fst (CacheService.has (Js.VStr "stats:task-statistics") 300001 st') = Js.Returned false.
Proof.
  intros st.
  pose proof (entry_lives_for_its_ttl st "stats:task-statistics" (Js.VNum 7) 300 0 300000 1
                ltac:(discriminate) eq_refl) as H1.
  pose proof (entry_lives_for_its_ttl st "stats:task-statistics" (Js.VNum 7) 300 0 300001 1
                ltac:(discriminate) eq_refl) as H2.
  cbv zeta in H1, H2. split.
  - apply (proj1 H1). simpl. lia.
  - apply (proj2 H2). simpl. lia.
Defined.

(** X8. [deepClone] never writes to an object that exists: when it
    returns, the heap is the old heap with objects added at the end.  A
    primitive comes back as it is and allocates nothing; an object comes
    back as another object, at an address that was free.  The result
    does not depend on the number of call frames once there are
    enough. *)
Theorem deepClone_allocates_only :
  forall (depth : nat) (h : Js.Heap) (v v' : Js.Val) (h' : Js.Heap),
    Js.deepClone depth h v = Js.Returned (v', h') ->
    (exists ext, h' = h ++ ext) /\
    ((forall a, v <> Js.VRef a) -> v' = v /\ h' = h) /\
    (forall a, v = Js.VRef a -> (a < List.length h)%nat ->
               exists a', v' = Js.VRef a' /\ (List.length h <= a')%nat) /\
    (forall depth', (depth <= depth')%nat ->
                    Js.deepClone depth' h v = Js.Returned (v', h')).
Proof.
  intros depth h v v' h' H. split; [exact (deepClone_extends _ _ _ _ _ H)|].
  split; [|split].
  - intros Hprim. destruct depth as [|d]; [discriminate|].
    destruct v as [| | b | n | s | a]; simpl in H;
      try (injection H as <- <-; now split).
    exfalso. now apply (Hprim a).
  - intros a -> Ha. destruct depth as [|d]; [discriminate|]. simpl in H.
    destruct (nth_error h a) as [[t|items|props]|] eqn:Ea.
    + injection H as <- _. eexists. split; [reflexivity|lia].
    + destruct (Js.cloneEach (Js.deepClone d) (fun v => v) (fun _ v => v) h items)
        as [[items' h1]|e] eqn:E; [|discriminate].
      injection H as <- _.
      destruct (cloneEach_extends _ _ _ (deepClone_extends d) _ _ _ _ E) as [ext ->].
      eexists. split; [reflexivity|]. rewrite length_app. lia.
    + destruct (Js.hasOwn "hasOwnProperty" props); [discriminate|].
      destruct (Js.cloneEach (Js.deepClone d) snd Js.setProp h props)
        as [[props' h1]|e] eqn:E; [|discriminate].
      injection H as <- _.
      destruct (cloneEach_extends _ _ _ (deepClone_extends d) _ _ _ _ E) as [ext ->].
      eexists. split; [reflexivity|]. rewrite length_app. lia.
    + apply nth_error_None in Ea. lia.
  - intros depth' Hle. induction Hle as [|m _ IH]; [exact H|].
    now apply deepClone_S.
Qed.

Lemma deepClone_allocates_only_witness :
  exists a', Js.VRef 3 = Js.VRef a' /\ (List.length Samples.nestedHeap <= a')%nat.
Proof.
  refine (proj1 (proj2 (proj2 (deepClone_allocates_only 3 Samples.nestedHeap (Js.VRef 1)
            (Js.VRef 3)
            (Samples.nestedHeap ++
               [Js.OArr [Js.VStr "a"];
                Js.ORec [("total", Js.VNum 3); ("tags", Js.VRef 2)]]) _))) 1%nat _ _).
  - reflexivity.
  - reflexivity.
  - simpl. lia.
Defined.

(** ** TasksService.invalidateTaskCache *)

(** X9. What the invalidation reaches: it always removes the statistics
    entry, it never touches an entry whose key starts with neither
    ['tasks:'] nor ['stats:'], and it leaves the heap alone.  When the
    cache holds at most ten entries besides the statistics entry, no
    entry under a ['tasks:'] or ['stats:'] key is left. *)
Theorem invalidation_scope :
  forall (st : CacheService.State),
    let st' := snd (TasksService.invalidateTaskCache st) in
    CacheService.heap st' = CacheService.heap st /\
    Js.getOwn "stats:task-statistics" (CacheService.cache st') = None /\
    (forall k,
       Js.startsWith k "tasks:" = false -> Js.startsWith k "stats:" = false ->
       Js.getOwn k (CacheService.cache st') = Js.getOwn k (CacheService.cache st)) /\
    ((List.length
        (Js.ownKeys (Js.deleteOwn "stats:task-statistics" (CacheService.cache st)))
      <= 10)%nat ->
     forall k,
       Js.startsWith k "tasks:" || Js.startsWith k "stats:" = true ->
       Js.getOwn k (CacheService.cache st') = None).
Proof.
  intros st st'. subst st'. rewrite invalidateTaskCache_eq.
  cbn [snd CacheService.heap CacheService.cache].
  split; [reflexivity|]. split; [|split].
  - rewrite getOwn_deleteEach. simpl. reflexivity.
  - intros k Ht Hs. rewrite getOwn_deleteEach.
    destruct (existsb (String.eqb k) (TasksService.invalidated (CacheService.cache st)))
      eqn:E; [|reflexivity].
    exfalso. apply existsb_exists in E as (n & Hn & Hkn).
    apply String.eqb_eq in Hkn. subst n.
    unfold TasksService.invalidated in Hn.
    destruct Hn as [<-|Hn]; [discriminate|].
    apply in_app_or in Hn as [Hn|Hn].
    + apply filter_In in Hn as [_ Hn]. rewrite Ht, Hs in Hn. discriminate.
    + destruct Hn as [<-|[<-|[]]]; discriminate.
  - intros Hsmall k Hk. rewrite getOwn_deleteEach.
    destruct (existsb (String.eqb k) (TasksService.invalidated (CacheService.cache st)))
      eqn:E; [reflexivity|].
    destruct (Js.getOwn k (CacheService.cache st)) as [e|] eqn:Ek; [|reflexivity].
    exfalso. apply (eq_true_false_abs _ (eq_refl true)). rewrite <- E. symmetry.
    apply existsb_exists. exists k. split; [|apply String.eqb_refl].
    unfold TasksService.invalidated.
    destruct (String.eqb_spec k "stats:task-statistics") as [->|Hne]; [now left|].
    right. apply in_or_app. left. apply filter_In. split; [|exact Hk].
    rewrite firstn_all2 by exact Hsmall.
    apply hasOwn_In. unfold Js.hasOwn.
    rewrite getOwn_deleteOwn_ne by exact Hne. now rewrite Ek.
Qed.

Lemma invalidation_scope_witness :
  let st := CacheService.run (Samples.cachePages 10 ++ Samples.cacheStatistics)
              (CacheService.init []) in
  Js.getOwn (Samples.pageKey 3)
    (CacheService.cache (snd (TasksService.invalidateTaskCache st))) = None.
Proof.
  intros st.
  apply (proj2 (proj2 (proj2 (invalidation_scope st)))).
  - vm_compute. lia.
  - reflexivity.
Defined.

(** ** RateLimitGuard *)

Section RateLimitMore.
Import Js RateLimitGuard RateLimitRuns.
Implicit Types (records : gmap string (list RequestRecord)) (ip : string).

Lemma filter_above_above a b (l : list Z) :
  List.filter (fun x => a <? x) (List.filter (fun x => b <? x) l) =
  List.filter (fun x => Z.max a b <? x) l.
Proof.
  induction l as [|x l IH]; simpl; [reflexivity|].
  destruct (Z.ltb_spec b x); simpl.
  - destruct (Z.ltb_spec a x), (Z.ltb_spec (Z.max a b) x); try lia; now rewrite IH.
  - destruct (Z.ltb_spec (Z.max a b) x); [lia|exact IH].
Qed.

Lemma filter_above_same a b (l : list Z) :
  b <= a ->
  List.filter (fun x => a <? x) (List.filter (fun x => b <? x) l) =
  List.filter (fun x => a <? x) l.
Proof. intros H. rewrite filter_above_above. now rewrite Z.max_l by exact H. Qed.

Lemma filter_above_none a (l : list Z) :
  Forall (fun x => x <= a) l -> List.filter (fun x => a <? x) l = [].
Proof.
  induction 1 as [|x l Hx _ IH]; simpl; [reflexivity|].
  now rewrite (proj2 (Z.ltb_ge a x) Hx).
Qed.

Lemma length_filter_impl {A} (f g : A -> bool) (l : list A) :
  (forall x, In x l -> f x = true -> g x = true) ->
  (List.length (List.filter f l) <= List.length (List.filter g l))%nat.
Proof.
  induction l as [|x l IH]; simpl; intros H; [lia|].
  assert (IH' := IH (fun y Hy => H y (or_intror Hy))).
  destruct (f x) eqn:Ef.
  - rewrite (H x (or_introl eq_refl) Ef). simpl. lia.
  - destruct (g x); simpl; lia.
Qed.

Lemma lookup_other ip ip' records :
  ip' <> ip ->
  let started := match records !! ip with
                 | Some _ => records
                 | None => <[ip := []]> records
                 end in
  started !! ip' = records !! ip'.
Proof.
  intros Hne. cbv zeta. destruct (records !! ip); [reflexivity|].
  now rewrite lookup_insert_ne by congruence.
Qed.

Lemma timestampsOf_cleanup_any ip t records :
  timestampsOf ip (cleanupOldRecords t records) =
  List.filter (fun x => t - 5 * 60 * 1000 <? x) (timestampsOf ip records).
Proof. apply timestampsOf_cleanup. Qed.

Lemma prune_prune now maxAge (l l' : list RequestRecord) :
  prune now maxAge l = Some l' -> prune now maxAge l' = Some l'.
Proof.
  unfold prune. intros H.
  assert (Hl' : l' = List.filter (newerThan (now - maxAge)) l /\ l' <> []).
  { destruct (List.filter (newerThan (now - maxAge)) l); [discriminate|].
    injection H as <-. split; [reflexivity|discriminate]. }
  destruct Hl' as [-> Hne].
  assert (Hidem : forall (f : RequestRecord -> bool) m,
            List.filter f (List.filter f m) = List.filter f m).
  { intros f m. induction m as [|x m IH]; simpl; [reflexivity|].
    destruct (f x) eqn:E; simpl; [rewrite E|]; now rewrite ?IH. }
  rewrite Hidem.
  destruct (List.filter (newerThan (now - maxAge)) l); [contradiction|reflexivity].
Qed.
End RateLimitMore.

(** X10. Clients do not share a window: a request of [ip] changes
    nothing in the records of another address, apart from what the
    sweep it may trigger drops there (records 5 minutes old or more at
    the time of the sweep).  A rejected request triggers no sweep. *)
Theorem other_clients_are_untouched :
  forall (records : gmap string (list RateLimitGuard.RequestRecord))
         (ip ip' : string) (options : RateLimitGuard.Options)
         (now : Z) (sweep : option Z),
    ip' <> ip ->
    let r := RateLimitGuard.handleRateLimit ip options now sweep records in
    (sweep = None \/ fst r <> Js.Returned true -> snd r !! ip' = records !! ip') /\
    RateLimitGuard.timestampsOf ip' (snd r) =
      match fst r with
      | Js.Returned _ => RateLimitGuard.swept sweep (RateLimitGuard.timestampsOf ip' records)
      | Js.Thrown _ => RateLimitGuard.timestampsOf ip' records
      end.
Proof.
  intros records ip ip' options now sweep Hne r. subst r.
  unfold RateLimitGuard.handleRateLimit.
  set (started := match records !! ip with
                  | Some _ => records
                  | None => <[ip := []]> records
                  end).
  assert (Hs : started !! ip' = records !! ip').
  { apply (lookup_other ip ip' records Hne). }
  destruct (RateLimitGuard.limit options <=? _); cbn [fst snd].
  - split.
    + intros _. rewrite lookup_insert_ne by congruence. exact Hs.
    + unfold RateLimitGuard.timestampsOf.
      rewrite lookup_insert_ne by congruence. now rewrite Hs.
  - split.
    + intros [->|H]; [|congruence].
      rewrite !lookup_insert_ne by congruence. exact Hs.
    + destruct sweep as [t|].
      * rewrite timestampsOf_cleanup. unfold RateLimitGuard.timestampsOf.
        rewrite !lookup_insert_ne by congruence. now rewrite Hs.
      * unfold RateLimitGuard.timestampsOf, RateLimitGuard.swept.
        rewrite !lookup_insert_ne by congruence. now rewrite Hs.
Qed.

Lemma other_clients_are_untouched_witness :
  let records : gmap string (list RateLimitGuard.RequestRecord) :=
    {["198.51.100.2" := [{| RateLimitGuard.count := 1; RateLimitGuard.timestamp := 10 |}]]} in
  let r := RateLimitGuard.handleRateLimit "203.0.113.7" RateLimitGuard.defaultOptions
             20 None records in
  snd r !! "198.51.100.2" = records !! "198.51.100.2".
Proof.
  intros records r.
  apply (proj1 (other_clients_are_untouched records "203.0.113.7" "198.51.100.2"
                  RateLimitGuard.defaultOptions 20 None ltac:(discriminate))).
  now left.
Defined.

Section SlidingWindow.
Import Js RateLimitGuard RateLimitRuns.
Variables (ip : string) (options : Options).
Hypothesis window_pos : 0 < windowMs options.
Hypothesis window_short : windowMs options <= 5 * 60 * 1000.

Lemma inWindow_snoc t now (adm : list Z) :
  inWindow (windowMs options) t (adm ++ [now]) =
  inWindow (windowMs options) t adm
  + (if (t - windowMs options <? now) && (now <=? t) then 1 else 0).
Proof.
  unfold inWindow. rewrite List.filter_app, length_app. simpl.
  destruct ((t - windowMs options <? now) && (now <=? t)); simpl; lia.
Qed.

Lemma admitted_window : forall calls records T adm B,
  timestampsOf ip records = List.filter (fun x => B <? x) adm ->
  B <= T - windowMs options ->
  Forall (fun x => x <= T) adm ->
  clockOrder T calls ->
  (forall t, inWindow (windowMs options) t adm <= limit options) ->
  forall t,
    inWindow (windowMs options) t (adm ++ admittedTimes ip options calls records)
    <= limit options.
Proof.
  induction calls as [|[now sweep] rest IH]; intros records T adm B Hrec HB Hadm Hord HP t.
  - simpl. rewrite app_nil_r. apply HP.
  - simpl in Hord. destruct Hord as [HT Hord].
    cbn [admittedTimes].
    pose proof (handleRateLimit_outcome ip options now sweep records) as Ho.
    pose proof (handleRateLimit_timestamps ip options now sweep records) as Hm.
    cbv zeta in Ho, Hm.
    destruct (handleRateLimit ip options now sweep records) as [o records'].
    cbn [fst snd] in Ho, Hm.
    assert (Hkept :
      List.filter (fun x => now - windowMs options <? x) (timestampsOf ip records) =
      List.filter (fun x => now - windowMs options <? x) adm).
    { rewrite Hrec. apply filter_above_same. lia. }
    rewrite Hkept in Ho, Hm.
    set (T' := match sweep with Some u => u | None => now end).
    assert (HT' : now <= T') by (subst T'; destruct sweep; lia).
    assert (Hord' : clockOrder T' rest) by (subst T'; destruct sweep; tauto).
    destruct (Z.leb_spec (limit options)
                (Z.of_nat (List.length
                   (List.filter (fun x => now - windowMs options <? x) adm))))
      as [Hfull|Hroom].
    + rewrite Ho.
      apply (IH records' T' adm (now - windowMs options)); try assumption.
      * lia.
      * eapply List.Forall_impl; [|exact Hadm]. simpl. intros; lia.
    + rewrite Ho.
      replace (adm ++ now :: admittedTimes ip options rest records')
        with ((adm ++ [now]) ++ admittedTimes ip options rest records')
        by (now rewrite <- app_assoc).
      apply (IH records' T' (adm ++ [now])
               (match sweep with
                | Some u => Z.max (u - 5 * 60 * 1000) (now - windowMs options)
                | None => now - windowMs options
                end)); try assumption.
      * rewrite Hm.
        assert (Hsnoc :
          List.filter (fun x => now - windowMs options <? x) (adm ++ [now]) =
          List.filter (fun x => now - windowMs options <? x) adm ++ [now]).
        { rewrite List.filter_app. simpl.
          now rewrite (proj2 (Z.ltb_lt (now - windowMs options) now)) by lia. }
        rewrite <- Hsnoc.
        destruct sweep as [u|]; simpl; [|reflexivity].
        apply filter_above_above.
      * destruct sweep as [u|]; subst T'; lia.
      * apply List.Forall_app. split.
        -- eapply List.Forall_impl; [|exact Hadm]. simpl. intros; lia.
        -- constructor; [lia|constructor].
      * intros t'. rewrite inWindow_snoc.
        destruct ((t' - windowMs options <? now) && (now <=? t')) eqn:Ein.
        -- apply andb_true_iff in Ein as [_ Hle]. apply Z.leb_le in Hle.
           assert (Hsub :
             (List.length (List.filter
                (fun x => ((t' - windowMs options <? x) && (x <=? t'))%Z) adm)
              <= List.length
                   (List.filter (fun x => (now - windowMs options <? x)%Z) adm))%nat).
           { apply length_filter_impl. intros x _ Hx.
             apply andb_true_iff in Hx as [Hx _]. apply Z.ltb_lt in Hx.
             apply Z.ltb_lt. lia. }
           unfold inWindow. lia.
        -- specialize (HP t'). lia.
Qed.
End SlidingWindow.

(** X11. The guarantee of the limiter.  For a client not seen before,
    a route with [limit > 0] and [0 < windowMs <= 300000], and requests
    and sweeps in clock order: whatever the window of length [windowMs]
    one looks at, at most [limit] requests with a time in that window
    were let through. *)
Theorem sliding_window_guarantee :
  forall (ip : string) (options : RateLimitGuard.Options)
         (calls : list (Z * option Z))
         (records : gmap string (list RateLimitGuard.RequestRecord)) (t0 t : Z),
    0 < RateLimitGuard.limit options ->
    0 < RateLimitGuard.windowMs options ->
    RateLimitGuard.windowMs options <= 5 * 60 * 1000 ->
    RateLimitGuard.timestampsOf ip records = [] ->
    RateLimitRuns.clockOrder t0 calls ->
    RateLimitRuns.inWindow (RateLimitGuard.windowMs options) t
      (RateLimitRuns.admittedTimes ip options calls records)
    <= RateLimitGuard.limit options.
Proof.
  intros ip options calls records t0 t Hl Hw Hs Hrec Hord.
  apply (admitted_window ip options Hw Hs calls records t0 []
           (t0 - RateLimitGuard.windowMs options)).
  - now rewrite Hrec.
  - lia.
  - constructor.
  - exact Hord.
  - intros t'. unfold RateLimitRuns.inWindow. simpl. lia.
Qed.

Lemma sliding_window_guarantee_witness :
  RateLimitRuns.inWindow 1000 1000
    (RateLimitRuns.admittedTimes "203.0.113.7"
       {| RateLimitGuard.limit := 3; RateLimitGuard.windowMs := 1000 |}
       [(0, None); (100, Some 100); (200, None); (999, Some 999); (1000, Some 1001)]
       ∅) <= 3.
Proof.
  apply (sliding_window_guarantee "203.0.113.7"
           {| RateLimitGuard.limit := 3; RateLimitGuard.windowMs := 1000 |}
           [(0, None); (100, Some 100); (200, None); (999, Some 999); (1000, Some 1001)]
           ∅ 0 1000); simpl; try lia. reflexivity.
Defined.

(** X12. A client is let in again after a window of silence: when every
    timestamp on record for it is [windowMs] old or more and
    [limit > 0], the request is allowed, and it is the only one on
    record afterwards.  Rejected requests leave no timestamp, so they do
    not put that moment off. *)
Theorem allowed_after_silence :
  forall (records : gmap string (list RateLimitGuard.RequestRecord))
         (ip : string) (options : RateLimitGuard.Options)
         (now : Z) (sweep : option Z),
    0 < RateLimitGuard.limit options ->
    Forall (fun x => x <= now - RateLimitGuard.windowMs options)
      (RateLimitGuard.timestampsOf ip records) ->
    let r := RateLimitGuard.handleRateLimit ip options now sweep records in
    fst r = Js.Returned true /\
    RateLimitGuard.timestampsOf ip (snd r) = RateLimitGuard.swept sweep [now].
Proof.
  intros records ip options now sweep Hl Hold r. subst r.
  rewrite handleRateLimit_outcome, handleRateLimit_timestamps. cbv zeta.
  rewrite (filter_above_none _ _ Hold). simpl.
  now rewrite (proj2 (Z.leb_gt _ _)) by lia.
Qed.

Lemma allowed_after_silence_witness :
  let records : gmap string (list RateLimitGuard.RequestRecord) :=
    {["203.0.113.7" := [{| RateLimitGuard.count := 1; RateLimitGuard.timestamp := 10 |};
                        {| RateLimitGuard.count := 1; RateLimitGuard.timestamp := 20 |}]]} in
  let r := RateLimitGuard.handleRateLimit "203.0.113.7"
             {| RateLimitGuard.limit := 2; RateLimitGuard.windowMs := 1000 |}
             1020 None records in
  fst r = Js.Returned true /\
  RateLimitGuard.timestampsOf "203.0.113.7" (snd r) = [1020].
Proof.
  intros records.
  apply (allowed_after_silence records "203.0.113.7"
           {| RateLimitGuard.limit := 2; RateLimitGuard.windowMs := 1000 |} 1020 None).
  - simpl. lia.
  - vm_compute. repeat constructor; discriminate.
Defined.

(** X13. The sweep keeps, for every address, the records less than 5
    minutes old, in their order; an address with no such record is
    dropped from the table, so no empty list is left behind.  Sweeping
    twice at the same time is sweeping once. *)
Theorem cleanupOldRecords_keeps_recent :
  forall (t : Z) (records : gmap string (list RateLimitGuard.RequestRecord)),
    (forall ip,
       RateLimitGuard.cleanupOldRecords t records !! ip =
         match records !! ip with
         | Some l =>
             match List.filter (RateLimitGuard.newerThan (t - 300000)) l with
             | [] => None
             | kept => Some kept
             end
         | None => None
         end) /\
    (forall ip l,
       RateLimitGuard.cleanupOldRecords t records !! ip = Some l ->
       l <> [] /\ Forall (fun r => t - 300000 < RateLimitGuard.timestamp r) l) /\
    RateLimitGuard.cleanupOldRecords t (RateLimitGuard.cleanupOldRecords t records) =
    RateLimitGuard.cleanupOldRecords t records.
Proof.
  intros t records.
  assert (Hlook : forall ip,
    RateLimitGuard.cleanupOldRecords t records !! ip =
      records !! ip ≫= RateLimitGuard.prune t (5 * 60 * 1000)).
  { intros ip. unfold RateLimitGuard.cleanupOldRecords. apply lookup_omap. }
  split; [|split].
  - intros ip. rewrite Hlook. destruct (records !! ip) as [l|]; reflexivity.
  - intros ip l. rewrite Hlook. destruct (records !! ip) as [l0|]; [|discriminate].
    simpl. unfold RateLimitGuard.prune. change (t - 5 * 60 * 1000) with (t - 300000).
    intros H.
    assert (Hl : l = List.filter (RateLimitGuard.newerThan (t - 300000)) l0 /\ l <> []).
    { destruct (List.filter (RateLimitGuard.newerThan (t - 300000)) l0);
        [discriminate|]. injection H as <-. split; [reflexivity|discriminate]. }
    destruct Hl as [-> Hne]. split; [exact Hne|].
    apply List.Forall_forall. intros r Hr. apply filter_In in Hr as [_ Hr].
    now apply Z.ltb_lt in Hr.
  - apply map_eq. intros ip.
    unfold RateLimitGuard.cleanupOldRecords at 1. rewrite lookup_omap.
    destruct (RateLimitGuard.cleanupOldRecords t records !! ip) as [l|] eqn:E;
      [|reflexivity].
    simpl. rewrite Hlook in E.
    destruct (records !! ip) as [l0|]; [|discriminate]. simpl in E.
    exact (prune_prune _ _ _ _ E).
Qed.

(** X14. For a window of 5 minutes or less, a sweep at [u] changes no
    later decision: a request at [now >= u] meets the same verdict, and
    leaves the same timestamps on record for its client, whether the
    table was swept or not. *)
Theorem sweep_is_invisible :
  forall (records : gmap string (list RateLimitGuard.RequestRecord))
         (ip : string) (options : RateLimitGuard.Options)
         (u now : Z) (sweep : option Z),
    RateLimitGuard.windowMs options <= 5 * 60 * 1000 ->
    u <= now ->
    let swept_first :=
      RateLimitGuard.handleRateLimit ip options now sweep
        (RateLimitGuard.cleanupOldRecords u records) in
    let plain := RateLimitGuard.handleRateLimit ip options now sweep records in
    fst swept_first = fst plain /\
    RateLimitGuard.timestampsOf ip (snd swept_first) =
    RateLimitGuard.timestampsOf ip (snd plain).
Proof.
  intros records ip options u now sweep Hw Hu a b. subst a b.
  rewrite !handleRateLimit_outcome, !handleRateLimit_timestamps. cbv zeta.
  rewrite timestampsOf_cleanup_any.
  rewrite !filter_above_same by lia. now split.
Qed.

Lemma sweep_is_invisible_witness :
  let records : gmap string (list RateLimitGuard.RequestRecord) :=
    {["203.0.113.7" := [{| RateLimitGuard.count := 1; RateLimitGuard.timestamp := 10 |}]]} in
  fst (RateLimitGuard.handleRateLimit "203.0.113.7" RateLimitGuard.defaultOptions
         400000 None (RateLimitGuard.cleanupOldRecords 350000 records)) =
  fst (RateLimitGuard.handleRateLimit "203.0.113.7" RateLimitGuard.defaultOptions
         400000 None records).
Proof.
  intros records.
  apply (sweep_is_invisible records "203.0.113.7" RateLimitGuard.defaultOptions
           350000 400000 None); simpl; lia.
Defined.

(** ** TaskProcessorService *)



(** X16. A report of success means the write was done.  When [process]
    returns an object with [success: true] for a status update, the
    payload passed the checks and the task store was asked to write the
    payload's [status] to the payload's [taskId] and answered with the
    task that the report shows; for an overdue notification the store
    was asked to set [IN_PROGRESS], whatever the payload says, and the
    report carries the payload's [taskId] and [dueDate]. *)
Theorem success_means_written :
  forall (statuses : list Js.Val) (inProgress : Js.Val)
         (updateStatus : Js.Val -> Js.Val -> Js.Outcome Js.Exn TaskProcessorService.Task)
         (jobId : Js.Val) (payload : TaskProcessorService.Object_) (attempts : Z)
         (r : TaskProcessorService.Object_),
    TaskProcessorService.prop "success" r = Js.VBool true ->
    (TaskProcessorService.process statuses inProgress updateStatus
       {| TaskProcessorService.id := jobId;
          TaskProcessorService.name := "task-status-update";
          TaskProcessorService.data := Some payload;
          TaskProcessorService.attemptsMade := attempts |} = Js.Returned r ->
     exists task,
       Js.truthy (TaskProcessorService.prop "taskId" payload) = true /\
       Js.includes statuses (TaskProcessorService.prop "status" payload) = true /\
       updateStatus (TaskProcessorService.prop "taskId" payload)
                    (TaskProcessorService.prop "status" payload) = Js.Returned task /\
       r = [("success", Js.VBool true);
            ("taskId", TaskProcessorService.taskId_ task);
            ("newStatus", TaskProcessorService.taskStatus task)]) /\
    (TaskProcessorService.process statuses inProgress updateStatus
       {| TaskProcessorService.id := jobId;
          TaskProcessorService.name := "overdue-tasks-notification";
          TaskProcessorService.data := Some payload;
          TaskProcessorService.attemptsMade := attempts |} = Js.Returned r ->
     exists task,
       Js.truthy (TaskProcessorService.prop "taskId" payload) = true /\
       Js.truthy (TaskProcessorService.prop "userId" payload) = true /\
       updateStatus (TaskProcessorService.prop "taskId" payload) inProgress =
         Js.Returned task /\
       r = [("success", Js.VBool true);
            ("message", Js.VStr "Overdue task processed");
            ("taskId", TaskProcessorService.prop "taskId" payload);
            ("newStatus", TaskProcessorService.taskStatus task);
            ("overdueDate", TaskProcessorService.prop "dueDate" payload)]).
Proof.
  intros statuses inProgress updateStatus jobId payload attempts r Hs. split.
  - unfold TaskProcessorService.process, TaskProcessorService.dispatch,
      TaskProcessorService.handleStatusUpdate. simpl.
    destruct (Js.truthy (TaskProcessorService.prop "taskId" payload)) eqn:Et; simpl;
      [|intros [= <-]; discriminate].
    destruct (Js.truthy (TaskProcessorService.prop "status" payload)) eqn:Es; simpl;
      [|intros [= <-]; discriminate].
    destruct (Js.includes statuses (TaskProcessorService.prop "status" payload)) eqn:Ei;
      simpl; [|intros [= <-]; discriminate].
    destruct (updateStatus _ _) as [task|e] eqn:Eu.
    + intros [= <-]. exists task. repeat split; assumption.
    + destruct (attempts <? 3); [discriminate|]. intros [= <-]. discriminate.
  - unfold TaskProcessorService.process, TaskProcessorService.dispatch,
      TaskProcessorService.handleOverdueTasks. simpl.
    destruct (Js.truthy (TaskProcessorService.prop "taskId" payload)) eqn:Et; simpl;
      [|intros [= <-]; discriminate].
    destruct (Js.truthy (TaskProcessorService.prop "userId" payload)) eqn:Eu; simpl;
      [|intros [= <-]; discriminate].
    destruct (updateStatus _ _) as [task|e] eqn:Ew.
    + intros [= <-]. exists task. repeat split; assumption.
    + destruct (attempts <? 3); [discriminate|]. intros [= <-]. discriminate.
Qed.

Lemma success_means_written_witness :
  exists task,
    Js.truthy (Js.VStr "7f3e") = true /\
    Js.includes Samples.statusNames (Js.VStr "COMPLETED") = true /\
    Samples.taskUpdated (Js.VStr "7f3e") (Js.VStr "COMPLETED") = Js.Returned task /\
    [("success", Js.VBool true); ("taskId", Js.VStr "7f3e");
     ("newStatus", Js.VStr "COMPLETED")] =
    [("success", Js.VBool true);
     ("taskId", TaskProcessorService.taskId_ task);
     ("newStatus", TaskProcessorService.taskStatus task)].
Proof.
  apply (proj1 (success_means_written Samples.statusNames (Js.VStr "IN_PROGRESS")
                  Samples.taskUpdated (Js.VStr "41")
                  [("taskId", Js.VStr "7f3e"); ("status", Js.VStr "COMPLETED")] 0
                  [("success", Js.VBool true); ("taskId", Js.VStr "7f3e");
                   ("newStatus", Js.VStr "COMPLETED")] eq_refl)).
  reflexivity.
Defined.

(** ** TasksService *)

Section TasksFacts.
Import Js Tasks.

Lemma world_eta (w : World) :
  {| cacheState := cacheState w; queued := queued w; addCalls := addCalls w |} = w.
Proof. now destruct w. Qed.

Lemma val_eqb_refl (v : Val) : val_eqb v v = true.
Proof.
  destruct v as [| | b | n | s | a]; simpl; try reflexivity.
  - now destruct b.
  - apply Z.eqb_refl.
  - apply String.eqb_refl.
  - apply Nat.eqb_refl.
Qed.

Lemma val_eqb_eq (v w : Val) : val_eqb v w = true -> v = w.
Proof.
  destruct v as [| | b | n | s | a], w as [| | b' | n' | s' | a']; simpl;
    try discriminate; try reflexivity; intros H.
  - f_equal. now apply Bool.eqb_prop.
  - f_equal. now apply Z.eqb_eq.
  - f_equal. now apply String.eqb_eq.
  - f_equal. now apply Nat.eqb_eq.
Qed.

Lemma val_eqb_neq (v w : Val) : v <> w -> val_eqb v w = false.
Proof.
  intros H. destruct (val_eqb v w) eqn:E; [|reflexivity].
  now apply val_eqb_eq in E.
Qed.

Lemma liftCache_invalidate (w : World) :
  liftCache TasksService.invalidateTaskCache w =
    (Returned tt,
     {| cacheState :=
          {| CacheService.heap := CacheService.heap (cacheState w);
             CacheService.cache :=
               TasksService.deleteEach
                 (TasksService.invalidated (CacheService.cache (cacheState w)))
                 (CacheService.cache (cacheState w));
             CacheService.proto := CacheService.proto (cacheState w) |};
        queued := queued w;
        addCalls := addCalls w |}).
Proof. unfold liftCache. now rewrite invalidateTaskCache_eq. Qed.

Lemma tryAdd_eq addFails name data (w : World) :
  tryAdd addFails name data w =
    (Returned tt,
     {| cacheState := cacheState w;
        queued := queued w ++
                  match addFails (addCalls w) with
                  | None => [{| jobName := name; jobData := data |}]
                  | Some _ => []
                  end;
        addCalls := S (addCalls w) |}).
Proof.
  unfold tryAdd, tryCatch, add, ret.
  destruct (addFails (addCalls w)); [now rewrite app_nil_r|reflexivity].
Qed.

Lemma forEach_tryAdd addFails (data : Val -> TaskProcessorService.Object_) name :
  forall (ids : list Val) (w : World),
    exists q,
      forEach ids (fun taskId => tryAdd addFails name (data taskId)) w =
        (Returned tt,
         {| cacheState := cacheState w; queued := q;
            addCalls := (addCalls w + List.length ids)%nat |}).
Proof.
  induction ids as [|x ids IH]; intros w; simpl.
  - exists (queued w). unfold ret. rewrite Nat.add_0_r. now rewrite world_eta.
  - unfold bind. rewrite tryAdd_eq.
    match goal with |- context [forEach ids _ ?w1] => destruct (IH w1) as [q ->] end.
    exists q. simpl. f_equal. f_equal. lia.
Qed.

Lemma deleteEach_keeps_unprefixed (c : Dict CacheService.Entry) k :
  startsWith k "tasks:" = false -> startsWith k "stats:" = false ->
  getOwn k (TasksService.deleteEach (TasksService.invalidated c) c) = getOwn k c.
Proof.
  intros Ht Hs. rewrite getOwn_deleteEach.
  destruct (existsb (String.eqb k) (TasksService.invalidated c)) eqn:E; [|reflexivity].
  exfalso. apply existsb_exists in E as (n & Hn & Hkn).
  apply String.eqb_eq in Hkn. subst n.
  unfold TasksService.invalidated in Hn.
  destruct Hn as [<-|Hn]; [discriminate|].
  apply in_app_or in Hn as [Hn|Hn].
  - apply filter_In in Hn as [_ Hn]. rewrite Ht, Hs in Hn. discriminate.
  - destruct Hn as [<-|[<-|[]]]; discriminate.
Qed.

Lemma statistics_gone (c : Dict CacheService.Entry) :
  getOwn "stats:task-statistics"
    (TasksService.deleteEach (TasksService.invalidated c) c) = None.
Proof. rewrite getOwn_deleteEach. reflexivity. Qed.
End TasksFacts.

(** X17. Creating a task does not depend on the queue: when the row is
    saved, [create] returns it whether the queue takes the job or throws,
    and leaves the cache alone; the job for the new task is on the queue
    exactly when the queue took it.  When the save fails, [create]
    throws that error and the queue is not called. *)
Theorem create_survives_queue_failure :
  forall (addFails : nat -> option Js.Exn) (w : Tasks.World),
    (forall task,
       let r := Tasks.create addFails (Js.Returned task) w in
       fst r = Js.Returned task /\
       Tasks.cacheState (snd r) = Tasks.cacheState w /\
       Tasks.addCalls (snd r) = S (Tasks.addCalls w) /\
       Tasks.queued (snd r) =
         Tasks.queued w ++
         match addFails (Tasks.addCalls w) with
         | None => [TasksViews.statusUpdate task]
         | Some _ => []
         end) /\
    (forall e, Tasks.create addFails (Js.Thrown e) w = (Js.Thrown e, w)).
Proof.
  intros addFails w. split.
  - intros task r. subst r. unfold Tasks.create, Js.bind, Tasks.await, Js.ret.
    rewrite tryAdd_eq. simpl. repeat split.
  - intros e. reflexivity.
Qed.

(** X18. [update] compares the status it was given with the status of
    the row it reads back after the write.  When the row comes back
    with the status that was written, or no status was given, no job is
    handed to the queue: the queue is not even called. *)
Theorem update_enqueues_nothing :
  forall (addFails : nat -> option Js.Exn) (w : Tasks.World) (n : Z)
         (task : TaskProcessorService.Task) (dtoStatus : Js.Val),
    n <> 0 ->
    Js.truthy dtoStatus = false \/ dtoStatus = TaskProcessorService.taskStatus task ->
    let r := Tasks.update addFails (Js.Returned n) (Js.Returned (Some task)) dtoStatus w in
    fst r = Js.Returned task /\
    Tasks.queued (snd r) = Tasks.queued w /\
    Tasks.addCalls (snd r) = Tasks.addCalls w.
Proof.
  intros addFails w n task dtoStatus Hn Hst r. subst r.
  unfold Tasks.update, Js.bind, Tasks.await, Tasks.findOne, Js.ret. simpl.
  rewrite (proj2 (Z.eqb_neq n 0) Hn). rewrite liftCache_invalidate. simpl.
  assert (Hc : Js.truthy dtoStatus
               && negb (Js.val_eqb dtoStatus (TaskProcessorService.taskStatus task))
               = false).
  { destruct Hst as [-> | ->]; [reflexivity|].
    rewrite val_eqb_refl. apply andb_false_r. }
  rewrite Hc. simpl. repeat split.
Qed.

Lemma update_enqueues_nothing_witness :
  let r := Tasks.update TasksViews.queueUp (Js.Returned 1)
             (Js.Returned (Some TasksViews.sampleTask)) (Js.VStr "COMPLETED")
             TasksViews.warm in
  fst r = Js.Returned TasksViews.sampleTask /\
  Tasks.queued (snd r) = [] /\
  Tasks.addCalls (snd r) = 0%nat.
Proof.
  apply (update_enqueues_nothing TasksViews.queueUp TasksViews.warm 1
           TasksViews.sampleTask (Js.VStr "COMPLETED")).
  - discriminate.
  - now right.
Defined.

(** X19. A write that reaches no row reaches no cache entry: when the
    repository reports 0 rows affected, [update], [remove] and
    [updateStatus] throw [NotFoundException('Task not found')], and when
    the repository throws they throw the same; in both cases the cache
    and the queue are as they were. *)
Theorem failed_write_touches_nothing :
  forall (addFails : nat -> option Js.Exn) (w : Tasks.World)
         (found : Js.Outcome Js.Exn (option TaskProcessorService.Task))
         (dtoStatus : Js.Val) (affected : Js.Outcome Js.Exn Z),
    (affected = Js.Returned 0 \/ exists e, affected = Js.Thrown e) ->
    let thrown := match affected with
                  | Js.Returned _ => Js.NotFoundException "Task not found"
                  | Js.Thrown e => e
                  end in
    Tasks.update addFails affected found dtoStatus w = (Js.Thrown thrown, w) /\
    Tasks.remove affected w = (Js.Thrown thrown, w) /\
    Tasks.updateStatus affected found w = (Js.Thrown thrown, w).
Proof.
  intros addFails w found dtoStatus affected [-> | [e ->]]; simpl; repeat split.
Qed.

Lemma failed_write_touches_nothing_witness :
  Tasks.updateStatus (Js.Returned 0) (Js.Returned (Some TasksViews.sampleTask))
    TasksViews.warm =
  (Js.Thrown (Js.NotFoundException "Task not found"), TasksViews.warm).
Proof.
  apply (failed_write_touches_nothing TasksViews.queueUp TasksViews.warm
           (Js.Returned (Some TasksViews.sampleTask)) Js.VUndefined (Js.Returned 0)).
  now left.
Defined.

(** X20. A write that reaches a row drops the cached statistics: after
    [update], [remove] or [updateStatus] with a non-zero [affected]
    count, the cache has no entry under ['stats:task-statistics'], also
    when reading the row back then fails, and the entries under keys
    that start with neither ['tasks:'] nor ['stats:'] are as they
    were. *)
Theorem successful_write_drops_statistics :
  forall (addFails : nat -> option Js.Exn) (w : Tasks.World) (n : Z)
         (found : Js.Outcome Js.Exn (option TaskProcessorService.Task))
         (dtoStatus : Js.Val),
    n <> 0 ->
    let after (w' : Tasks.World) :=
      Js.getOwn "stats:task-statistics"
        (CacheService.cache (Tasks.cacheState w')) = None /\
      forall k,
        Js.startsWith k "tasks:" = false -> Js.startsWith k "stats:" = false ->
        Js.getOwn k (CacheService.cache (Tasks.cacheState w')) =
        Js.getOwn k (CacheService.cache (Tasks.cacheState w)) in
    after (snd (Tasks.update addFails (Js.Returned n) found dtoStatus w)) /\
    after (snd (Tasks.remove (Js.Returned n) w)) /\
    after (snd (Tasks.updateStatus (Js.Returned n) found w)).
Proof.
  intros addFails w n found dtoStatus Hn after.
  pose proof (statistics_gone (CacheService.cache (Tasks.cacheState w))) as Hgone.
  pose proof (deleteEach_keeps_unprefixed (CacheService.cache (Tasks.cacheState w)))
    as Hkeep.
  assert (Hafter : forall q c,
    after {| Tasks.cacheState :=
               {| CacheService.heap := CacheService.heap (Tasks.cacheState w);
                  CacheService.cache :=
                    TasksService.deleteEach
                      (TasksService.invalidated
                         (CacheService.cache (Tasks.cacheState w)))
                      (CacheService.cache (Tasks.cacheState w));
                  CacheService.proto := CacheService.proto (Tasks.cacheState w) |};
             Tasks.queued := q; Tasks.addCalls := c |}).
  { intros q c. split; [exact Hgone|exact Hkeep]. }
  split; [|split].
  - unfold Tasks.update, Tasks.findOne, Tasks.await, Js.bind, Js.ret, Js.throw.
    rewrite (proj2 (Z.eqb_neq n 0) Hn). rewrite liftCache_invalidate.
    destruct found as [[task|]|e]; cbv beta iota; cbn [fst snd]; try apply Hafter.
    match goal with |- context [if ?c then _ else _] => destruct c end.
    + rewrite tryAdd_eq. apply Hafter.
    + apply Hafter.
  - unfold Tasks.remove, Js.bind, Tasks.await, Js.ret.
    rewrite (proj2 (Z.eqb_neq n 0) Hn). rewrite liftCache_invalidate. apply Hafter.
  - unfold Tasks.updateStatus, Tasks.findOne, Tasks.await, Js.bind, Js.ret, Js.throw.
    rewrite (proj2 (Z.eqb_neq n 0) Hn). rewrite liftCache_invalidate.
    destruct found as [[task|]|e]; cbv beta iota; cbn [fst snd]; apply Hafter.
Qed.

Lemma successful_write_drops_statistics_witness :
  Js.getOwn "stats:task-statistics"
    (CacheService.cache
       (Tasks.cacheState
          (snd (Tasks.updateStatus (Js.Returned 1) (Js.Returned None) TasksViews.warm)))) =
  None.
Proof.
  apply (successful_write_drops_statistics TasksViews.queueUp TasksViews.warm 1
           (Js.Returned None) Js.VUndefined).
  discriminate.
Defined.

Section StatisticsFacts.
Import Js Tasks.

(** What a call of [getTaskStatistics] does when the cache has nothing
    to offer: it builds the object, stores a clone for 300 s, returns
    the object. *)
Lemma statistics_miss (w : World) (d : nat) (now1 now2 : Z)
    (counts : Z * Z * Z * Z * Z) (cached : Val) (st1 : CacheService.State) :
  CacheService.get (S (S d)) (VStr "stats:task-statistics") now1 (cacheState w) =
    (Returned cached, st1) ->
  truthy cached = false ->
  exists h1 v' ext,
    getTaskStatistics (S (S d)) now1 now2 (Returned counts) w =
      (Returned (VRef (List.length (CacheService.heap st1))),
       {| cacheState :=
            {| CacheService.heap := h1 ++ ext;
               CacheService.cache :=
                 assign "stats:task-statistics"
                   {| CacheService.value := v';
                      CacheService.expiresAt := now2 + 300 * 1000 |}
                   (CacheService.admitting (CacheService.cache st1));
               CacheService.proto := CacheService.proto st1 |};
          queued := queued w;
          addCalls := addCalls w |}) /\
    reify (S (S d)) (h1 ++ ext) (VRef (List.length (CacheService.heap st1))) =
      Some (TasksViews.statisticsTree counts) /\
    forall g, agree (List.length h1) (List.length (h1 ++ ext)) (h1 ++ ext) g ->
              reify (S (S d)) g v' = Some (TasksViews.statisticsTree counts).
Proof.
  intros Hget Hfalsy.
  destruct counts as [[[[total completed] inProgress] pending] highPriority].
  set (o := ORec [("total", VNum total); ("completed", VNum completed);
                  ("inProgress", VNum inProgress); ("pending", VNum pending);
                  ("highPriority", VNum highPriority)]).
  assert (Hre : reify (S (S d)) (CacheService.heap st1 ++ [o])
                  (VRef (List.length (CacheService.heap st1))) =
                Some (TasksViews.statisticsTree
                        (total, completed, inProgress, pending, highPriority))).
  { simpl. rewrite nth_error_snoc. reflexivity. }
  destruct (deepClone_reify _ _ _ _ Hre) as (v' & ext & Hclone & Hfresh).
  exists (CacheService.heap st1 ++ [o]), v', ext.
  split; [|split; [|exact Hfresh]].
  - unfold getTaskStatistics, bind, liftCache. rewrite Hget, Hfalsy.
    unfold await, ret, gets, alloc, modify. cbn [fst snd cacheState queued addCalls].
    fold o.
    rewrite set_valid by reflexivity.
    cbn [CacheService.heap CacheService.cache CacheService.proto
         CacheService.setHeap CacheService.propertyKey].
    rewrite Hclone. now rewrite store_own by discriminate.
  - apply reify_app. exact Hre.
Qed.
End StatisticsFacts.

(** X21. The statistics are counted once per 300 seconds.  After a call
    of [getTaskStatistics] that found nothing usable in the cache and
    counted [counts], a call up to 300 s after the first one's [set]
    returns an object with the content of [counts], whatever the
    database would count by then, without storing anything; and it
    returns a copy, not the object the first call returned. *)
Theorem statistics_are_served_from_cache :
  forall (w : Tasks.World) (d : nat) (now1 now2 t1 t2 : Z)
         (counts : Z * Z * Z * Z * Z)
         (counts' : Js.Outcome Js.Exn (Z * Z * Z * Z * Z))
         (cached : Js.Val),
    fst (CacheService.get (S (S d)) (Js.VStr "stats:task-statistics") now1
           (Tasks.cacheState w)) = Js.Returned cached ->
    Js.truthy cached = false ->
    t1 <= now2 + 300 * 1000 ->
    exists v w1 v2 w2,
      Tasks.getTaskStatistics (S (S d)) now1 now2 (Js.Returned counts) w =
        (Js.Returned v, w1) /\
      Js.reify (S (S d)) (CacheService.heap (Tasks.cacheState w1)) v =
        Some (TasksViews.statisticsTree counts) /\
      Tasks.getTaskStatistics (S (S d)) t1 t2 counts' w1 = (Js.Returned v2, w2) /\
      Js.reify (S (S d)) (CacheService.heap (Tasks.cacheState w2)) v2 =
        Some (TasksViews.statisticsTree counts) /\
      CacheService.cache (Tasks.cacheState w2) = CacheService.cache (Tasks.cacheState w1) /\
      v2 <> v.
Proof.
  intros w d now1 now2 t1 t2 counts counts' cached Hget Hfalsy Ht.
  destruct (CacheService.get (S (S d)) (Js.VStr "stats:task-statistics") now1
              (Tasks.cacheState w)) as [o st1] eqn:Eg.
  simpl in Hget. subst o.
  destruct (statistics_miss w d now1 now2 counts cached st1 Eg Hfalsy)
    as (h1 & v' & ext & Hcall & Hv & Hfresh).
  rewrite Hcall.
  pose proof (Hfresh _ (agree_refl _ _ _)) as Hv'.
  destruct (deepClone_reify _ _ _ _ Hv') as (v2 & ext2 & Hclone2 & Hfresh2).
  assert (Hnew : exists a2, v2 = Js.VRef a2 /\ (List.length (h1 ++ ext) <= a2)%nat).
  { destruct v' as [| | b | n | s | a']; try (destruct counts as [[[[? ?] ?] ?] ?];
      simpl in Hv'; discriminate).
    simpl in Hclone2, Hv'.
    destruct (nth_error (h1 ++ ext) a') as [[t|items|props]|] eqn:Ea;
      [| | |discriminate].
    - injection Hclone2 as <- _. eexists. split; [reflexivity|lia].
    - destruct (Js.cloneEach _ _ _ _ items) as [[items' h2]|e] eqn:E; [|discriminate].
      injection Hclone2 as <- Hh.
      destruct (cloneEach_extends _ _ _ (deepClone_extends (S d)) _ _ _ _ E) as [x ->].
      eexists. split; [reflexivity|]. rewrite (length_app (h1 ++ ext)). lia.
    - destruct (Js.hasOwn "hasOwnProperty" props); [discriminate|].
      destruct (Js.cloneEach _ _ _ _ props) as [[props' h2]|e] eqn:E; [|discriminate].
      injection Hclone2 as <- Hh.
      destruct (cloneEach_extends _ _ _ (deepClone_extends (S d)) _ _ _ _ E) as [x ->].
      eexists. split; [reflexivity|]. rewrite (length_app (h1 ++ ext)). lia. }
  destruct Hnew as (a2 & -> & Ha2).
  eexists _, _, (Js.VRef a2), _. split; [reflexivity|].
  cbn [Tasks.cacheState CacheService.heap CacheService.cache].
  split; [exact Hv|].
  assert (Hlen1 : (List.length (CacheService.heap st1) < List.length (h1 ++ ext))%nat).
  { apply nth_error_Some. destruct counts as [[[[? ?] ?] ?] ?].
    simpl in Hv. destruct (nth_error (h1 ++ ext) _); [discriminate|discriminate]. }
  split; [|split; [|split]].
  - unfold Tasks.getTaskStatistics, Js.bind, Tasks.liftCache.
    cbn [Tasks.cacheState Tasks.queued Tasks.addCalls].
    erewrite get_live; [|discriminate|apply getOwn_assign_eq|simpl; lia].
    cbn [CacheService.heap CacheService.value].
    rewrite Hclone2. cbn [Js.truthy]. reflexivity.
  - cbn [Tasks.cacheState CacheService.heap CacheService.setHeap].
    apply Hfresh2. apply agree_refl.
  - reflexivity.
  - intros [= ->]. lia.
Qed.

Lemma statistics_are_served_from_cache_witness :
  exists v w1 v2 w2,
    Tasks.getTaskStatistics 2 0 1 (Js.Returned (12, 5, 4, 3, 2)) TasksViews.fresh =
      (Js.Returned v, w1) /\
    Js.reify 2 (CacheService.heap (Tasks.cacheState w1)) v =
      Some (TasksViews.statisticsTree (12, 5, 4, 3, 2)) /\
    Tasks.getTaskStatistics 2 300000 300000 (Js.Returned (13, 6, 4, 3, 2)) w1 =
      (Js.Returned v2, w2) /\
    Js.reify 2 (CacheService.heap (Tasks.cacheState w2)) v2 =
      Some (TasksViews.statisticsTree (12, 5, 4, 3, 2)) /\
    CacheService.cache (Tasks.cacheState w2) = CacheService.cache (Tasks.cacheState w1) /\
    v2 <> v.
Proof.
  apply (statistics_are_served_from_cache TasksViews.fresh 0 0 1 300000 300000
           (12, 5, 4, 3, 2) (Js.Returned (13, 6, 4, 3, 2)) Js.VNull).
  - reflexivity.
  - reflexivity.
  - lia.
Defined.

(** X22. A write is seen by the next reader of the statistics: after
    [updateStatus], [remove] or [update] reached a row, the next
    [getTaskStatistics] counts again and returns the new counts,
    whatever was cached before the write. *)
Theorem write_then_read_recounts :
  forall (addFails : nat -> option Js.Exn) (w : Tasks.World) (d : nat) (n : Z)
         (found : Js.Outcome Js.Exn (option TaskProcessorService.Task))
         (dtoStatus : Js.Val) (now1 now2 : Z) (counts : Z * Z * Z * Z * Z),
    n <> 0 ->
    let recounts (w1 : Tasks.World) :=
      exists v w2,
        Tasks.getTaskStatistics (S (S d)) now1 now2 (Js.Returned counts) w1 =
          (Js.Returned v, w2) /\
        Js.reify (S (S d)) (CacheService.heap (Tasks.cacheState w2)) v =
          Some (TasksViews.statisticsTree counts) in
    recounts (snd (Tasks.updateStatus (Js.Returned n) found w)) /\
    recounts (snd (Tasks.remove (Js.Returned n) w)) /\
    recounts (snd (Tasks.update addFails (Js.Returned n) found dtoStatus w)).
Proof.
  intros addFails w d n found dtoStatus now1 now2 counts Hn recounts.
  assert (Hrec : forall w1,
    Js.getOwn "stats:task-statistics" (CacheService.cache (Tasks.cacheState w1)) = None ->
    recounts w1).
  { intros w1 Hgone.
    destruct (statistics_miss w1 d now1 now2 counts Js.VNull (Tasks.cacheState w1))
      as (h1 & v' & ext & Hcall & Hv & _).
    - apply get_absent; [exact Hgone|now apply inherited_prefixed].
    - reflexivity.
    - eexists _, _. split; [exact Hcall|exact Hv]. }
  pose proof (statistics_gone (CacheService.cache (Tasks.cacheState w))) as Hgone.
  split; [|split]; apply Hrec.
  - unfold Tasks.updateStatus, Tasks.findOne, Tasks.await, Js.bind, Js.ret, Js.throw.
    rewrite (proj2 (Z.eqb_neq n 0) Hn). rewrite liftCache_invalidate.
    destruct found as [[task|]|e]; cbv beta iota; cbn [fst snd]; exact Hgone.
  - unfold Tasks.remove, Js.bind, Tasks.await, Js.ret.
    rewrite (proj2 (Z.eqb_neq n 0) Hn). rewrite liftCache_invalidate. exact Hgone.
  - unfold Tasks.update, Tasks.findOne, Tasks.await, Js.bind, Js.ret, Js.throw.
    rewrite (proj2 (Z.eqb_neq n 0) Hn). rewrite liftCache_invalidate.
    destruct found as [[task|]|e]; cbv beta iota; cbn [fst snd]; try exact Hgone.
    match goal with |- context [if ?c then _ else _] => destruct c end.
    + rewrite tryAdd_eq. exact Hgone.
    + exact Hgone.
Qed.

Lemma write_then_read_recounts_witness :
  exists v w2,
    Tasks.getTaskStatistics 2 10 11 (Js.Returned (13, 6, 4, 3, 2))
      (snd (Tasks.updateStatus (Js.Returned 1)
              (Js.Returned (Some TasksViews.sampleTask)) TasksViews.warm)) =
      (Js.Returned v, w2) /\
    Js.reify 2 (CacheService.heap (Tasks.cacheState w2)) v =
      Some (TasksViews.statisticsTree (13, 6, 4, 3, 2)).
Proof.
  apply (write_then_read_recounts TasksViews.queueUp TasksViews.warm 0 1
           (Js.Returned (Some TasksViews.sampleTask)) Js.VUndefined 10 11
           (13, 6, 4, 3, 2)).
  discriminate.
Defined.

(** X23. [batchProcessTasks] reports on every id of an array of ids, in
    the order given, and throws when what the request gave as [tasks]
    is no array.

    For an array it never throws.  With an action other than
    ['complete'] and ['delete'], or when the bulk statement throws,
    every id is reported failed with the error's message and neither
    the cache nor the queue is touched.  When the bulk statement
    returns, every id is reported a success with the statement's
    result, the ids that matched no row included, and the cached
    statistics are dropped; ['complete'] calls the queue once per id,
    ['delete'] never.

    For anything else (a body without [tasks], a string, ...) the
    method throws a [TypeError], out of the [map] of its [catch] block,
    whatever the action and the bulk statement. *)
Theorem batch_reports_every_task :
  forall (addFails : nat -> option Js.Exn) (COMPLETED : Js.Val)
         (errorMessage : Js.Exn -> string)
         (text : Js.Val -> Js.Outcome Js.Exn string)
         (action : Js.Val) (bulk : Js.Outcome Js.Exn Js.Val) (w : Tasks.World),
    (forall ids : list Js.Val,
       let r := Tasks.batchProcessTasks addFails COMPLETED errorMessage text
                  (Tasks.IdArray ids) action bulk w in
       (exists report,
          fst r = Js.Returned report /\
          map (TaskProcessorService.prop "taskId") report = ids) /\
       (action <> Js.VStr "complete" -> action <> Js.VStr "delete" ->
        r = (Js.Returned
               (map (Tasks.failed errorMessage (Tasks.unknownAction text action)) ids),
             w)) /\
       (forall e, action = Js.VStr "complete" \/ action = Js.VStr "delete" ->
          bulk = Js.Thrown e ->
          r = (Js.Returned (map (Tasks.failed errorMessage e) ids), w)) /\
       (forall result, action = Js.VStr "complete" \/ action = Js.VStr "delete" ->
          bulk = Js.Returned result ->
          fst r = Js.Returned (map (Tasks.succeeded result) ids) /\
          Js.getOwn "stats:task-statistics"
            (CacheService.cache (Tasks.cacheState (snd r))) = None /\
          Tasks.addCalls (snd r) =
            (Tasks.addCalls w
             + (if Js.val_eqb action (Js.VStr "complete")
                then List.length ids else 0))%nat)) /\
    (forall taskIds : Tasks.TaskIds,
       (forall ids, taskIds <> Tasks.IdArray ids) ->
       fst (Tasks.batchProcessTasks addFails COMPLETED errorMessage text
              taskIds action bulk w) = Js.Thrown Js.TypeError).
Proof.
  intros addFails COMPLETED errorMessage text action bulk w. split.
  - intros taskIds r.
    assert (Hids_f : forall e,
      map (TaskProcessorService.prop "taskId") (map (Tasks.failed errorMessage e) taskIds)
      = taskIds).
    { intros e. rewrite map_map. simpl. apply map_id. }
    assert (Hids_s : forall res,
      map (TaskProcessorService.prop "taskId") (map (Tasks.succeeded res) taskIds)
      = taskIds).
    { intros res. rewrite map_map. simpl. apply map_id. }
    assert (Hunknown : action <> Js.VStr "complete" -> action <> Js.VStr "delete" ->
      r = (Js.Returned
             (map (Tasks.failed errorMessage (Tasks.unknownAction text action)) taskIds),
           w)).
    { intros H1 H2. subst r. unfold Tasks.batchProcessTasks, Js.tryCatch, Js.bind.
      rewrite (val_eqb_neq _ _ H1), (val_eqb_neq _ _ H2). reflexivity. }
    assert (Hthrown : forall e,
      action = Js.VStr "complete" \/ action = Js.VStr "delete" ->
      bulk = Js.Thrown e ->
      r = (Js.Returned (map (Tasks.failed errorMessage e) taskIds), w)).
    { intros e Ha ->. subst r. unfold Tasks.batchProcessTasks, Js.tryCatch, Js.bind.
      destruct Ha as [-> | ->]; reflexivity. }
    assert (Hreturned : forall result,
      action = Js.VStr "complete" \/ action = Js.VStr "delete" ->
      bulk = Js.Returned result ->
      fst r = Js.Returned (map (Tasks.succeeded result) taskIds) /\
      Js.getOwn "stats:task-statistics"
        (CacheService.cache (Tasks.cacheState (snd r))) = None /\
      Tasks.addCalls (snd r) =
        (Tasks.addCalls w
         + (if Js.val_eqb action (Js.VStr "complete")
            then List.length taskIds else 0))%nat).
    { intros result Ha ->. subst r. unfold Tasks.batchProcessTasks, Js.tryCatch, Js.bind.
      destruct Ha as [-> | ->];
        cbn [Js.val_eqb String.eqb Ascii.eqb Bool.eqb Tasks.await Js.ret
             Tasks.elements Tasks.mapIds].
      - destruct (forEach_tryAdd addFails
                    (fun taskId => [("taskId", taskId); ("status", COMPLETED)])
                    "task-status-update" taskIds w) as [q Hq].
        unfold Js.ret at 1. rewrite Hq. rewrite liftCache_invalidate.
        unfold Js.ret. cbn [fst snd Tasks.cacheState Tasks.addCalls CacheService.cache].
        split; [reflexivity|]. split; [apply statistics_gone|reflexivity].
      - unfold Js.ret. rewrite liftCache_invalidate.
        cbn [fst snd Tasks.cacheState Tasks.addCalls CacheService.cache].
        split; [reflexivity|]. split; [apply statistics_gone|lia]. }
    split; [|split; [exact Hunknown|split; [exact Hthrown|exact Hreturned]]].
    destruct (Js.val_eqb action (Js.VStr "complete")) eqn:Ec;
      [apply val_eqb_eq in Ec
      |destruct (Js.val_eqb action (Js.VStr "delete")) eqn:Ed;
         [apply val_eqb_eq in Ed|]].
    + destruct bulk as [result|e].
      * destruct (Hreturned result (or_introl Ec) eq_refl) as (-> & _).
        eexists. split; [reflexivity|apply Hids_s].
      * rewrite (Hthrown e (or_introl Ec) eq_refl).
        eexists. split; [reflexivity|apply Hids_f].
    + destruct bulk as [result|e].
      * destruct (Hreturned result (or_intror Ed) eq_refl) as (-> & _).
        eexists. split; [reflexivity|apply Hids_s].
      * rewrite (Hthrown e (or_intror Ed) eq_refl).
        eexists. split; [reflexivity|apply Hids_f].
    + rewrite Hunknown.
      * eexists. split; [reflexivity|apply Hids_f].
      * intros ->. discriminate.
      * intros ->. discriminate.
  - intros taskIds Hno.
    assert (Hmap : forall (A : Type) (f : Js.Val -> A) (w' : Tasks.World),
              Tasks.mapIds f taskIds w' = (Js.Thrown Js.TypeError, w')).
    { intros A f w'. destruct taskIds as [ids| |]; [now destruct (Hno ids)| |];
        reflexivity. }
    unfold Tasks.batchProcessTasks, Js.tryCatch.
    match goal with |- context [match ?body w with _ => _ end] =>
      assert (Hbody : exists e w', body w = (Js.Thrown e, w'))
    end.
    { unfold Js.bind.
      match goal with |- context [match ?m w with _ => _ end] =>
        destruct (m w) as [[res|e] w1]; [|now eexists _, _]
      end.
      match goal with |- context [match ?m w1 with _ => _ end] =>
        destruct (m w1) as [[res2|e] w2]; [|now eexists _, _]
      end.
      match goal with |- context [match ?m w2 with _ => _ end] =>
        destruct (m w2) as [[res3|e] w3]; [|now eexists _, _]
      end.
      rewrite Hmap. now eexists _, _. }
    destruct Hbody as (e & w' & ->). now rewrite Hmap.
Qed.

Lemma batch_reports_every_task_witness :
  Tasks.batchProcessTasks TasksViews.queueUp (Js.VStr "COMPLETED") TasksViews.messageOf
    TasksViews.textOf (Tasks.IdArray [Js.VStr "7f3e"; Js.VStr "90ab"])
    (Js.VStr "archive") (Js.Returned Js.VNull) TasksViews.warm =
  (Js.Returned
     [[("taskId", Js.VStr "7f3e"); ("success", Js.VBool false);
       ("error", Js.VStr "Unknown action: archive")];
      [("taskId", Js.VStr "90ab"); ("success", Js.VBool false);
       ("error", Js.VStr "Unknown action: archive")]],
   TasksViews.warm).
Proof.
  apply (proj1 (proj2 (proj1 (batch_reports_every_task TasksViews.queueUp
                                (Js.VStr "COMPLETED") TasksViews.messageOf
                                TasksViews.textOf (Js.VStr "archive")
                                (Js.Returned Js.VNull) TasksViews.warm)
                         [Js.VStr "7f3e"; Js.VStr "90ab"])));
    discriminate.
Defined.

(** A request body without [tasks] and without [action]: the method
    rejects with a [TypeError], and nothing was written. *)
Example batch_of_an_empty_body :
  Tasks.batchProcessTasks TasksViews.queueUp (Js.VStr "COMPLETED") TasksViews.messageOf
    TasksViews.textOf Tasks.NotIterable Js.VUndefined (Js.Returned Js.VNull)
    TasksViews.warm =
  (Js.Thrown Js.TypeError, TasksViews.warm).
Proof. reflexivity. Qed.

(** X24. [findAll] serves whatever truthy value the cache holds under
    the key, without asking the repository.  The key is built from
    [status || 'all'] and [priority || 'all'], so a call with no filter,
    one with the filter ['all'] and one with the empty filter share an
    entry: each is served the page cached by the other. *)
Theorem findAll_serves_the_key :
  forall (depth : nat) (now1 now2 : Z)
         (query query' : Tasks.Query -> Js.Heap -> Js.Outcome Js.Exn (Js.Val * Z * Js.Heap))
         (page limit : Z) (status status' priority priority' : option string)
         (w : Tasks.World) (cached : Js.Val),
    Tasks.orAll status = Tasks.orAll status' ->
    Tasks.orAll priority = Tasks.orAll priority' ->
    fst (CacheService.get depth
           (Js.VStr (Tasks.cacheKey page limit status priority)) now1
           (Tasks.cacheState w)) = Js.Returned cached ->
    Js.truthy cached = true ->
    fst (Tasks.findAll depth now1 now2 query page limit status priority w) =
      Js.Returned cached /\
    Tasks.findAll depth now1 now2 query' page limit status' priority' w =
    Tasks.findAll depth now1 now2 query page limit status priority w.
Proof.
  intros depth now1 now2 query query' page limit status status' priority priority'
    w cached Hs Hp Hget Htruthy.
  assert (Hkey : Tasks.cacheKey page limit status' priority' =
                 Tasks.cacheKey page limit status priority).
  { unfold Tasks.cacheKey. now rewrite Hs, Hp. }
  unfold Tasks.findAll. rewrite Hkey. unfold Js.bind, Tasks.liftCache.
  destruct (CacheService.get depth
              (Js.VStr (Tasks.cacheKey page limit status priority)) now1
              (Tasks.cacheState w)) as [o st1].
  simpl in Hget. subst o. rewrite Htruthy. split; reflexivity.
Qed.

Lemma findAll_serves_the_key_witness :
  let databaseDown (q : Tasks.Query) (h : Js.Heap)
        : Js.Outcome Js.Exn (Js.Val * Z * Js.Heap) :=
    Js.Thrown (Js.ExternalFailure 111) in
  fst (Tasks.findAll 1 100 101 databaseDown 1 10 (Some "all") (Some "") TasksViews.warm) =
    Js.Returned (Js.VNum 5).
Proof.
  intros databaseDown.
  pose proof (findAll_serves_the_key 1 100 101 databaseDown databaseDown 1 10
                None (Some "all") None (Some "") TasksViews.warm (Js.VNum 5)
                eq_refl eq_refl eq_refl eq_refl) as [H1 H2].
  rewrite H2. exact H1.
Defined.

(** ** OverdueTasksService and the queue *)

Section OverdueFacts.
Import Js Tasks OverdueTasksService.

Lemma forEach_notify addFails : forall (tasks : list OverdueTask) (w : World),
  forEach tasks
    (fun task =>
       tryCatch (add addFails "overdue-tasks-notification" (notification task))
         (fun _ => ret tt)) w =
    (Returned tt,
     {| cacheState := cacheState w;
        queued := queued w ++
                  map TasksViews.overdueNotification
                    (accepted addFails (addCalls w) tasks);
        addCalls := (addCalls w + List.length tasks)%nat |}).
Proof.
  induction tasks as [|task tasks IH]; intros w; simpl.
  - unfold ret. rewrite app_nil_r, Nat.add_0_r. now rewrite world_eta.
  - unfold bind.
    change (tryCatch (add addFails "overdue-tasks-notification" (notification task))
              (fun _ => ret tt) w)
      with (tryAdd addFails "overdue-tasks-notification" (notification task) w).
    rewrite tryAdd_eq. rewrite IH.
    cbn [cacheState queued addCalls].
    destruct (addFails (addCalls w)); simpl.
    + rewrite app_nil_r. f_equal. f_equal. lia.
    + rewrite <- app_assoc. simpl. f_equal. f_equal. lia.
Qed.
End OverdueFacts.

(** X25. The hourly check never throws.  When the query fails nothing
    happens.  Otherwise the queue is called once per overdue task, in
    the order of the query; a task whose job the queue refuses is passed
    over and the check goes on with the next; the jobs of the others are
    on the queue, in order, each named ['overdue-tasks-notification']
    with the task's [id], [dueDate] and [userId].  The cache is not
    touched. *)
Theorem overdue_check_enqueues_what_the_queue_takes :
  forall (addFails : nat -> option Js.Exn)
         (found : Js.Outcome Js.Exn (list OverdueTasksService.OverdueTask))
         (w : Tasks.World),
    let r := OverdueTasksService.checkOverdueTasks addFails found w in
    fst r = Js.Returned tt /\
    Tasks.cacheState (snd r) = Tasks.cacheState w /\
    match found with
    | Js.Thrown _ => snd r = w
    | Js.Returned tasks =>
        Tasks.addCalls (snd r) = (Tasks.addCalls w + List.length tasks)%nat /\
        Tasks.queued (snd r) =
          Tasks.queued w ++
          map TasksViews.overdueNotification
            (OverdueTasksService.accepted addFails (Tasks.addCalls w) tasks)
    end.
Proof.
  intros addFails found w r. subst r.
  destruct found as [tasks|e].
  - pose proof (forEach_notify addFails tasks w) as H.
    unfold OverdueTasksService.checkOverdueTasks, Tasks.await.
    unfold Js.tryCatch, Js.bind, Js.ret in *. rewrite H. simpl. repeat split.
  - simpl. repeat split.
Qed.

(** X26. What the producers put on the queue is what the handlers
    read, once it has been through the queue's JSON text.  The job
    [checkOverdueTasks] builds for a task whose [id] and [userId] are
    truthy and no objects (they are strings), and whose [dueDate] does
    not reach the worker as an object (a [Date] reaches it as a
    string), passes the checks of the overdue handler: [process] asks
    the task store to set that task [IN_PROGRESS], reports success when
    the store answers, and otherwise retries or gives up by
    [attemptsMade].  The report's [overdueDate] is what the queue made
    of the task's [dueDate], not the [Date] itself.  The job [create]
    builds for a saved task with a truthy [id] and a [status] of the
    enum, no objects either, passes the checks of the status handler
    in the same way. *)
Theorem queued_jobs_pass_validation :
  forall (statuses : list Js.Val) (inProgress : Js.Val)
         (updateStatus : Js.Val -> Js.Val -> Js.Outcome Js.Exn TaskProcessorService.Task)
         (revived : nat -> option Js.Val) (jobId : Js.Val) (attempts : Z),
    (forall task : OverdueTasksService.OverdueTask,
       Js.truthy (OverdueTasksService.id task) = true ->
       Js.truthy (OverdueTasksService.userId task) = true ->
       (forall a, OverdueTasksService.id task <> Js.VRef a) ->
       (forall a, OverdueTasksService.userId task <> Js.VRef a) ->
       (forall a, OverdueTasksService.received revived
                    (OverdueTasksService.dueDate task) <> Some (Js.VRef a)) ->
       TaskProcessorService.process statuses inProgress updateStatus
         (OverdueTasksService.deliver revived jobId attempts
            (TasksViews.overdueNotification task)) =
       match updateStatus (OverdueTasksService.id task) inProgress with
       | Js.Returned written =>
           Js.Returned [("success", Js.VBool true);
                        ("message", Js.VStr "Overdue task processed");
                        ("taskId", OverdueTasksService.id task);
                        ("newStatus", TaskProcessorService.taskStatus written);
                        ("overdueDate",
                         match OverdueTasksService.received revived
                                 (OverdueTasksService.dueDate task) with
                         | Some v => v
                         | None => Js.VUndefined
                         end)]
       | Js.Thrown e =>
           if attempts <? 3 then Js.Thrown e
           else Js.Returned [("success", Js.VBool false);
                             ("error", Js.VStr "Job failed after maximum retries");
                             ("taskId", OverdueTasksService.id task)]
       end) /\
    (forall task : TaskProcessorService.Task,
       Js.truthy (TaskProcessorService.taskId_ task) = true ->
       Js.truthy (TaskProcessorService.taskStatus task) = true ->
       (forall a, TaskProcessorService.taskId_ task <> Js.VRef a) ->
       (forall a, TaskProcessorService.taskStatus task <> Js.VRef a) ->
       Js.includes statuses (TaskProcessorService.taskStatus task) = true ->
       TaskProcessorService.process statuses inProgress updateStatus
         (OverdueTasksService.deliver revived jobId attempts
            (TasksViews.statusUpdate task)) =
       match updateStatus (TaskProcessorService.taskId_ task)
                          (TaskProcessorService.taskStatus task) with
       | Js.Returned written =>
           Js.Returned [("success", Js.VBool true);
                        ("taskId", TaskProcessorService.taskId_ written);
                        ("newStatus", TaskProcessorService.taskStatus written)]
       | Js.Thrown e =>
           if attempts <? 3 then Js.Thrown e
           else Js.Returned [("success", Js.VBool false);
                             ("error", Js.VStr "Job failed after maximum retries");
                             ("taskId", TaskProcessorService.taskId_ task)]
       end).
Proof.
  intros statuses inProgress updateStatus revived jobId attempts.
  assert (Hkept : forall v, Js.truthy v = true -> (forall a, v <> Js.VRef a) ->
                            OverdueTasksService.received revived v = Some v).
  { intros v Ht Hr. destruct v as [| | b | n | s | a]; try reflexivity.
    - discriminate.
    - now destruct (Hr a). }
  split.
  - intros [tid due uid] Hid Huser Hid' Huser' _. simpl in *.
    unfold TaskProcessorService.process, TaskProcessorService.dispatch,
      TaskProcessorService.handleOverdueTasks, OverdueTasksService.deliver,
      TasksViews.overdueNotification, OverdueTasksService.notification.
    cbn [TaskProcessorService.name TaskProcessorService.data Tasks.jobName
         Tasks.jobData OverdueTasksService.throughJSON String.eqb Ascii.eqb Bool.eqb
         OverdueTasksService.id OverdueTasksService.dueDate OverdueTasksService.userId].
    rewrite (Hkept tid Hid Hid'), (Hkept uid Huser Huser').
    destruct (OverdueTasksService.received revived due) as [due'|];
      unfold TaskProcessorService.prop; simpl; rewrite Hid, Huser; simpl;
      destruct (updateStatus tid inProgress); reflexivity.
  - intros [tid st] Hid Hst Hid' Hst' Hin. simpl in *.
    unfold TaskProcessorService.process, TaskProcessorService.dispatch,
      TaskProcessorService.handleStatusUpdate, OverdueTasksService.deliver,
      TasksViews.statusUpdate.
    cbn [TaskProcessorService.name TaskProcessorService.data Tasks.jobName
         Tasks.jobData OverdueTasksService.throughJSON String.eqb Ascii.eqb Bool.eqb
         TaskProcessorService.taskId_ TaskProcessorService.taskStatus].
    rewrite (Hkept tid Hid Hid'), (Hkept st Hst Hst').
    unfold TaskProcessorService.prop. simpl. rewrite Hid, Hst, Hin. simpl.
    destruct (updateStatus tid st); reflexivity.
Qed.

Lemma queued_jobs_pass_validation_witness :
  TaskProcessorService.process Samples.statusNames (Js.VStr "IN_PROGRESS")
    Samples.taskUpdated
    (OverdueTasksService.deliver TasksViews.sampleDates (Js.VStr "45") 0
       (TasksViews.overdueNotification TasksViews.sampleOverdue)) =
  Js.Returned [("success", Js.VBool true);
               ("message", Js.VStr "Overdue task processed");
               ("taskId", Js.VStr "7f3e");
               ("newStatus", Js.VStr "IN_PROGRESS");
               ("overdueDate", Js.VStr "2025-01-31T00:00:00.000Z")].
Proof.
  apply (proj1 (queued_jobs_pass_validation Samples.statusNames (Js.VStr "IN_PROGRESS")
                  Samples.taskUpdated TasksViews.sampleDates (Js.VStr "45") 0)
           TasksViews.sampleOverdue);
    try reflexivity; discriminate.
Defined.

(** ** TasksService.findAll on a miss *)

Section FindAllFacts.
Import Js Tasks.

Lemma reify_record_is_ref depth (g : Heap) (v : Val) props :
  reify depth g v = Some (TRec props) -> exists a, v = VRef a.
Proof.
  destruct depth as [|d]; [discriminate|].
  destruct v as [| | b | n | s | a]; simpl; try discriminate. now eexists.
Qed.

(** What a call of [findAll] does when the cache has nothing to offer:
    it asks the repository, builds the page object, stores a clone
    under the key for 180 s, and returns the object. *)
Lemma findAll_miss (w : World) (d : nat) (now1 now2 : Z)
    (findAndCount : Query -> Heap -> Outcome Exn (Val * Z * Heap))
    (page limit : Z) (status priority : option string)
    (cached : Val) (st1 : CacheService.State)
    (tasks : Val) (total : Z) (h' : Heap) (rows : Tree) :
  CacheService.get (S d) (VStr (cacheKey page limit status priority)) now1
    (cacheState w) = (Returned cached, st1) ->
  truthy cached = false ->
  findAndCount {| whereStatus := whereField status;
                  wherePriority := whereField priority;
                  skip := (page - 1) * limit; take := limit |}
    (CacheService.heap st1) = Returned (tasks, total, h') ->
  reify d h' tasks = Some rows ->
  exists h1 v' ext,
    findAll (S d) now1 now2 findAndCount page limit status priority w =
      (Returned (VRef (List.length h')),
       {| cacheState :=
            {| CacheService.heap := h1 ++ ext;
               CacheService.cache :=
                 assign (cacheKey page limit status priority)
                   {| CacheService.value := v';
                      CacheService.expiresAt := now2 + 180 * 1000 |}
                   (CacheService.admitting (CacheService.cache st1));
               CacheService.proto := CacheService.proto st1 |};
          queued := queued w;
          addCalls := addCalls w |}) /\
    reify (S d) (h1 ++ ext) (VRef (List.length h')) =
      Some (TasksViews.pageTree rows total page limit) /\
    forall g, agree (List.length h1) (List.length (h1 ++ ext)) (h1 ++ ext) g ->
              reify (S d) g v' = Some (TasksViews.pageTree rows total page limit).
Proof.
  intros Hget Hfalsy Hdb Hrows.
  set (o := ORec [("data", tasks); ("total", VNum total);
                  ("page", VNum page); ("limit", VNum limit)]).
  assert (Hre : reify (S d) (h' ++ [o]) (VRef (List.length h')) =
                Some (TasksViews.pageTree rows total page limit)).
  { simpl. rewrite nth_error_snoc. subst o. simpl.
    rewrite (reify_app d h' _ tasks rows Hrows).
    destruct d as [|d0]; [discriminate|]. reflexivity. }
  destruct (deepClone_reify _ _ _ _ Hre) as (v' & ext & Hclone & Hfresh).
  exists (h' ++ [o]), v', ext.
  split; [|split; [|exact Hfresh]].
  - unfold findAll, bind, liftCache. rewrite Hget, Hfalsy.
    unfold gets. cbn [fst snd cacheState queued addCalls].
    rewrite Hdb. unfold await, ret, alloc, modify.
    cbn [fst snd cacheState queued addCalls].
    fold o.
    rewrite set_valid.
    + cbn [CacheService.heap CacheService.cache CacheService.proto
           CacheService.setHeap CacheService.propertyKey].
      rewrite Hclone.
      now rewrite store_own by (unfold cacheKey; discriminate).
    + apply invalidKey_VStr. unfold cacheKey. discriminate.
  - apply reify_app. exact Hre.
Qed.
End FindAllFacts.

(** X27. A page is queried once per 180 seconds.  When [findAll] finds
    nothing usable under the key, it asks the repository for the rows
    from [(page - 1) * limit] on, [limit] of them, filtered by the
    filters that were given, and returns [{ data, total, page, limit }].
    A call with the same arguments up to 180 s after the first one's
    [set] returns an object with that content, whatever the repository
    would answer by then, the repository being down included. *)
Theorem findAll_page_is_cached :
  forall (w : Tasks.World) (d : nat) (now1 now2 t1 t2 : Z)
         (findAndCount findAndCount' :
            Tasks.Query -> Js.Heap -> Js.Outcome Js.Exn (Js.Val * Z * Js.Heap))
         (page limit : Z) (status priority : option string)
         (cached tasks : Js.Val) (total : Z) (h' : Js.Heap) (rows : Js.Tree),
    let key := Tasks.cacheKey page limit status priority in
    let miss := CacheService.get (S d) (Js.VStr key) now1 (Tasks.cacheState w) in
    fst miss = Js.Returned cached ->
    Js.truthy cached = false ->
    findAndCount {| Tasks.whereStatus := Tasks.whereField status;
                    Tasks.wherePriority := Tasks.whereField priority;
                    Tasks.skip := (page - 1) * limit;
                    Tasks.take := limit |}
      (CacheService.heap (snd miss)) = Js.Returned (tasks, total, h') ->
    Js.reify d h' tasks = Some rows ->
    t1 <= now2 + 180 * 1000 ->
    exists v w1 v2 w2,
      Tasks.findAll (S d) now1 now2 findAndCount page limit status priority w =
        (Js.Returned v, w1) /\
      Js.reify (S d) (CacheService.heap (Tasks.cacheState w1)) v =
        Some (TasksViews.pageTree rows total page limit) /\
      Tasks.findAll (S d) t1 t2 findAndCount' page limit status priority w1 =
        (Js.Returned v2, w2) /\
      Js.reify (S d) (CacheService.heap (Tasks.cacheState w2)) v2 =
        Some (TasksViews.pageTree rows total page limit) /\
      CacheService.cache (Tasks.cacheState w2) = CacheService.cache (Tasks.cacheState w1).
Proof.
  intros w d now1 now2 t1 t2 findAndCount findAndCount' page limit status priority
    cached tasks total h' rows key miss Hget Hfalsy Hdb Hrows Ht.
  subst miss key.
  destruct (CacheService.get (S d)
              (Js.VStr (Tasks.cacheKey page limit status priority)) now1
              (Tasks.cacheState w)) as [o st1] eqn:Eg.
  simpl in Hget, Hdb. subst o.
  destruct (findAll_miss w d now1 now2 findAndCount page limit status priority
              cached st1 tasks total h' rows Eg Hfalsy Hdb Hrows)
    as (h1 & v' & ext & Hcall & Hv & Hfresh).
  rewrite Hcall.
  pose proof (Hfresh _ (agree_refl _ _ _)) as Hv'.
  destruct (deepClone_reify _ _ _ _ Hv') as (v2 & ext2 & Hclone2 & Hfresh2).
  pose proof (Hfresh2 _ (agree_refl _ _ _)) as Hv2.
  destruct (reify_record_is_ref _ _ _ _ Hv2) as [a2 ->].
  eexists _, _, (Js.VRef a2), _. split; [reflexivity|].
  cbn [Tasks.cacheState CacheService.heap CacheService.cache].
  split; [exact Hv|]. split; [|split].
  - unfold Tasks.findAll, Js.bind, Tasks.liftCache.
    cbn [Tasks.cacheState Tasks.queued Tasks.addCalls].
    erewrite get_live;
      [|unfold Tasks.cacheKey; discriminate|apply getOwn_assign_eq|simpl; lia].
    cbn [CacheService.heap CacheService.value].
    rewrite Hclone2. cbn [Js.truthy]. reflexivity.
  - cbn [Tasks.cacheState CacheService.heap CacheService.setHeap]. exact Hv2.
  - reflexivity.
Qed.

Lemma findAll_page_is_cached_witness :
  exists v w1 v2 w2,
    Tasks.findAll 3 0 1 TasksViews.twoRows 2 10 (Some "PENDING") None TasksViews.fresh =
      (Js.Returned v, w1) /\
    Js.reify 3 (CacheService.heap (Tasks.cacheState w1)) v =
      Some (TasksViews.pageTree (Js.TArr [Js.TStr "7f3e"; Js.TStr "90ab"]) 2 2 10) /\
    Tasks.findAll 3 180001 180002 TasksViews.databaseDown 2 10 (Some "PENDING") None w1 =
      (Js.Returned v2, w2) /\
    Js.reify 3 (CacheService.heap (Tasks.cacheState w2)) v2 =
      Some (TasksViews.pageTree (Js.TArr [Js.TStr "7f3e"; Js.TStr "90ab"]) 2 2 10) /\
    CacheService.cache (Tasks.cacheState w2) = CacheService.cache (Tasks.cacheState w1).
Proof.
  apply (findAll_page_is_cached TasksViews.fresh 2 0 1 180001 180002
           TasksViews.twoRows TasksViews.databaseDown 2 10 (Some "PENDING") None
           Js.VNull (Js.VRef 0) 2 [Js.OArr [Js.VStr "7f3e"; Js.VStr "90ab"]]
           (Js.TArr [Js.TStr "7f3e"; Js.TStr "90ab"])).
  - reflexivity.
  - reflexivity.
  - reflexivity.
  - reflexivity.
  - lia.
Defined.
